(** * Text corpus ingestion and batching: [data/text_data.py]

    A shallow embedding of the two classes of [data/text_data.py],
    [VocabEntry] and [MonoTextData], together with the properties of the
    vocabulary, of corpus reading, of the padding routine and of the three
    batching methods.

    Conventions of the embedding:
    - Python [int]s are [Z]; [len] results are [Z.of_nat] of a list length.
    - Python [str] values are [string]s, read as sequences of code points
      below 256.
    - A Python [dict] is an insertion-ordered association list ([Dict]).
    - Exceptions are values of [exn]; a computation that may raise returns
      a [result].
    - Python [list] objects that are shared between the corpus and the
      batching methods live in an explicit store ([heap]); see the second
      half of the file.
    - A [torch.long] tensor is the list of its rows; [torch.tensor]
      refuses an integer that is not a 64-bit signed one.
    - The one floating-point computation, the batch count of [data_iter],
      is carried out on integers, with the failures of [float] and [int]
      written out ([batch_num_of]). *)

From Stdlib Require Import ZArith List String Ascii Bool Arith Lia Permutation.
Import ListNotations.

Local Open Scope string_scope.
Local Open Scope list_scope.
Local Open Scope Z_scope.

Set Implicit Arguments.

(** ** Exceptions and results *)

Inductive exn : Type :=
| TypeError
| KeyError
| IndexError
| ValueError
| OverflowError
| AssertionError
| RuntimeError.

(** [LookupError] is the base class of [KeyError] and [IndexError]. *)
Definition is_LookupError (e : exn) : bool :=
  match e with
  | KeyError | IndexError => true
  | _ => false
  end.

Inductive result (A : Type) : Type :=
| Ok (a : A)
| Raise (e : exn).

Arguments Ok {A} a.
Arguments Raise {A} e.

(** ** Insertion-ordered dictionaries *)

Module Dict.
Section Dict.
Variables K V : Type.
Variable eqb : K -> K -> bool.

Definition t : Type := list (K * V).

(** [d.get(k)] *)
Fixpoint get (d : t) (k : K) : option V :=
  match d with
  | [] => None
  | (k', v) :: d' => if eqb k' k then Some v else get d' k
  end.

(** [k in d] *)
Definition contains (d : t) (k : K) : bool :=
  match get d k with
  | Some _ => true
  | None => false
  end.

(** [d[k] = v]: an existing key keeps its position, a new key goes last. *)
Fixpoint set (d : t) (k : K) (v : V) : t :=
  match d with
  | [] => [(k, v)]
  | (k', v') :: d' =>
      if eqb k' k then (k', v) :: d' else (k', v') :: set d' k v
  end.

(** [len(d)] *)
Definition len (d : t) : Z := Z.of_nat (List.length d).

(** [d[k]]: raises [KeyError] on a missing key. *)
Definition getitem (d : t) (k : K) : result V :=
  match get d k with
  | Some v => Ok v
  | None => Raise KeyError
  end.
End Dict.
End Dict.

Definition word_dict : Type := Dict.t string Z.
Definition id_dict : Type := Dict.t Z string.

Definition wget (d : word_dict) (w : string) : option Z := Dict.get String.eqb d w.
Definition wset (d : word_dict) (w : string) (i : Z) : word_dict := Dict.set String.eqb d w i.
Definition iget (d : id_dict) (i : Z) : option string := Dict.get Z.eqb d i.
Definition iset (d : id_dict) (i : Z) (w : string) : id_dict := Dict.set Z.eqb d i w.

(** [{v: k for k, v in d.items()}]: the items are visited in insertion
    order, so of two tokens with the same id the later one wins. *)
Definition invert (d : word_dict) : id_dict :=
  fold_left (fun acc kv => iset acc (snd kv) (fst kv)) d [].

(** ** [str.split()] *)

(** The whitespace code points below 256 ([str.isspace]). *)
Definition is_space (c : ascii) : bool :=
  let n := nat_of_ascii c in
  ((9 <=? n) && (n <=? 13) || (28 <=? n) && (n <=? 32)
   || (n =? 133) || (n =? 160))%nat.

Definition flush (tok : list ascii) : list string :=
  match tok with
  | [] => []
  | _ => [string_of_list_ascii (rev tok)]
  end.

(** [split_go s tok] scans [s]; [tok] is the current token, reversed. *)
Fixpoint split_go (s : string) (tok : list ascii) : list string :=
  match s with
  | EmptyString => flush tok
  | String c s' =>
      if is_space c then flush tok ++ split_go s' [] else split_go s' (c :: tok)
  end.

(** [line.split()]: the maximal runs of non-whitespace characters. *)
Definition split (line : string) : list string := split_go line [].

(** ** [class VocabEntry] *)

Module VocabEntry.

Record t : Type := mkVocabEntry {
  word2id : word_dict;
  unk_id : Z;
  id2word_ : id_dict
}.

(** The dictionary the constructor builds when it is given none. *)
Definition reserved_word2id : word_dict :=
  wset (wset (wset (wset [] "<pad>" 0) "<s>" 1) "</s>" 2) "<unk>" 3.

(** [VocabEntry.__init__(self, word2id=None)].  [if word2id:] is false for
    [None] and for an empty dictionary; [word2id['<unk>']] raises
    [KeyError] when the key is missing. *)
Definition __init__ (arg : option word_dict) : result t :=
  match arg with
  | Some ((_ :: _) as d) =>
      match Dict.getitem String.eqb d "<unk>" with
      | Ok u => Ok (mkVocabEntry d u (invert d))
      | Raise e => Raise e
      end
  | _ => Ok (mkVocabEntry reserved_word2id 3 (invert reserved_word2id))
  end.

(** [VocabEntry()] *)
Definition empty_vocab : t :=
  mkVocabEntry reserved_word2id 3 (invert reserved_word2id).

(** [self.word2id.get(word, self.unk_id)] *)
Definition __getitem__ (self : t) (word : string) : Z :=
  match wget (word2id self) word with
  | Some i => i
  | None => unk_id self
  end.

Definition __contains__ (self : t) (word : string) : bool :=
  Dict.contains String.eqb (word2id self) word.

Definition __len__ (self : t) : Z := Dict.len (word2id self).

(** What an attribute of a [VocabEntry] instance evaluates to.  The class
    defines the method [id2word]; the instance dictionary built by the
    constructor is stored under the other name [id2word_]. *)
Inductive attr_value : Type :=
| BoundMethod (name : string)
| IdDict (d : id_dict).

Definition getattr_id2word (self : t) : attr_value :=
  BoundMethod "id2word".

Definition getattr_id2word_ (self : t) : attr_value :=
  IdDict (id2word_ self).

(** [o[k] = v]: a method object does not support item assignment. *)
Definition setitem (o : attr_value) (k : Z) (v : string) : result attr_value :=
  match o with
  | BoundMethod _ => Raise TypeError
  | IdDict d => Ok (IdDict (iset d k v))
  end.

(** [VocabEntry.add(self, word)].  The object is threaded through, since
    the assignment to [self.word2id] has happened when line 37 raises.
<<
        if word not in self:
            wid = self.word2id[word] = len(self)
            self.id2word[wid] = word
            return wid
        else:
            return self[word]
>> *)
Definition add (word : string) (self : t) : t * result Z :=
  if negb (__contains__ self word) then
    let wid := __len__ self in
    let self1 := mkVocabEntry (wset (word2id self) word wid) (unk_id self)
                              (id2word_ self) in
    match setitem (getattr_id2word self1) wid word with
    | Ok (IdDict d) =>
        (mkVocabEntry (word2id self1) (unk_id self1) d, Ok wid)
    | Ok (BoundMethod _) => (self1, Ok wid)
    | Raise e => (self1, Raise e)
    end
  else (self, Ok (__getitem__ self word)).

(** [VocabEntry.id2word(self, wid)]: [self.id2word_[wid]]. *)
Definition id2word (self : t) (wid : Z) : result string :=
  Dict.getitem Z.eqb (id2word_ self) wid.

(** [[vocab.add(word) for word in words]]: stops at the first exception. *)
Fixpoint add_all (words : list string) (vocab : t)
  : t * result unit :=
  match words with
  | [] => (vocab, Ok tt)
  | w :: ws =>
      match add w vocab with
      | (vocab', Ok _) => add_all ws vocab'
      | (vocab', Raise e) => (vocab', Raise e)
      end
  end.

(** [VocabEntry.from_corpus(fname)], on the lines of the file. *)
Fixpoint from_corpus_lines (fin : list string) (vocab : t)
  : t * result unit :=
  match fin with
  | [] => (vocab, Ok tt)
  | line :: rest =>
      match add_all (split line) vocab with
      | (vocab', Ok _) => from_corpus_lines rest vocab'
      | (vocab', Raise e) => (vocab', Raise e)
      end
  end.

Definition from_corpus (fin : list string) : result t :=
  match from_corpus_lines fin empty_vocab with
  | (vocab, Ok _) => Ok vocab
  | (_, Raise e) => Raise e
  end.

(** The vocabularies a program can hold: built by the constructor, then
    passed through any number of calls of [add] (whether or not a call
    raised). *)
Inductive reachable : t -> Prop :=
| reachable_init arg v : __init__ arg = Ok v -> reachable v
| reachable_add w v : reachable v -> reachable (fst (add w v)).

(** Every entry of [id2word_] comes from an entry of [word2id]. *)
Definition backed (v : t) : Prop :=
  forall i w, iget (id2word_ v) i = Some w -> In (w, i) (word2id v).

End VocabEntry.

(** ** Python sequences *)

(** [len(l)] *)
Definition len (A : Type) (l : list A) : Z := Z.of_nat (List.length l).

(** [l[i]]: a negative index counts from the end; an index outside the
    list raises [IndexError]. *)
Definition py_getitem (A : Type) (l : list A) (i : Z) : result A :=
  let n := len l in
  let j := if i <? 0 then i + n else i in
  if (0 <=? j) && (j <? n) then
    match nth_error l (Z.to_nat j) with
    | Some x => Ok x
    | None => Raise IndexError
    end
  else Raise IndexError.

(** [range(lo, hi)] *)
Definition range (lo hi : Z) : list Z :=
  map (fun k => lo + Z.of_nat k) (seq 0 (Z.to_nat (hi - lo))).

(** A slice bound [i] on a sequence of length [n]. *)
Definition clip (n i : Z) : Z :=
  if i <? 0 then Z.max 0 (i + n) else Z.min i n.

(** [l[lo:hi]] *)
Definition slice (A : Type) (l : list A) (lo hi : Z) : list A :=
  let n := len l in
  let lo' := clip n lo in
  let hi' := clip n hi in
  firstn (Z.to_nat (hi' - lo')) (skipn (Z.to_nat lo') l).

(** [max(l)]: raises [ValueError] on an empty sequence. *)
Definition py_max (l : list Z) : result Z :=
  match l with
  | [] => Raise ValueError
  | x :: r => Ok (fold_left Z.max r x)
  end.

(** [[x] * n] *)
Definition py_repeat (A : Type) (x : A) (n : Z) : list A := repeat x (Z.to_nat n).

(** [list.sort(key=...)] is stable: elements with equal keys keep their
    order. *)
Fixpoint insert_by (A : Type) (key : A -> Z) (x : A) (l : list A) : list A :=
  match l with
  | [] => [x]
  | y :: r => if key x <=? key y then x :: l else y :: insert_by key x r
  end.

Definition sort_by (A : Type) (key : A -> Z) (l : list A) : list A :=
  fold_right (insert_by key) [] l.

Fixpoint list_eqb (a b : list Z) : bool :=
  match a, b with
  | [], [] => true
  | x :: a', y :: b' => (x =? y) && list_eqb a' b'
  | _, _ => false
  end.

(** ** numpy *)

(** The two numpy routines the module calls.  [np_random_shuffle n a] is
    the arrangement of [a] produced by the [n]-th draw from the global
    random stream; [np_argsort a] is the index array that sorts [a]. *)
Class Numpy : Type := {
  np_random_shuffle : nat -> list Z -> list Z;
  np_argsort : list Z -> list Z
}.

Fixpoint descending (l : list Z) : Prop :=
  match l with
  | [] => True
  | x :: r => match r with [] => True | y :: _ => y <= x end /\ descending r
  end.

Fixpoint ascending (l : list Z) : Prop :=
  match l with
  | [] => True
  | x :: r => match r with [] => True | y :: _ => x <= y end /\ ascending r
  end.

(** What the module relies on: a shuffle rearranges its argument, and
    [argsort] returns the positions of the array, arranged so that the
    values read in that order ascend.  The order among equal values is
    left open (numpy's default sort is not stable). *)
Class NumpySpec (np : Numpy) : Prop := {
  shuffle_perm : forall n a, Permutation (np_random_shuffle n a) a;
  argsort_perm : forall a, Permutation (np_argsort a) (range 0 (len a));
  argsort_sorted :
    forall a, ascending (map (fun i => nth (Z.to_nat i) a 0) (np_argsort a))
}.

(** One implementation: the shuffle that leaves the array as it is, and a
    stable insertion argsort. *)
Definition stable_argsort (a : list Z) : list Z :=
  sort_by (fun i => nth (Z.to_nat i) a 0) (range 0 (len a)).

Definition numpy_stable : Numpy := {|
  np_random_shuffle := fun _ a => a;
  np_argsort := stable_argsort
|}.

(** ** Tensors *)

(** A two-dimensional [torch.long] tensor, as the list of its rows. *)
Definition tensor : Type := list (list Z).

(** The values of [torch.long] are the 64-bit signed integers. *)
Definition torch_long (x : Z) : bool := (- 2 ^ 63 <=? x) && (x <? 2 ^ 63).

Definition int64 (x : Z) : Prop := - 2 ^ 63 <= x < 2 ^ 63.

(** [torch.tensor(data, dtype=torch.long, ...)] on rows of one length,
    which is what the module passes: an integer that is not a value of
    [torch.long] is refused with [RuntimeError] (overflow when unpacking
    it), and otherwise the tensor has the entries of [data]. *)
Definition torch_tensor (data : list (list Z)) : result tensor :=
  if forallb (forallb torch_long) data then Ok data else Raise RuntimeError.

(** [t.size(0)] *)
Definition size0 (t : tensor) : Z := len t.

(** [t.permute(1, 0).contiguous()] *)
Definition permute_1_0 (t : tensor) : tensor :=
  match t with
  | [] => []
  | row0 :: _ =>
      map (fun j => map (fun row => nth j row 0) t) (seq 0 (List.length row0))
  end.

(** ** [class MonoTextData] *)

Module MonoTextData.

(** *** Reading the corpus *)

(** The local [vocab] of [_read_corpus]: the [defaultdict] whose factory
    is [lambda: len(vocab)], or the [VocabEntry] the caller supplied. *)
Inductive scan_vocab : Type :=
| DefaultDict (d : word_dict)
| Entry (v : VocabEntry.t).

(** [vocab[word]].  On a missing key the [defaultdict] calls its factory,
    stores the value under the key and returns it; a [VocabEntry] answers
    through [__getitem__] and is not changed. *)
Definition scan_getitem (vocab : scan_vocab) (word : string) : scan_vocab * Z :=
  match vocab with
  | DefaultDict d =>
      match wget d word with
      | Some i => (vocab, i)
      | None => let i := Dict.len d in (DefaultDict (wset d word i), i)
      end
  | Entry v => (vocab, VocabEntry.__getitem__ v word)
  end.

(** [[vocab[word] for word in words]] *)
Fixpoint scan_words (vocab : scan_vocab) (words : list string)
  : scan_vocab * list Z :=
  match words with
  | [] => (vocab, [])
  | w :: ws =>
      let (vocab1, i) := scan_getitem vocab w in
      let (vocab2, ids) := scan_words vocab1 ws in
      (vocab2, i :: ids)
  end.

(** The locals of [_read_corpus]. *)
Record scan : Type := mkScan {
  scan_data : list (list Z);
  scan_dropped : Z;
  the_vocab : scan_vocab
}.

(** [if max_length:] holds for an integer other than zero; [None] and [0]
    are false. *)
Definition truth (max_length : option Z) : bool :=
  match max_length with
  | Some n => negb (n =? 0)
  | None => false
  end.

Definition exceeds (n : Z) (max_length : option Z) : bool :=
  match max_length with
  | Some m => n >? m
  | None => false
  end.

(** One turn of [for line in fin:].
<<
                split_line = line.split()
                if len(split_line) < 1:
                    dropped += 1
                    continue
                if max_length:
                    if len(split_line) > max_length:
                        dropped += 1
                        continue
                data.append([vocab[word] for word in line.split()])
>> *)
Definition scan_line (max_length : option Z) (st : scan) (line : string) : scan :=
  let split_line := split line in
  if len split_line <? 1 then
    mkScan (scan_data st) (scan_dropped st + 1) (the_vocab st)
  else if truth max_length && exceeds (len split_line) max_length then
    mkScan (scan_data st) (scan_dropped st + 1) (the_vocab st)
  else
    let (vocab1, ids) := scan_words (the_vocab st) (split line) in
    mkScan (scan_data st ++ [ids]) (scan_dropped st) vocab1.

(** [if not vocab:] holds for [None] and for an object whose [__len__]
    is zero. *)
Definition initial_vocab (vocab : option VocabEntry.t) : scan_vocab :=
  match vocab with
  | Some v =>
      if VocabEntry.__len__ v =? 0
      then DefaultDict VocabEntry.reserved_word2id
      else Entry v
  | None => DefaultDict VocabEntry.reserved_word2id
  end.

(** [MonoTextData._read_corpus(self, fname, max_length, vocab)], on the
    lines [fin] of the file. *)
Definition _read_corpus (fin : list string) (max_length : option Z)
    (vocab : option VocabEntry.t)
  : result (list (list Z) * VocabEntry.t * Z) :=
  let st := fold_left (scan_line max_length) fin
              (mkScan [] 0 (initial_vocab vocab)) in
  match the_vocab st with
  | Entry v => Ok (scan_data st, v, scan_dropped st)
  | DefaultDict d =>
      match VocabEntry.__init__ (Some d) with
      | Ok v => Ok (scan_data st, v, scan_dropped st)
      | Raise e => Raise e
      end
  end.

(** *** The store *)

(** The Python lists the corpus and the batching methods share are
    objects in a store: a sentence (a list of ids) or a list of
    sentences, which holds references.  A list that is built and read in
    one expression and never updated ([sent + [...]], [sents_len],
    [sents_new]) is a value. *)
Definition loc : Type := nat.

Inductive obj : Type :=
| Sent (s : list Z)
| Sents (ls : list loc).

Record state : Type := mkState {
  objs : list obj;
  data : loc;
  vocab : VocabEntry.t;
  dropped : Z;
  rng : nat
}.

(** A computation reads and updates the state and returns or raises. *)
Definition M (A : Type) : Type := state -> state * result A.

Definition ret (A : Type) (a : A) : M A := fun st => (st, Ok a).

Definition raise (A : Type) (e : exn) : M A := fun st => (st, Raise e).

Arguments raise {A} e.

Definition bind (A B : Type) (m : M A) (k : A -> M B) : M B :=
  fun st =>
    match m st with
    | (st1, Ok a) => k a st1
    | (st1, Raise e) => (st1, Raise e)
    end.

Definition lift (A : Type) (r : result A) : M A := fun st => (st, r).

Notation "x <- m ;; k" := (bind m (fun x => k))
  (at level 61, m at next level, right associativity).
Notation "' pat <- m ;; k" := (bind m (fun x => match x with pat => k end))
  (at level 61, pat pattern, m at next level, right associativity).
Notation "m ;;; k" := (bind m (fun _ => k))
  (at level 61, right associativity).

Fixpoint mapM (A B : Type) (f : A -> M B) (l : list A) : M (list B) :=
  match l with
  | [] => ret []
  | x :: r => y <- f x ;; ys <- mapM f r ;; ret (y :: ys)
  end.

Fixpoint foldM (A B : Type) (f : A -> B -> M A) (a : A) (l : list B) : M A :=
  match l with
  | [] => ret a
  | x :: r => a1 <- f a x ;; foldM f a1 r
  end.

Definition set_objs (h : list obj) (st : state) : state :=
  mkState h (data st) (vocab st) (dropped st) (rng st).

(** A new list object. *)
Definition alloc (o : obj) : M loc :=
  fun st => (set_objs (objs st ++ [o]) st, Ok (List.length (objs st))).

(** Reading a list object.  A name always refers to an object of the kind
    the code expects; the other cases are there to make the functions
    total. *)
Definition read_sent (l : loc) : M (list Z) :=
  fun st =>
    match nth_error (objs st) l with
    | Some (Sent s) => (st, Ok s)
    | _ => (st, Raise TypeError)
    end.

Definition read_sents (l : loc) : M (list loc) :=
  fun st =>
    match nth_error (objs st) l with
    | Some (Sents ls) => (st, Ok ls)
    | _ => (st, Raise TypeError)
    end.

(** Updating a list object in place. *)
Definition write (l : loc) (o : obj) : M unit :=
  fun st =>
    if (l <? List.length (objs st))%nat then
      (set_objs (firstn l (objs st) ++ o :: skipn (S l) (objs st)) st, Ok tt)
    else (st, Raise TypeError).

(** [self.data], [self.vocab] *)
Definition self_data : M loc := fun st => (st, Ok (data st)).
Definition self_vocab : M VocabEntry.t := fun st => (st, Ok (vocab st)).

(** [len(self.data)] *)
Definition len_self_data : M Z :=
  d <- self_data ;; ls <- read_sents d ;; ret (len ls).

(** [self.data[index]] *)
Definition self_data_getitem (index : Z) : M loc :=
  d <- self_data ;; ls <- read_sents d ;; lift (py_getitem ls index).

(** [l.append(x)] *)
Definition append (l : loc) (x : loc) : M unit :=
  ls <- read_sents l ;; write l (Sents (ls ++ [x])).

(** [l.sort(key=lambda e: -len(e))] *)
Definition sort_neg_len (l : loc) : M unit :=
  ls <- read_sents l ;;
  keyed <- mapM (fun e => s <- read_sent e ;; ret (- len s, e)) ls ;;
  write l (Sents (map snd (sort_by fst keyed))).

(** The sentences a list of sentences refers to, in order. *)
Definition sentences (l : loc) : M (list (list Z)) :=
  ls <- read_sents l ;; mapM read_sent ls.

(** [np.random.shuffle(index_arr)]: one draw from the global stream. *)
Definition shuffle_ `{Numpy} (index_arr : list Z) : M (list Z) :=
  fun st =>
    (mkState (objs st) (data st) (vocab st) (dropped st) (S (rng st)),
     Ok (np_random_shuffle (rng st) index_arr)).

(** The state of a corpus that holds the sentences [seqs]. *)
Definition new_corpus (seqs : list (list Z)) (v : VocabEntry.t) (n : Z) : state :=
  mkState (map Sent seqs ++ [Sents (seq 0 (List.length seqs))])
          (List.length seqs) v n 0.

(** [MonoTextData.__init__(self, fname, max_length=None, vocab=None)] *)
Definition __init__ (fin : list string) (max_length : option Z)
    (vocab : option VocabEntry.t) : result state :=
  match _read_corpus fin max_length vocab with
  | Ok (seqs, v, n) => Ok (new_corpus seqs v n)
  | Raise e => Raise e
  end.

(** [MonoTextData.__len__(self)] *)
Definition __len__ : M Z := len_self_data.

(** *** Padding *)

(** The body of [_to_tensor] on the sentences of the batch.
<<
        batch_data = [sent + [self.vocab['</s>']] for sent in batch_data]
        sents_len = [len(sent) for sent in batch_data]
        max_len = max(sents_len)
        batch_size = len(sents_len)
        sents_new = []
        sents_new.append([self.vocab['<s>']] * batch_size)
        for i in range(max_len):
            sents_new.append([sent[i] if len(sent) > i else self.vocab['<pad>'] \
                               for sent in batch_data])
        sents_ts = torch.tensor(sents_new, dtype=torch.long,
                                 requires_grad=False, device=device)
        if batch_first:
            sents_ts = sents_ts.permute(1, 0).contiguous()
        return sents_ts, [length + 1 for length in sents_len]
>> *)
Definition padded (v : VocabEntry.t) (batch_data : list (list Z))
    (batch_first : bool) : result (tensor * list Z) :=
  let batch_data :=
    map (fun sent => sent ++ [VocabEntry.__getitem__ v "</s>"]) batch_data in
  let sents_len := map (@len Z) batch_data in
  match py_max sents_len with
  | Raise e => Raise e
  | Ok max_len =>
      let batch_size := len sents_len in
      let sents_new :=
        [py_repeat (VocabEntry.__getitem__ v "<s>") batch_size]
        ++ map (fun i =>
                  map (fun sent =>
                         if len sent >? i then nth (Z.to_nat i) sent 0
                         else VocabEntry.__getitem__ v "<pad>")
                      batch_data)
               (range 0 max_len) in
      match torch_tensor sents_new with
      | Raise e => Raise e
      | Ok sents_ts =>
          let sents_ts :=
            if batch_first then permute_1_0 sents_ts else sents_ts in
          Ok (sents_ts, map (fun length => length + 1) sents_len)
      end
  end.

(** [MonoTextData._to_tensor(self, batch_data, batch_first, device)].  The
    device is where the tensor is stored and does not enter its value. *)
Definition _to_tensor (batch_data : loc) (batch_first : bool)
  : M (tensor * list Z) :=
  v <- self_vocab ;;
  sents <- sentences batch_data ;;
  lift (padded v sents batch_first).

(** *** The batching methods *)

(** [float(x)] on an integer raises [OverflowError] when [x] rounds to a
    double beyond the largest one, [2^1024 - 2^971]: that is from
    [2^1024 - 2^970] on, in absolute value. *)
Definition float_overflows (x : Z) : bool := 2 ^ 1024 - 2 ^ 970 <=? Z.abs x.

(** [int(np.ceil(len(index_arr)) / float(batch_size))]: [np.ceil] is
    applied to the length, which is an integer already; [float] converts
    the batch size, or raises; the quotient of the two floats is then
    truncated by [int].  A numpy float divided by zero is [inf], or [nan]
    for [0.0 / 0.0], and [int] raises [OverflowError] on the one and
    [ValueError] on the other.  For a length below [2^53] the length is a
    double, and the quotient of the doubles truncates to the quotient of
    the integers, which is what the definition returns; a list of [2^53]
    references would take [2^56] bytes, and the properties of [data_iter]
    that depend on the number of batches carry the bound. *)
Definition batch_num_of (n batch_size : Z) : result Z :=
  if float_overflows batch_size then Raise OverflowError
  else if batch_size =? 0 then
    if n =? 0 then Raise ValueError else Raise OverflowError
  else Ok (Z.quot n batch_size).

(** [MonoTextData.data_iter(self, batch_size, device, batch_first, shuffle)]:
    the batches the generator yields, in order.
<<
        index_arr = np.arange(len(self.data))
        if shuffle:
            np.random.shuffle(index_arr)
        batch_num = int(np.ceil(len(index_arr)) / float(batch_size))
        for i in range(batch_num):
            batch_ids = index_arr[i * batch_size : (i+1) * batch_size]
            batch_data = [self.data[index] for index in batch_ids]
            batch_data.sort(key=lambda e: -len(e))
            batch_data, sents_len = self._to_tensor(batch_data, batch_first, device)
            yield batch_data, sents_len
>> *)
Definition data_iter `{Numpy} (batch_size : Z) (batch_first shuffle : bool)
  : M (list (tensor * list Z)) :=
  n <- len_self_data ;;
  index_arr <- (if shuffle then shuffle_ (range 0 n) else ret (range 0 n)) ;;
  batch_num <- lift (batch_num_of (len index_arr) batch_size) ;;
  mapM (fun i =>
          let batch_ids :=
            slice index_arr (i * batch_size) ((i + 1) * batch_size) in
          refs <- mapM self_data_getitem batch_ids ;;
          batch_data <- alloc (Sents refs) ;;
          sort_neg_len batch_data ;;;
          _to_tensor batch_data batch_first)
       (range 0 batch_num).

(** [a[idx]] for an index array [idx]. *)
Fixpoint take_at (a : list Z) (idx : list Z) : result (list Z) :=
  match idx with
  | [] => Ok []
  | i :: r =>
      match py_getitem a i, take_at a r with
      | Ok x, Ok xs => Ok (x :: xs)
      | Raise e, _ => Raise e
      | _, Raise e => Raise e
      end
  end.

(** The locations where the length changes.
<<
        change_loc = []
        for i in range(1, len(sort_len)):
            if sort_len[i] != sort_len[i-1]:
                change_loc.append(i)
        change_loc.append(len(sort_len))
>> *)
Definition change_loc_of (sort_len : list Z) : list Z :=
  filter (fun i => negb (nth (Z.to_nat i) sort_len 0
                         =? nth (Z.to_nat (i - 1)) sort_len 0))
         (range 1 (len sort_len))
  ++ [len sort_len].

(** [assert(c)] *)
Definition assert (c : bool) : M unit :=
  if c then ret tt else raise AssertionError.

(** [while curr < idx:] with the locals [batch_data_list], [total] and
    [curr].  A turn either raises or moves [curr] forward, so [idx - curr]
    turns are enough; [fuel] bounds them.
<<
            while curr < idx:
                batch_data = []
                next = min(curr + batch_size, idx)
                for id_ in range(curr, next):
                    batch_data.append(self.data[sort_idx[id_]])
                curr = next
                batch_data, sents_len = self._to_tensor(batch_data, batch_first, device)
                batch_data_list.append(batch_data)
                total += batch_data.size(0)
                assert(sents_len == ([sents_len[0]] * len(sents_len)))
>> *)
Fixpoint while_curr (fuel : nat) (batch_size : Z) (batch_first : bool)
    (sort_idx : list Z) (idx : Z) (acc : list tensor * Z * Z)
  : M (list tensor * Z * Z) :=
  let '(batch_data_list, total, curr) := acc in
  if curr <? idx then
    match fuel with
    | O => ret acc
    | S fuel' =>
        batch_data <- alloc (Sents []) ;;
        let next := Z.min (curr + batch_size) idx in
        mapM (fun id_ =>
                i <- lift (py_getitem sort_idx id_) ;;
                s <- self_data_getitem i ;;
                append batch_data s)
             (range curr next) ;;;
        let curr := next in
        ' (batch_ts, sents_len) <- _to_tensor batch_data batch_first ;;
        let batch_data_list := batch_data_list ++ [batch_ts] in
        let total := total + size0 batch_ts in
        first <- lift (py_getitem sents_len 0) ;;
        assert (list_eqb sents_len (py_repeat first (len sents_len))) ;;;
        while_curr fuel' batch_size batch_first sort_idx idx
                   (batch_data_list, total, curr)
    end
  else ret acc.

(** Lines 171 to 196 of [create_data_batch]: the batches and [total]. *)
Definition batches `{Numpy} (batch_size : Z) (batch_first : bool)
  : M (list tensor * Z) :=
  d <- self_data ;;
  sents <- sentences d ;;
  let sents_len := map (@len Z) sents in
  let sort_idx := np_argsort sents_len in
  sort_len <- lift (take_at sents_len sort_idx) ;;
  ' (batch_data_list, total, _) <-
    foldM (fun acc idx =>
             while_curr (Z.to_nat idx) batch_size batch_first sort_idx idx acc)
          ([], 0, 0) (change_loc_of sort_len) ;;
  ret (batch_data_list, total).

(** [MonoTextData.create_data_batch(self, batch_size, device, batch_first)]
<<
        assert(total == len(self.data))
        return batch_data_list
>> *)
Definition create_data_batch `{Numpy} (batch_size : Z) (batch_first : bool)
  : M (list tensor) :=
  ' (batch_data_list, total) <- batches batch_size batch_first ;;
  n <- len_self_data ;;
  assert (total =? n) ;;;
  ret batch_data_list.

(** [MonoTextData.data_sample(self, nsample, device, batch_first, shuffle)]
<<
        index_arr = np.arange(len(self.data))
        if shuffle:
            np.random.shuffle(index_arr)
        batch_ids = index_arr[: nsample]
        batch_data = [self.data[index] for index in batch_ids]
        batch_data.sort(key=lambda e: -len(e))
        batch_data, sents_len = self._to_tensor(batch_data, batch_first, device)
        return batch_data, sents_len
>> *)
Definition data_sample `{Numpy} (nsample : Z) (batch_first shuffle : bool)
  : M (tensor * list Z) :=
  n <- len_self_data ;;
  index_arr <- (if shuffle then shuffle_ (range 0 n) else ret (range 0 n)) ;;
  let batch_ids := slice index_arr 0 nsample in
  refs <- mapM self_data_getitem batch_ids ;;
  batch_data <- alloc (Sents refs) ;;
  sort_neg_len batch_data ;;;
  _to_tensor batch_data batch_first.

(** *** Reading a state *)

(** [l] refers to the sentence [s] in [st]. *)
Definition sent_at (st : state) (l : loc) (s : list Z) : Prop :=
  nth_error (objs st) l = Some (Sent s).

(** The corpus of [st] holds the sentences [seqs], in this order. *)
Definition holds (st : state) (seqs : list (list Z)) : Prop :=
  exists ls,
    nth_error (objs st) (data st) = Some (Sents ls)
    /\ Forall2 (sent_at st) ls seqs.

(** Every object of [st] is in [st'], at its place and with its contents,
    and the attributes of the corpus are the same. *)
Definition kept (st st' : state) : Prop :=
  data st' = data st /\ vocab st' = vocab st /\ dropped st' = dropped st
  /\ exists fresh, objs st' = objs st ++ fresh.

(** *** Predicates on batches *)

(** The sentence at position [i] of the corpus. *)
Definition sentence_at (seqs : list (list Z)) (i : Z) : list Z :=
  nth (Z.to_nat i) seqs [].

(** The sentences at the positions [sort_idx[curr]], ...,
    [sort_idx[next - 1]]. *)
Definition slice_of (sort_idx : list Z) (seqs : list (list Z)) (curr next : Z)
  : list (list Z) :=
  map (fun id_ => sentence_at seqs (nth (Z.to_nat id_) sort_idx 0))
      (range curr next).

(** [t] is the padding of the non-empty group [g], whose sentences all
    have [n] tokens, and the lengths reported with it are all [n + 2]. *)
Definition one_length_batch (v : VocabEntry.t) (batch_first : bool)
    (g : list (list Z)) (t : tensor) : Prop :=
  g <> []
  /\ exists n,
       Forall (fun s => len s = n) g
       /\ padded v g batch_first = Ok (t, py_repeat (n + 2) (len g)).

(** The corpus of [st]: its list of sentences is at [d] and refers to
    [ls], which hold [seqs]; its vocabulary is [v]. *)
Definition corpus_in (v : VocabEntry.t) (d : loc) (ls : list loc)
    (seqs : list (list Z)) (st : state) : Prop :=
  data st = d /\ vocab st = v
  /\ nth_error (objs st) d = Some (Sents ls)
  /\ Forall2 (sent_at st) ls seqs.

(** From [curr + 1] up to [idx], the sentence at each position of
    [sort_idx] has the length of the one before. *)
Definition same_length_run (sort_idx : list Z) (seqs : list (list Z))
    (curr idx : Z) : Prop :=
  forall i,
    curr < i < idx ->
    len (sentence_at seqs (nth (Z.to_nat i) sort_idx 0))
    = len (sentence_at seqs (nth (Z.to_nat (i - 1)) sort_idx 0)).

(** Starting at [curr], the locations [cl] go up to [n] and between two
    of them the length does not change. *)
Fixpoint change_runs (sort_idx : list Z) (seqs : list (list Z)) (n curr : Z)
    (cl : list Z) : Prop :=
  match cl with
  | [] => True
  | idx :: r =>
      curr <= idx <= n
      /\ same_length_run sort_idx seqs curr idx
      /\ change_runs sort_idx seqs n idx r
  end.

(** The sum of [t.size(0)] over the batches [ts]. *)
Definition sum_size0 (ts : list tensor) : Z :=
  fold_right (fun t acc => size0 t + acc) 0 ts.

(** *** Sequences of batching calls *)

(** One call of a batching method, with any arguments, takes the state
    from [st] to [st']; a generator is run to its end. *)
Inductive batching_call `{Numpy} : state -> state -> Prop :=
| call_data_iter batch_size batch_first shuffle st :
    batching_call st (fst (data_iter batch_size batch_first shuffle st))
| call_create_data_batch batch_size batch_first st :
    batching_call st (fst (create_data_batch batch_size batch_first st))
| call_data_sample nsample batch_first shuffle st :
    batching_call st (fst (data_sample nsample batch_first shuffle st)).

Inductive batching_calls `{Numpy} : state -> state -> Prop :=
| calls_none st : batching_calls st st
| calls_step st1 st2 st3 :
    batching_call st1 st2 -> batching_calls st2 st3 -> batching_calls st1 st3.

(** *** Predicates on computations *)

(** From [st] to [st'] the attributes of the corpus and the first [n]
    objects are the same, and no object has gone. *)
Definition stable (n : nat) (st st' : state) : Prop :=
  data st' = data st /\ vocab st' = vocab st /\ dropped st' = dropped st
  /\ firstn n (objs st') = firstn n (objs st)
  /\ (List.length (objs st) <= List.length (objs st'))%nat.

(** Run in a state with at least [n] objects, [m] keeps the first [n],
    and its result, if it returns one, satisfies [Q]. *)
Definition safe (n : nat) (A : Type) (m : M A) (Q : A -> Prop) : Prop :=
  forall st,
    (n <= List.length (objs st))%nat ->
    stable n st (fst (m st)) /\ forall a, snd (m st) = Ok a -> Q a.

(** The postcondition that asks nothing. *)
Definition any (A : Type) : A -> Prop := fun _ => True.

(** *** Predicates on the scan and on padded batches *)

(** The ids of a dictionary are [0 .. len - 1], in insertion order. *)
Definition dense (d : word_dict) : Prop := map snd d = range 0 (Dict.len d).

(** The scan runs on a [defaultdict] with dense ids that maps ["<unk>"]
    to 3. *)
Definition scanning (sv : scan_vocab) : Prop :=
  exists d, sv = DefaultDict d /\ dense d /\ wget d "<unk>" = Some 3.

(** The vocabulary of the scan can be returned: a [defaultdict] is not
    empty and has the key ["<unk>"], so wrapping it in a [VocabEntry] does
    not raise. *)
Definition wrappable (sv : scan_vocab) : Prop :=
  match sv with
  | DefaultDict d => d <> [] /\ wget d "<unk>" <> None
  | Entry _ => True
  end.

(** The line passes both tests of the scan: it has a token, and it does
    not exceed a maximum that is in force. *)
Definition accepted (max_length : option Z) (line : string) : bool :=
  negb (len (split line) <? 1)
  && negb (truth max_length && exceeds (len (split line)) max_length).

(** The lines with no token, and the others. *)
Definition blank (line : string) : bool :=
  match split line with [] => true | _ => false end.

(** The scan drops [line]: the count goes up by one and no sequence is
    added. *)
Definition drops (ml : option Z) (st : scan) (line : string) : Prop :=
  scan_dropped (scan_line ml st line) = scan_dropped st + 1
  /\ scan_data (scan_line ml st line) = scan_data st.

(** The scan accepts [line]: the ids of its tokens are appended as one
    sequence and the count stays. *)
Definition accepts (ml : option Z) (st : scan) (line : string) : Prop :=
  scan_dropped (scan_line ml st line) = scan_dropped st
  /\ scan_data (scan_line ml st line)
     = scan_data st ++ [snd (scan_words (the_vocab st) (split line))].

(** Every id that [_to_tensor] can put into a tensor for the sentences
    [sents] is a value of [torch.long]: the ids of the three symbols it
    looks up, and the ids of the sentences. *)
Definition long_ids (v : VocabEntry.t) (sents : list (list Z)) : Prop :=
  int64 (VocabEntry.__getitem__ v "<s>")
  /\ int64 (VocabEntry.__getitem__ v "</s>")
  /\ int64 (VocabEntry.__getitem__ v "<pad>")
  /\ Forall (Forall int64) sents.

(** What [padded] puts at row [t >= 1] for the sentence [s]. *)
Definition cell (stop pad : Z) (s : list Z) (t : Z) : Z :=
  if t <=? len s then nth (Z.to_nat (t - 1)) s 0
  else if t =? len s + 1 then stop
  else pad.

End MonoTextData.

(** * Properties *)

Unset Implicit Arguments.

(** ** Dictionaries *)

Section DictFacts.
Variables K V : Type.
Variable eqb : K -> K -> bool.
Hypothesis eqb_eq : forall a b, eqb a b = true <-> a = b.

Lemma eqb_refl_K a : eqb a a = true.
Proof. now apply eqb_eq. Qed.

Lemma get_In (d : Dict.t K V) k v : Dict.get eqb d k = Some v -> In (k, v) d.
Proof.
  induction d as [|[k' v'] d IH]; simpl; [discriminate|].
  destruct (eqb k' k) eqn:E.
  - intros [= ->]. apply eqb_eq in E. subst. now left.
  - intros H. right. now apply IH.
Qed.

Lemma get_None_notin (d : Dict.t K V) k :
  Dict.get eqb d k = None -> forall v, ~ In (k, v) d.
Proof.
  induction d as [|[k' v'] d IH]; simpl; intros H v; [tauto|].
  destruct (eqb k' k) eqn:E; [discriminate|].
  intros [[= -> ->]|Hin].
  - rewrite eqb_refl_K in E. discriminate.
  - now apply (IH H v).
Qed.

Lemma set_absent (d : Dict.t K V) k v :
  Dict.get eqb d k = None -> Dict.set eqb d k v = d ++ [(k, v)].
Proof.
  induction d as [|[k' v'] d IH]; simpl; [reflexivity|].
  destruct (eqb k' k); [discriminate|].
  intros H. now rewrite IH.
Qed.

Lemma get_set (d : Dict.t K V) k v k0 :
  Dict.get eqb (Dict.set eqb d k v) k0
  = if eqb k k0 then Some v else Dict.get eqb d k0.
Proof.
  induction d as [|[k' v'] d IH]; simpl.
  - reflexivity.
  - destruct (eqb k' k) eqn:E; simpl.
    + apply eqb_eq in E. subst k'. now destruct (eqb k k0).
    + destruct (eqb k' k0) eqn:E0.
      * destruct (eqb k k0) eqn:E1; [|reflexivity].
        apply eqb_eq in E0, E1. subst. rewrite eqb_refl_K in E. discriminate.
      * apply IH.
Qed.

Lemma get_app_absent (d : Dict.t K V) k v k0 :
  Dict.get eqb d k = None ->
  Dict.get eqb (d ++ [(k, v)]) k0
  = match Dict.get eqb d k0 with
    | Some x => Some x
    | None => if eqb k k0 then Some v else None
    end.
Proof.
  induction d as [|[k' v'] d IH]; simpl; intros H.
  - reflexivity.
  - destruct (eqb k' k); [discriminate|].
    destruct (eqb k' k0); [reflexivity|]. now apply IH.
Qed.
End DictFacts.

Lemma wget_wset d w i w0 :
  wget (wset d w i) w0 = if String.eqb w w0 then Some i else wget d w0.
Proof. apply (get_set _ _ String.eqb String.eqb_eq). Qed.

Lemma iget_iset d i w i0 :
  iget (iset d i w) i0 = if Z.eqb i i0 then Some w else iget d i0.
Proof. apply (get_set _ _ Z.eqb Z.eqb_eq). Qed.

(** The inverted dictionary only holds pairs of the dictionary. *)
Lemma invert_acc_In (d0 d : word_dict) (acc : id_dict) :
  (forall x, In x d -> In x d0) ->
  (forall i w, iget acc i = Some w -> In (w, i) d0) ->
  forall i w,
    iget (fold_left (fun a kv => iset a (snd kv) (fst kv)) d acc) i = Some w ->
    In (w, i) d0.
Proof.
  revert acc. induction d as [|[k v] d IH]; simpl; intros acc Hd Hacc.
  - exact Hacc.
  - apply IH.
    + intros x Hx. apply Hd. now right.
    + intros i w. rewrite iget_iset. destruct (Z.eqb v i) eqn:E.
      * apply Z.eqb_eq in E. subst. intros [= <-]. apply Hd. now left.
      * apply Hacc.
Qed.

Lemma invert_In (d : word_dict) i w : iget (invert d) i = Some w -> In (w, i) d.
Proof.
  unfold invert. apply invert_acc_In; [tauto|]. simpl. discriminate.
Qed.

(** ** The vocabulary *)

Module VocabEntryFacts.
Import VocabEntry.

(** [add] on a known token returns its id and changes nothing. *)
Lemma add_known (v : t) w :
  __contains__ v w = true -> add w v = (v, Ok (__getitem__ v w)).
Proof. unfold add. now intros ->. Qed.

(** [add] on an unknown token stores it in [word2id] under the next id and
    then raises at the assignment through [self.id2word]. *)
Lemma add_unknown (v : t) w :
  __contains__ v w = false ->
  add w v = (mkVocabEntry (word2id v ++ [(w, __len__ v)]) (unk_id v) (id2word_ v),
             Raise TypeError).
Proof.
  unfold add. intros H. rewrite H. simpl.
  unfold __contains__, Dict.contains in H. unfold wset.
  destruct (Dict.get String.eqb (word2id v) w) eqn:E; [discriminate|].
  now rewrite (set_absent _ _ String.eqb _ _ _ E).
Qed.

Lemma backed_init arg v : __init__ arg = Ok v -> backed v.
Proof.
  unfold __init__.
  assert (D : backed (mkVocabEntry reserved_word2id 3 (invert reserved_word2id))).
  { intros i w. apply invert_In. }
  destruct arg as [[|p d]|].
  - intros [= <-]. exact D.
  - destruct (Dict.getitem String.eqb (p :: d) "<unk>"); [|discriminate].
    intros [= <-]. intros i w. apply invert_In.
  - intros [= <-]. exact D.
Qed.

Lemma backed_add w v : backed v -> backed (fst (add w v)).
Proof.
  intros B. destruct (__contains__ v w) eqn:E.
  - now rewrite add_known.
  - rewrite add_unknown by assumption. simpl. intros i x H.
    apply in_or_app. left. now apply B.
Qed.

Lemma reachable_backed v : reachable v -> backed v.
Proof.
  induction 1 as [arg v H|w v _ IH].
  - now apply backed_init with arg.
  - now apply backed_add.
Qed.

End VocabEntryFacts.

(** ** Vocabularies built by the constructor *)

Section ConstructedVocabulary.
Import VocabEntry.

Lemma In_get (K V : Type) (eqb : K -> K -> bool)
    (eqb_eq : forall a b, eqb a b = true <-> a = b)
    (l : Dict.t K V) (k : K) (x : V) :
  NoDup (map fst l) -> In (k, x) l -> Dict.get eqb l k = Some x.
Proof.
  induction l as [|[k' x'] l IH]; simpl; intros N H; [contradiction|].
  inversion N as [|? ? Hn N']; subst.
  destruct H as [[= -> ->]|H].
  - now rewrite (proj2 (eqb_eq k k) eq_refl).
  - destruct (eqb k' k) eqn:E; [|now apply IH].
    apply eqb_eq in E. subst k'. exfalso. apply Hn.
    apply (in_map fst) in H. exact H.
Qed.

(** With pairwise distinct ids, inverting a dictionary swaps its items. *)
Lemma invert_acc_swap (d : word_dict) : forall acc : id_dict,
  NoDup (map fst acc ++ map snd d) ->
  fold_left (fun a kv => iset a (snd kv) (fst kv)) d acc
  = acc ++ map (fun kv => (snd kv, fst kv)) d.
Proof.
  induction d as [|[w i] d IH]; intros acc N; simpl.
  - now rewrite app_nil_r.
  - simpl in N.
    assert (G : iget acc i = None).
    { destruct (iget acc i) as [x|] eqn:E; [|reflexivity].
      apply (get_In _ _ Z.eqb Z.eqb_eq) in E. apply (in_map fst) in E.
      simpl in E. apply NoDup_remove_2 in N. exfalso. apply N.
      apply in_or_app. now left. }
    unfold iset. rewrite (set_absent _ _ Z.eqb _ _ _ G).
    rewrite IH.
    + now rewrite <- app_assoc.
    + rewrite map_app, <- app_assoc. exact N.
Qed.

Lemma invert_swap (d : word_dict) :
  NoDup (map snd d) -> invert d = map (fun kv => (snd kv, fst kv)) d.
Proof. intros N. unfold invert. now rewrite invert_acc_swap. Qed.

(** A vocabulary as the constructor leaves it, over pairwise distinct
    ids: every known token is resolved back from its id. *)
Lemma constructed_roundtrip (v : t) (w : string) :
  id2word_ v = invert (word2id v) ->
  NoDup (map snd (word2id v)) ->
  __contains__ v w = true ->
  id2word v (__getitem__ v w) = Ok w.
Proof.
  intros I N. unfold __contains__, Dict.contains, __getitem__, wget.
  destruct (Dict.get String.eqb (word2id v) w) as [i|] eqn:E; [|discriminate].
  intros _. apply (get_In _ _ String.eqb String.eqb_eq) in E.
  unfold id2word, Dict.getitem. rewrite I, (invert_swap _ N).
  rewrite (In_get _ _ Z.eqb Z.eqb_eq _ i w); [reflexivity| |].
  - now rewrite map_map.
  - apply in_map_iff. now exists (w, i).
Qed.

Lemma init_inverts arg v : __init__ arg = Ok v -> id2word_ v = invert (word2id v).
Proof.
  unfold __init__. destruct arg as [[|p d]|]; try (now intros [= <-]).
  destruct (Dict.getitem String.eqb (p :: d) "<unk>"); [|discriminate].
  now intros [= <-].
Qed.

(** The fresh vocabulary resolves its four reserved symbols. *)
Lemma empty_vocab_roundtrip (w : string) :
  __contains__ empty_vocab w = true ->
  id2word empty_vocab (__getitem__ empty_vocab w) = Ok w.
Proof.
  apply constructed_roundtrip; [reflexivity|]. vm_compute.
  repeat constructor; simpl; intuition discriminate.
Qed.

End ConstructedVocabulary.

(** ** Claims on the vocabulary *)

Section VocabularyClaims.
Import VocabEntry VocabEntryFacts.

(** C1, at the input [VocabEntry().add("hello")].  The token is unknown and
    the vocabulary has size 4.  The call stores ["hello"] under id 4 in
    [word2id], then raises [TypeError] at [self.id2word[wid] = word]: it
    returns no id, and [id2word_] has no entry for 4, so resolving id 4
    raises [KeyError].  A second call finds the token known and returns 4
    without further change. *)
Theorem add_unknown_token_raises :
  let v := fst (add "hello" empty_vocab) in
  __contains__ empty_vocab "hello" = false
  /\ __len__ empty_vocab = 4
  /\ snd (add "hello" empty_vocab) = Raise TypeError
  /\ wget (word2id v) "hello" = Some 4
  /\ id2word_ v = id2word_ empty_vocab
  /\ id2word v 4 = Raise KeyError
  /\ add "hello" v = (v, Ok 4).
Proof. vm_compute. repeat split; reflexivity. Qed.

(** C5, at the vocabulary left by [VocabEntry().add("a")].  The token
    ["a"] is known ([in] answers true, lookup gives 4) and the size is 5,
    but the id-to-token mapping stops at 3: resolving the id of ["a"]
    raises [KeyError] instead of returning ["a"]. *)
Theorem roundtrip_broken_after_add :
  let v := fst (add "a" empty_vocab) in
  __contains__ v "a" = true
  /\ __getitem__ v "a" = 4
  /\ __len__ v = 5
  /\ id2word v (__getitem__ v "a") = Raise KeyError
  /\ id2word v (__getitem__ v "a") <> Ok "a".
Proof. vm_compute. repeat split; try reflexivity. discriminate. Qed.

(** C8.  On every vocabulary, lookup returns the stored id of a known
    token and the unknown id for any other token, and membership is the
    presence of the token in [word2id]: both are functions defined on
    every string.  Resolving an id that no token of [word2id] carries
    raises [KeyError], which is a [LookupError]. *)
Theorem lookup_total_resolve_strict (v : t) (R : reachable v) :
  (forall w, __contains__ v w = true ->
             In (w, __getitem__ v w) (word2id v))
  /\ (forall w, __contains__ v w = false ->
                (forall i, ~ In (w, i) (word2id v))
                /\ __getitem__ v w = unk_id v)
  /\ (forall i, (forall w, ~ In (w, i) (word2id v)) ->
                exists e, id2word v i = Raise e /\ is_LookupError e = true).
Proof.
  split; [|split].
  - intros w. unfold __contains__, Dict.contains, __getitem__, wget.
    destruct (Dict.get String.eqb (word2id v) w) eqn:E; [|discriminate].
    intros _. now apply (get_In _ _ String.eqb String.eqb_eq).
  - intros w. unfold __contains__, Dict.contains, __getitem__, wget.
    destruct (Dict.get String.eqb (word2id v) w) eqn:E; [discriminate|].
    intros _. split; [|reflexivity].
    intros i. now apply (get_None_notin _ _ String.eqb String.eqb_eq).
  - intros i Hi. exists KeyError. split; [|reflexivity].
    unfold id2word, Dict.getitem.
    destruct (Dict.get Z.eqb (id2word_ v) i) eqn:E; [|reflexivity].
    exfalso. apply (Hi s). now apply (reachable_backed v R).
Qed.

Lemma lookup_total_resolve_strict_witness :
  reachable empty_vocab
  /\ __getitem__ empty_vocab "zebra" = 3
  /\ exists e, id2word empty_vocab 7 = Raise e /\ is_LookupError e = true.
Proof.
  assert (R : reachable empty_vocab) by (apply (reachable_init None); reflexivity).
  split; [exact R|].
  destruct (lookup_total_resolve_strict empty_vocab R) as (_ & U & S).
  split.
  - now apply U.
  - apply S. intros w. simpl.
    intros [H|[H|[H|[H|[]]]]]; discriminate H.
Defined.

End VocabularyClaims.

(** ** Reading the corpus *)

Section ReadCorpusFacts.
Import MonoTextData.

Lemma len_nonneg (A : Type) (l : list A) : 0 <= len l.
Proof. unfold len. lia. Qed.

Lemma len_zero_nil (A : Type) (l : list A) : (len l <? 1) = true <-> l = [].
Proof.
  unfold len. destruct l; simpl; split; intros H; try reflexivity;
    try discriminate; apply Z.ltb_lt in H; lia.
Qed.

(** The list comprehension yields one id per token. *)
Lemma scan_words_length sv words :
  List.length (snd (scan_words sv words)) = List.length words.
Proof.
  revert sv. induction words as [|w ws IH]; intros sv; simpl; [reflexivity|].
  destruct (scan_getitem sv w) as [sv1 i].
  specialize (IH sv1). destruct (scan_words sv1 ws) as [sv2 ids].
  simpl in *. now rewrite IH.
Qed.

(** With a supplied vocabulary every token is looked up in it. *)
Lemma scan_words_entry v words :
  scan_words (Entry v) words = (Entry v, map (VocabEntry.__getitem__ v) words).
Proof.
  induction words as [|w ws IH]; simpl; [reflexivity|]. now rewrite IH.
Qed.

Lemma wrappable_getitem sv w : wrappable sv -> wrappable (fst (scan_getitem sv w)).
Proof.
  destruct sv as [d|v]; simpl; [|tauto].
  intros [Hne Hunk]. destruct (wget d w) eqn:E; simpl; [tauto|].
  split.
  - unfold wset. rewrite (set_absent _ _ String.eqb _ _ _ E).
    intros H. now apply app_eq_nil in H.
  - rewrite wget_wset. now destruct (String.eqb w "<unk>").
Qed.

Lemma wrappable_words sv words : wrappable sv -> wrappable (fst (scan_words sv words)).
Proof.
  revert sv. induction words as [|w ws IH]; intros sv H; simpl; [exact H|].
  pose proof (wrappable_getitem sv w H) as H1.
  destruct (scan_getitem sv w) as [sv1 i]. simpl in H1.
  specialize (IH sv1 H1). now destruct (scan_words sv1 ws).
Qed.

Lemma wrappable_line ml st line :
  wrappable (the_vocab st) -> wrappable (the_vocab (scan_line ml st line)).
Proof.
  intros H. unfold scan_line.
  destruct (len (split line) <? 1); [exact H|].
  destruct (truth ml && exceeds (len (split line)) ml); [exact H|].
  pose proof (wrappable_words _ (split line) H) as H1.
  now destruct (scan_words (the_vocab st) (split line)).
Qed.

Lemma wrappable_fold ml fin st :
  wrappable (the_vocab st) ->
  wrappable (the_vocab (fold_left (scan_line ml) fin st)).
Proof.
  revert st. induction fin as [|l fin IH]; intros st H; simpl; [exact H|].
  apply IH. now apply wrappable_line.
Qed.

Lemma wrappable_initial vocab : wrappable (initial_vocab vocab).
Proof.
  unfold initial_vocab.
  destruct vocab as [v|]; [destruct (VocabEntry.__len__ v =? 0)|]; simpl;
    try exact I; (split; [discriminate | vm_compute; discriminate]).
Qed.

(** [_read_corpus] returns: its data and its count are those of the scan. *)
Lemma _read_corpus_returns fin ml vocab :
  exists v,
    _read_corpus fin ml vocab
    = Ok (scan_data (fold_left (scan_line ml) fin (mkScan [] 0 (initial_vocab vocab))),
          v,
          scan_dropped (fold_left (scan_line ml) fin (mkScan [] 0 (initial_vocab vocab)))).
Proof.
  unfold _read_corpus.
  pose proof (wrappable_fold ml fin (mkScan [] 0 (initial_vocab vocab))
                (wrappable_initial vocab)) as W.
  destruct (the_vocab _) as [d|v]; [|now exists v].
  destruct W as [Hne Hunk]. unfold VocabEntry.__init__.
  destruct d as [|p d]; [congruence|].
  unfold Dict.getitem. unfold wget in Hunk.
  destruct (Dict.get String.eqb (p :: d) "<unk>") as [u|]; [|congruence].
  eexists. reflexivity.
Qed.

(** One line under a filter that is off. *)
Lemma scan_line_off ml st line :
  truth ml = false ->
  scan_line ml st line
  = if blank line
    then mkScan (scan_data st) (scan_dropped st + 1) (the_vocab st)
    else mkScan (scan_data st ++ [snd (scan_words (the_vocab st) (split line))])
                (scan_dropped st)
                (fst (scan_words (the_vocab st) (split line))).
Proof.
  intros T. unfold scan_line, blank. rewrite T. simpl.
  destruct (len (split line) <? 1) eqn:L.
  - apply len_zero_nil in L. now rewrite L.
  - destruct (split line) as [|w ws] eqn:S.
    + discriminate L.
    + now destruct (scan_words (the_vocab st) (w :: ws)).
Qed.

(** A scan with the length filter off drops the blank lines and appends
    one sequence per other line, with one id per token of the line. *)
Lemma scan_filter_off ml fin st :
  truth ml = false ->
  scan_dropped (fold_left (scan_line ml) fin st)
  = scan_dropped st + len (filter blank fin)
  /\ exists new,
       scan_data (fold_left (scan_line ml) fin st) = scan_data st ++ new
       /\ Forall2 (fun line ids => List.length ids = List.length (split line))
                  (filter (fun l => negb (blank l)) fin) new.
Proof.
  intros T. revert st. induction fin as [|line fin IH]; intros st; simpl.
  - split; [unfold len; simpl; lia|]. exists []. rewrite app_nil_r. now split.
  - destruct (IH (scan_line ml st line)) as (D & new & E & F). clear IH.
    rewrite D, E. rewrite (scan_line_off ml st line T).
    destruct (blank line); simpl.
    + split; [unfold len; simpl; lia|]. exists new. now split.
    + split; [reflexivity|].
      exists (snd (scan_words (the_vocab st) (split line)) :: new). split.
      * now rewrite <- app_assoc.
      * constructor; [|exact F]. apply scan_words_length.
Qed.

End ReadCorpusFacts.

(** ** Claims on corpus reading *)

Section ReadCorpusClaims.
Import MonoTextData.

Lemma app_singleton_neq (A : Type) (l : list A) (x : A) : l ++ [x] <> l.
Proof.
  intros H. apply (f_equal (@List.length A)) in H.
  rewrite length_app in H. simpl in H. lia.
Qed.

Lemma scan_line_cases ml st line :
  (drops ml st line /\ ~ accepts ml st line
   /\ (len (split line) = 0
       \/ exists m, ml = Some m /\ m <> 0 /\ len (split line) > m))
  \/ (accepts ml st line /\ ~ drops ml st line
      /\ len (split line) <> 0
      /\ forall m, ml = Some m -> m <> 0 -> len (split line) <= m).
Proof.
  unfold drops, accepts, scan_line.
  destruct (len (split line) <? 1) eqn:L.
  - left. simpl. split; [now split|]. split.
    + intros [H _]. lia.
    + left. apply Z.ltb_lt in L. pose proof (len_nonneg _ (split line)). lia.
  - apply Z.ltb_ge in L.
    destruct (truth ml && exceeds (len (split line)) ml) eqn:T.
    + left. simpl. split; [now split|]. split.
      * intros [H _]. lia.
      * right. apply andb_prop in T. destruct T as [T E].
        destruct ml as [m|]; [|discriminate]. simpl in T, E.
        exists m. split; [reflexivity|]. split.
        -- intros ->. discriminate.
        -- apply Z.gtb_lt in E. lia.
    + right. destruct (scan_words (the_vocab st) (split line)) as [sv ids].
      simpl. split; [now split|]. split; [|split].
      * intros [H _]. lia.
      * lia.
      * intros m -> M. simpl in T.
        destruct (m =? 0) eqn:Z0; [apply Z.eqb_eq in Z0; lia|]. simpl in T.
        rewrite Z.gtb_ltb in T. apply Z.ltb_ge in T. lia.
Qed.

(** C7 as stated fails for [max_length = 0]: the maximum is set and the
    one token of the line exceeds it, yet the line is not dropped. *)
Lemma max_length_zero_keeps_line :
  ~ (drops (Some 0) (mkScan [] 0 (initial_vocab None)) "a"
     <-> (len (split "a") = 0
          \/ exists m, Some 0 = Some m /\ len (split "a") > m)).
Proof.
  intros [_ H].
  assert (D : drops (Some 0) (mkScan [] 0 (initial_vocab None)) "a").
  { apply H. right. exists 0. split; [reflexivity|]. vm_compute. reflexivity. }
  destruct D as [D _]. vm_compute in D. discriminate D.
Qed.

(** C7, amended.  A line is dropped if and only if it has no token, or
    [max_length] is an integer other than zero and the number of tokens
    exceeds it; any other line is accepted, with one id per token.  A file
    of five lines, one of them blank, read with [max_length=None], gives
    four sequences and a count of one. *)
Theorem line_dropped_iff (ml : option Z) (st : scan) (line : string) :
  (drops ml st line
   <-> (len (split line) = 0
        \/ exists m, ml = Some m /\ m <> 0 /\ len (split line) > m))
  /\ (~ drops ml st line -> accepts ml st line)
  /\ List.length (snd (scan_words (the_vocab st) (split line)))
     = List.length (split line)
  /\ (forall fin vocab,
        List.length fin = 5%nat ->
        List.length (filter blank fin) = 1%nat ->
        exists seqs v,
          _read_corpus fin None vocab = Ok (seqs, v, 1)
          /\ len seqs = 4).
Proof.
  split; [|split; [|split]].
  - destruct (scan_line_cases ml st line) as [(D & _ & C)|(_ & D & N & C)].
    + tauto.
    + split; [tauto|]. intros [H|(m & E & M & H)]; [lia|].
      specialize (C m E M). lia.
  - destruct (scan_line_cases ml st line) as [(D & _)|(A & _)]; tauto.
  - apply scan_words_length.
  - intros fin vocab L5 B1.
    destruct (_read_corpus_returns fin None vocab) as [v E].
    destruct (scan_filter_off None fin (mkScan [] 0 (initial_vocab vocab)) eq_refl)
      as (D & new & S & F).
    rewrite D, S in E. simpl in E.
    exists new, v. split.
    + rewrite E. unfold len. rewrite B1. reflexivity.
    + apply Forall2_length in F. unfold len. rewrite <- F.
      pose proof (filter_length blank fin) as FL. lia.
Qed.

Lemma line_dropped_iff_witness :
  exists seqs v,
    _read_corpus ["a b"; "c"; ""; "d e f"; "a"] None None = Ok (seqs, v, 1)
    /\ len seqs = 4.
Proof.
  destruct (line_dropped_iff None (mkScan [] 0 (initial_vocab None)) "a")
    as (_ & _ & _ & H).
  apply H; reflexivity.
Defined.

(** C10.  With [max_length] equal to [None] or [0] the scan returns, its
    count is the number of blank lines, and every other line, whatever its
    number of tokens, gives one sequence with one id per token. *)
Theorem falsy_max_length_disables_filter
    (fin : list string) (vocab : option VocabEntry.t) (ml : option Z)
    (F : ml = None \/ ml = Some 0) :
  exists seqs v,
    _read_corpus fin ml vocab = Ok (seqs, v, len (filter blank fin))
    /\ Forall2 (fun line ids => List.length ids = List.length (split line))
               (filter (fun l => negb (blank l)) fin) seqs.
Proof.
  assert (T : truth ml = false) by (destruct F; subst; reflexivity).
  destruct (_read_corpus_returns fin ml vocab) as [v E].
  destruct (scan_filter_off ml fin (mkScan [] 0 (initial_vocab vocab)) T)
    as (D & new & S & FA).
  rewrite D, S in E. simpl in E.
  exists new, v. split; [exact E | exact FA].
Qed.

Lemma falsy_max_length_disables_filter_witness :
  exists seqs v,
    _read_corpus ["a b c d e"; ""; "f"] (Some 0) None = Ok (seqs, v, 1)
    /\ Forall2 (fun line ids => List.length ids = List.length (split line))
               ["a b c d e"; "f"] seqs.
Proof.
  exact (falsy_max_length_disables_filter ["a b c d e"; ""; "f"] None (Some 0)
           (or_intror eq_refl)).
Defined.

End ReadCorpusClaims.

(** ** Python sequences *)

Section SequenceFacts.

Lemma range_length lo hi : List.length (range lo hi) = Z.to_nat (hi - lo).
Proof. unfold range. now rewrite length_map, length_seq. Qed.

Lemma range_nth_error lo hi (k : nat) :
  (k < Z.to_nat (hi - lo))%nat ->
  nth_error (range lo hi) k = Some (lo + Z.of_nat k).
Proof.
  intros H. unfold range.
  rewrite nth_error_map, nth_error_seq.
  destruct (Nat.ltb_spec k (Z.to_nat (hi - lo))); [reflexivity | lia].
Qed.

Lemma range_In lo hi x : In x (range lo hi) <-> lo <= x < hi.
Proof.
  unfold range. rewrite in_map_iff. split.
  - intros (k & <- & H). apply in_seq in H. lia.
  - intros H. exists (Z.to_nat (x - lo)). split; [lia|]. apply in_seq. lia.
Qed.

Lemma range_empty lo hi : hi <= lo -> range lo hi = [].
Proof.
  intros H. unfold range. replace (Z.to_nat (hi - lo)) with 0%nat by lia.
  reflexivity.
Qed.

Lemma range_cons lo hi : lo < hi -> range lo hi = lo :: range (lo + 1) hi.
Proof.
  intros H. unfold range.
  replace (Z.to_nat (hi - lo)) with (S (Z.to_nat (hi - (lo + 1)))) by lia.
  simpl. f_equal; [lia|].
  rewrite <- seq_shift, map_map. apply map_ext. intros k. lia.
Qed.

Lemma seq_offset (a n : nat) : seq a n = map (fun k => (a + k)%nat) (seq 0 n).
Proof.
  induction n as [|n IH]; simpl; [reflexivity|].
  f_equal; [lia|].
  rewrite <- (seq_shift n a), <- (seq_shift n 0), IH, !map_map.
  apply map_ext. intros k. lia.
Qed.

Lemma range_split lo mid hi :
  lo <= mid <= hi -> range lo hi = range lo mid ++ range mid hi.
Proof.
  intros H. unfold range.
  replace (Z.to_nat (hi - lo))
    with (Z.to_nat (mid - lo) + Z.to_nat (hi - mid))%nat by lia.
  rewrite seq_app, map_app. f_equal. simpl.
  rewrite (seq_offset (Z.to_nat (mid - lo))), map_map.
  apply map_ext. intros k. lia.
Qed.

(** [max] of a non-empty list is one of its elements and bounds them. *)
Lemma fold_max_spec r x :
  In (fold_left Z.max r x) (x :: r)
  /\ forall y, In y (x :: r) -> y <= fold_left Z.max r x.
Proof.
  revert x. induction r as [|z r IH]; intros x; simpl.
  - split; [now left|]. intros y [->|[]]. lia.
  - destruct (IH (Z.max x z)) as [I B]. split.
    + destruct I as [I|I].
      * rewrite <- I.
        destruct (Z.max_spec x z) as [[_ E]|[_ E]]; rewrite E; simpl; auto.
      * simpl. auto.
    + intros y Hy.
      assert (Z.max x z <= fold_left Z.max r (Z.max x z)) by (apply B; now left).
      destruct Hy as [->|[->|Hy]]; [lia|lia|]. apply B. now right.
Qed.

Lemma py_max_spec l :
  l <> [] ->
  exists m, py_max l = Ok m /\ In m l /\ forall y, In y l -> y <= m.
Proof.
  destruct l as [|x r]; [congruence|]. intros _.
  exists (fold_left Z.max r x). split; [reflexivity|]. apply fold_max_spec.
Qed.

Lemma py_getitem_ok (A : Type) (l : list A) (i : Z) (x : A) :
  0 <= i -> nth_error l (Z.to_nat i) = Some x -> py_getitem l i = Ok x.
Proof.
  intros Hi H. unfold py_getitem.
  assert (Z.to_nat i < List.length l)%nat
    by (apply nth_error_Some; congruence).
  destruct (Z.ltb_spec i 0); [lia|].
  destruct (Z.leb_spec 0 i); [|lia].
  unfold len. destruct (Z.ltb_spec i (Z.of_nat (List.length l))); [|lia].
  simpl. now rewrite H.
Qed.

Lemma list_eqb_refl l : list_eqb l l = true.
Proof. induction l; simpl; [reflexivity|]. now rewrite Z.eqb_refl. Qed.

End SequenceFacts.

(** ** The vocabulary built while scanning *)

Section ScannedVocabulary.
Import MonoTextData.

Lemma range_NoDup lo hi : NoDup (range lo hi).
Proof.
  unfold range. apply Finite.Injective_map_NoDup; [|apply seq_NoDup].
  intros a b H. lia.
Qed.

Lemma range_snoc hi : 0 <= hi -> range 0 (hi + 1) = range 0 hi ++ [hi].
Proof.
  intros H. rewrite (range_split 0 hi (hi + 1)) by lia.
  rewrite (range_cons hi (hi + 1)) by lia.
  now rewrite (range_empty (hi + 1) (hi + 1)) by lia.
Qed.

Lemma dense_wset (d : word_dict) (w : string) :
  dense d -> wget d w = None -> dense (wset d w (Dict.len d)).
Proof.
  unfold dense, wset. intros D G. rewrite (set_absent _ _ String.eqb _ _ _ G).
  unfold Dict.len. rewrite map_app, length_app, D. simpl.
  rewrite Nat2Z.inj_add. apply eq_sym, range_snoc. lia.
Qed.

Lemma scanning_getitem sv w : scanning sv -> scanning (fst (scan_getitem sv w)).
Proof.
  intros (d & -> & D & U). simpl. destruct (wget d w) eqn:E; simpl.
  - now exists d.
  - exists (wset d w (Dict.len d)). split; [reflexivity|].
    split; [now apply dense_wset|].
    rewrite wget_wset. destruct (String.eqb_spec w "<unk>"); [congruence|exact U].
Qed.

Lemma scanning_words sv words : scanning sv -> scanning (fst (scan_words sv words)).
Proof.
  revert sv. induction words as [|w ws IH]; intros sv H; simpl; [exact H|].
  pose proof (scanning_getitem sv w H) as H1.
  destruct (scan_getitem sv w) as [sv1 i]. simpl in H1.
  specialize (IH sv1 H1). now destruct (scan_words sv1 ws).
Qed.

Lemma scanning_fold ml fin st :
  scanning (the_vocab st) -> scanning (the_vocab (fold_left (scan_line ml) fin st)).
Proof.
  revert st. induction fin as [|line fin IH]; intros st H; simpl; [exact H|].
  apply IH. unfold scan_line.
  destruct (len (split line) <? 1); [exact H|].
  destruct (truth ml && exceeds (len (split line)) ml); [exact H|].
  pose proof (scanning_words _ (split line) H) as H1.
  now destruct (scan_words (the_vocab st) (split line)).
Qed.

(** X10.  Read without a vocabulary, a corpus gets a vocabulary whose
    ids are [0 .. size - 1] without gaps, whose unknown id is 3, and in
    which every known token is resolved back from its id. *)
Lemma scanned_vocab_roundtrip fin ml seqs v n :
  _read_corpus fin ml None = Ok (seqs, v, n) ->
  VocabEntry.unk_id v = 3
  /\ (forall w, VocabEntry.__contains__ v w = true ->
                VocabEntry.id2word v (VocabEntry.__getitem__ v w) = Ok w)
  /\ (forall i, 0 <= i < VocabEntry.__len__ v ->
                exists w, VocabEntry.id2word v i = Ok w).
Proof.
  unfold _read_corpus.
  assert (S0 : scanning (the_vocab (mkScan [] 0 (initial_vocab None)))).
  { exists VocabEntry.reserved_word2id. repeat split. }
  pose proof (scanning_fold ml fin _ S0) as (d & E & D & U).
  rewrite E. unfold VocabEntry.__init__, Dict.getitem. unfold wget in U.
  destruct d as [|p d]; [discriminate U|]. rewrite U. intros [= _ <- _].
  set (dd := p :: d) in *.
  assert (N : NoDup (map snd dd)) by (rewrite D; apply range_NoDup).
  split; [reflexivity|]. split.
  - intros w. now apply constructed_roundtrip.
  - intros i Hi. unfold VocabEntry.__len__ in Hi. simpl in Hi.
    assert (I : In i (map snd dd)) by (rewrite D; now apply range_In).
    apply in_map_iff in I. destruct I as ([w i'] & Ei & I). simpl in Ei. subst i'.
    exists w. unfold VocabEntry.id2word, Dict.getitem. simpl.
    rewrite (invert_swap _ N).
    rewrite (In_get _ _ Z.eqb Z.eqb_eq _ i w); [reflexivity| |].
    + now rewrite map_map.
    + apply in_map_iff. now exists (w, i).
Qed.

End ScannedVocabulary.

(** ** The store *)

Section StoreFacts.
Import MonoTextData.

Lemma bind_ok (A B : Type) (m : M A) (k : A -> M B) st st1 a :
  m st = (st1, Ok a) -> bind m k st = k a st1.
Proof. unfold bind. now intros ->. Qed.

Lemma bind_raise (A B : Type) (m : M A) (k : A -> M B) st st1 e :
  m st = (st1, Raise e) -> bind m k st = (st1, Raise e).
Proof. unfold bind. now intros ->. Qed.

Lemma read_sent_run st l s : sent_at st l s -> read_sent l st = (st, Ok s).
Proof. unfold sent_at, read_sent. now intros ->. Qed.

Lemma read_sents_run st l ls :
  nth_error (objs st) l = Some (Sents ls) -> read_sents l st = (st, Ok ls).
Proof. unfold read_sents. now intros ->. Qed.

Lemma mapM_read_sent st ls sents :
  Forall2 (sent_at st) ls sents -> mapM read_sent ls st = (st, Ok sents).
Proof.
  induction 1 as [|l s ls sents H _ IH]; simpl; [reflexivity|].
  rewrite (bind_ok _ _ _ _ _ _ _ (read_sent_run st l s H)).
  now rewrite (bind_ok _ _ _ _ _ _ _ IH).
Qed.

Lemma sentences_run st lb ls sents :
  nth_error (objs st) lb = Some (Sents ls) ->
  Forall2 (sent_at st) ls sents ->
  sentences lb st = (st, Ok sents).
Proof.
  intros Hb Hs. unfold sentences.
  rewrite (bind_ok _ _ _ _ _ _ _ (read_sents_run st lb ls Hb)).
  now apply mapM_read_sent.
Qed.

(** [_to_tensor] reads the batch and pads its sentences; the state stays. *)
Lemma _to_tensor_run st lb ls sents batch_first :
  nth_error (objs st) lb = Some (Sents ls) ->
  Forall2 (sent_at st) ls sents ->
  _to_tensor lb batch_first st = (st, padded (vocab st) sents batch_first).
Proof.
  intros Hb Hs. unfold _to_tensor, self_vocab.
  unfold bind at 1.
  now rewrite (bind_ok _ _ _ _ _ _ _ (sentences_run st lb ls sents Hb Hs)).
Qed.

End StoreFacts.

(** ** Padding *)

(** On concrete symbols and sentences, [long_ids] is settled by
    evaluation. *)
Ltac long_ids_by_evaluation :=
  unfold MonoTextData.long_ids, int64; cbn;
  repeat split; try discriminate; repeat constructor; discriminate.

Section PaddingFacts.
Import MonoTextData.

Variable v : VocabEntry.t.

Let start : Z := VocabEntry.__getitem__ v "<s>".
Let stop : Z := VocabEntry.__getitem__ v "</s>".
Let pad : Z := VocabEntry.__getitem__ v "<pad>".

Lemma padded_cell s i :
  0 <= i ->
  (if len (s ++ [stop]) >? i then nth (Z.to_nat i) (s ++ [stop]) 0 else pad)
  = cell stop pad s (i + 1).
Proof.
  intros Hi. unfold cell, len. rewrite length_app. simpl.
  replace (i + 1 - 1) with i by lia.
  destruct (Z.leb_spec (i + 1) (Z.of_nat (List.length s))).
  - destruct (Z.gtb_spec (Z.of_nat (List.length s + 1)) i); [|lia].
    apply app_nth1. lia.
  - destruct (Z.eqb_spec (i + 1) (Z.of_nat (List.length s) + 1)).
    + destruct (Z.gtb_spec (Z.of_nat (List.length s + 1)) i); [|lia].
      rewrite app_nth2 by lia.
      replace (Z.to_nat i - List.length s)%nat with 0%nat by lia. reflexivity.
    + destruct (Z.gtb_spec (Z.of_nat (List.length s + 1)) i); [lia|reflexivity].
Qed.

Lemma int64_0 : int64 0.
Proof. unfold int64. split; [discriminate | reflexivity]. Qed.

Lemma torch_long_int64 x : int64 x -> torch_long x = true.
Proof.
  unfold int64, torch_long. intros [A B].
  apply andb_true_intro. split; [now apply Z.leb_le | now apply Z.ltb_lt].
Qed.

Lemma torch_long_inv x : torch_long x = true -> int64 x.
Proof.
  unfold int64, torch_long. intros T. apply andb_prop in T. destruct T as [A B].
  split; [now apply Z.leb_le | now apply Z.ltb_lt].
Qed.

(** [torch.tensor] takes rows of 64-bit integers as they are. *)
Lemma torch_tensor_ok data :
  Forall (Forall int64) data -> torch_tensor data = Ok data.
Proof.
  intros F. unfold torch_tensor.
  replace (forallb (forallb torch_long) data) with true; [reflexivity|].
  symmetry. apply forallb_forall. intros row Hr. apply forallb_forall.
  intros x Hx. apply torch_long_int64.
  rewrite Forall_forall in F. specialize (F row Hr).
  rewrite Forall_forall in F. now apply F.
Qed.

Lemma int64_nth l k : Forall int64 l -> int64 (nth k l 0).
Proof.
  intros F. destruct (nth_in_or_default k l 0) as [I | ->]; [|exact int64_0].
  rewrite Forall_forall in F. now apply F.
Qed.

(** The rows that [padded] hands to [torch.tensor] hold 64-bit integers
    when the symbols and the sentences do. *)
Lemma sents_new_long sents n (idx : list Z) :
  long_ids v sents ->
  Forall (Forall int64)
    ([py_repeat start n]
     ++ map (fun i =>
               map (fun sent =>
                      if len sent >? i then nth (Z.to_nat i) sent 0 else pad)
                   (map (fun sent => sent ++ [stop]) sents))
            idx).
Proof.
  intros (Hs & Ht & Hp & Hf). apply Forall_app. split.
  - constructor; [|constructor]. apply Forall_forall. intros x Hx.
    apply repeat_spec in Hx. now subst.
  - apply Forall_map, Forall_forall. intros i _.
    apply Forall_map, Forall_map, Forall_forall. intros s Hs'.
    destruct (len (s ++ [stop]) >? i); [|exact Hp].
    apply int64_nth. apply Forall_app. split.
    + rewrite Forall_forall in Hf. now apply Hf.
    + now constructor.
Qed.

(** The value of [padded] in the time-major layout. *)
Lemma padded_time_major sents :
  sents <> [] -> long_ids v sents ->
  exists L,
    In L (map (fun s => len s + 1) sents)
    /\ (forall s, In s sents -> len s + 1 <= L)
    /\ padded v sents false
       = Ok (py_repeat start (len sents)
               :: map (fun t => map (fun s => cell stop pad s t) sents) (range 1 (L + 1)),
             map (fun s => len s + 2) sents).
Proof.
  intros Hne Hl. unfold padded.
  destruct (py_max_spec (map (@len Z) (map (fun sent => sent ++ [stop]) sents)))
    as (L & E & I & B).
  { destruct sents; [congruence|discriminate]. }
  fold stop start pad. rewrite E, (torch_tensor_ok _ (sents_new_long _ _ _ Hl)).
  exists L.
  assert (LS : forall s : list Z, len (s ++ [stop]) = len s + 1).
  { intros s. unfold len. rewrite length_app. simpl. lia. }
  rewrite map_map in I, B.
  split; [|split].
  - rewrite <- (map_ext _ _ LS). exact I.
  - intros s Hs. rewrite <- LS. apply B.
    apply (in_map (fun x : list Z => len (x ++ [stop])) _ _ Hs).
  - f_equal. f_equal.
    + simpl. f_equal.
      * fold start. f_equal. unfold len. now rewrite !length_map.
      * unfold range. rewrite !map_map.
        replace (L + 1 - 1) with (L - 0) by lia.
        apply map_ext. intros k. rewrite map_map. apply map_ext. intros s.
        fold pad. rewrite padded_cell by lia. f_equal. lia.
    + rewrite !map_map. apply map_ext. intros s. rewrite LS. lia.
Qed.

End PaddingFacts.

(** ** Claim on padding *)

Section PaddingClaim.
Import MonoTextData.

Lemma cell_cases stop pad s t :
  (t <= len s -> cell stop pad s t = nth (Z.to_nat (t - 1)) s 0)
  /\ (t = len s + 1 -> cell stop pad s t = stop)
  /\ (len s + 1 < t -> cell stop pad s t = pad).
Proof.
  unfold cell.
  destruct (Z.leb_spec t (len s)); destruct (Z.eqb_spec t (len s + 1));
    repeat split; intros; try reflexivity; lia.
Qed.

(** C4 as stated fails at the batch of the one sentence [[2^63]]: the id
    is not a value of [torch.long], so [torch.tensor] refuses the rows and
    [_to_tensor] produces no structure. *)
Lemma to_tensor_refuses_2_63 :
  let st := new_corpus [[2 ^ 63]] VocabEntry.empty_vocab 0 in
  nth_error (objs st) 1 = Some (Sents [0%nat])
  /\ Forall2 (sent_at st) [0%nat] [[2 ^ 63]]
  /\ _to_tensor 1%nat false st = (st, Raise RuntimeError)
  /\ ~ exists rows lens, _to_tensor 1%nat false st = (st, Ok (rows, lens)).
Proof.
  intros st.
  assert (E : _to_tensor 1%nat false st = (st, Raise RuntimeError))
    by (vm_compute; reflexivity).
  split; [reflexivity|]. split; [repeat constructor|]. split; [exact E|].
  intros (rows & lens & H). rewrite E in H. discriminate.
Qed.

(** C4, amended.  On a non-empty batch whose ids, like the ids of the
    three symbols, are values of [torch.long], [_to_tensor] with
    [batch_first=False] returns, without changing the state, rows
    [0 .. L] of width [batch_size], where [L] is the largest length after
    the end symbol is appended.  Row 0 is the start id repeated
    [batch_size] times.  In row [t] from 1 to [L], column [i] holds the
    token of sentence [i] at offset [t - 1] when there is one, the end id
    at [t = len + 1], which is the reported length minus one, and the pad
    id below.  The reported length of a sentence is its number of tokens
    plus two. *)
Theorem to_tensor_time_major
    (st : state) (batch_data : loc) (ls : list loc) (sents : list (list Z))
    (Hb : nth_error (objs st) batch_data = Some (Sents ls))
    (Hs : Forall2 (sent_at st) ls sents)
    (Hne : sents <> [])
    (Hl : long_ids (vocab st) sents) :
  exists rows lens L,
    _to_tensor batch_data false st = (st, Ok (rows, lens))
    /\ In L (map (fun s => len s + 1) sents)
    /\ (forall s, In s sents -> len s + 1 <= L)
    /\ len rows = L + 1
    /\ Forall (fun row => len row = len sents) rows
    /\ nth_error rows 0
       = Some (py_repeat (VocabEntry.__getitem__ (vocab st) "<s>") (len sents))
    /\ lens = map (fun s => len s + 2) sents
    /\ forall (i : nat) (s : list Z),
         nth_error sents i = Some s ->
         nth_error lens i = Some (len s + 2)
         /\ forall t, 1 <= t <= L ->
              exists row x,
                nth_error rows (Z.to_nat t) = Some row
                /\ nth_error row i = Some x
                /\ (t <= len s -> x = nth (Z.to_nat (t - 1)) s 0)
                /\ (t = len s + 2 - 1 ->
                    x = VocabEntry.__getitem__ (vocab st) "</s>")
                /\ (len s + 1 < t ->
                    x = VocabEntry.__getitem__ (vocab st) "<pad>").
Proof.
  destruct (padded_time_major (vocab st) sents Hne Hl) as (L & I & B & E).
  set (stop := VocabEntry.__getitem__ (vocab st) "</s>") in *.
  set (pad := VocabEntry.__getitem__ (vocab st) "<pad>") in *.
  set (start := VocabEntry.__getitem__ (vocab st) "<s>") in *.
  eexists _, _, L. split.
  { rewrite (_to_tensor_run st batch_data ls sents false Hb Hs), E. reflexivity. }
  assert (L1 : 1 <= L).
  { apply in_map_iff in I. destruct I as (s & <- & _).
    pose proof (len_nonneg _ s). lia. }
  split; [exact I|]. split; [exact B|]. split; [|split; [|split; [|split]]].
  - unfold len. simpl. rewrite length_map, range_length. lia.
  - constructor.
    + unfold py_repeat, len. rewrite repeat_length. lia.
    + apply Forall_map. apply Forall_forall. intros t _.
      unfold len. now rewrite length_map.
  - reflexivity.
  - reflexivity.
  - intros i s Hi. split.
    + rewrite nth_error_map, Hi. reflexivity.
    + intros t Ht.
      exists (map (fun s0 => cell stop pad s0 t) sents), (cell stop pad s t).
      split; [|split].
      * replace (Z.to_nat t) with (S (Z.to_nat (t - 1))) by lia.
        cbn [nth_error].
        rewrite nth_error_map, range_nth_error by lia. cbn [option_map].
        replace (1 + Z.of_nat (Z.to_nat (t - 1))) with t by lia. reflexivity.
      * rewrite nth_error_map, Hi. reflexivity.
      * destruct (cell_cases stop pad s t) as (C1 & C2 & C3).
        split; [exact C1|]. split; [|exact C3]. intros T. apply C2. lia.
Qed.

Lemma to_tensor_time_major_witness :
  exists rows lens L,
    _to_tensor 2%nat false (new_corpus [[7; 8]; [9]] VocabEntry.empty_vocab 0)
    = (new_corpus [[7; 8]; [9]] VocabEntry.empty_vocab 0, Ok (rows, lens))
    /\ len rows = L + 1
    /\ lens = [4; 3].
Proof.
  destruct (to_tensor_time_major
              (new_corpus [[7; 8]; [9]] VocabEntry.empty_vocab 0) 2%nat
              [0%nat; 1%nat] [[7; 8]; [9]] eq_refl)
    as (rows & lens & L & E & _ & _ & R & _ & _ & N & _).
  - repeat constructor.
  - discriminate.
  - long_ids_by_evaluation.
  - exists rows, lens, L. split; [exact E|]. split; [exact R|exact N].
Defined.

End PaddingClaim.

(** ** Frame rules *)

Section FrameFacts.
Import MonoTextData.

Lemma stable_refl n st : stable n st st.
Proof. unfold stable. auto. Qed.

Lemma stable_trans n st1 st2 st3 :
  stable n st1 st2 -> stable n st2 st3 -> stable n st1 st3.
Proof.
  unfold stable. intros (D1 & V1 & R1 & F1 & L1) (D2 & V2 & R2 & F2 & L2).
  repeat split; try congruence. lia.
Qed.

Lemma safe_ret n (A : Type) (a : A) (Q : A -> Prop) : Q a -> safe n (ret a) Q.
Proof.
  intros H st _. simpl. split; [apply stable_refl|]. now intros ? [= <-].
Qed.

Lemma safe_lift n (A : Type) (r : result A) (Q : A -> Prop) :
  (forall a, r = Ok a -> Q a) -> safe n (lift r) Q.
Proof. intros H st _. simpl. split; [apply stable_refl | exact H]. Qed.

Lemma safe_raise n (A : Type) (e : exn) (Q : A -> Prop) : safe n (raise e) Q.
Proof. intros st _. simpl. split; [apply stable_refl | discriminate]. Qed.

Lemma safe_weaken n (A : Type) (m : M A) (P Q : A -> Prop) :
  safe n m P -> (forall a, P a -> Q a) -> safe n m Q.
Proof.
  intros H W st L. destruct (H st L) as [S R]. split; [exact S|]. auto.
Qed.

Lemma safe_bind n (A B : Type) (m : M A) (k : A -> M B)
    (P : A -> Prop) (Q : B -> Prop) :
  safe n m P -> (forall a, P a -> safe n (k a) Q) ->
  safe n (bind m k) Q.
Proof.
  intros Hm Hk st L. destruct (Hm st L) as [S R]. unfold bind.
  destruct (m st) as [st1 [a|e]]; simpl in *.
  - assert (L1 : (n <= List.length (objs st1))%nat)
      by (destruct S as (_ & _ & _ & _ & ?); lia).
    destruct (Hk a (R a eq_refl) st1 L1) as [S1 R1].
    split; [now apply stable_trans with st1 | exact R1].
  - split; [exact S | discriminate].
Qed.

Lemma safe_self_data n : safe n self_data (@any _).
Proof. intros st _. simpl. split; [apply stable_refl | now intros]. Qed.

Lemma safe_self_vocab n : safe n self_vocab (@any _).
Proof. intros st _. simpl. split; [apply stable_refl | now intros]. Qed.

Lemma safe_read_sent n l : safe n (read_sent l) (@any _).
Proof.
  intros st _. unfold read_sent.
  destruct (nth_error (objs st) l) as [[s|ls]|]; simpl;
    (split; [apply stable_refl | now intros]).
Qed.

Lemma safe_read_sents n l : safe n (read_sents l) (@any _).
Proof.
  intros st _. unfold read_sents.
  destruct (nth_error (objs st) l) as [[s|ls]|]; simpl;
    (split; [apply stable_refl | now intros]).
Qed.

(** A new object is placed after the first [n]. *)
Lemma safe_alloc n o : safe n (alloc o) (fun l => (n <= l)%nat).
Proof.
  intros st L. unfold alloc, stable. simpl. repeat split.
  - rewrite firstn_app. replace (n - List.length (objs st))%nat with 0%nat by lia.
    simpl. now rewrite app_nil_r.
  - rewrite length_app. lia.
  - now intros ? [= <-].
Qed.

Lemma length_update (A : Type) (h : list A) (l : nat) (o : A) :
  (l < List.length h)%nat ->
  List.length (firstn l h ++ o :: skipn (S l) h) = List.length h.
Proof.
  revert l. induction h as [|x h IH]; intros [|l] H; simpl in *; try lia.
  f_equal. apply IH. lia.
Qed.

(** An update after the first [n] objects keeps them. *)
Lemma safe_write n l o : (n <= l)%nat -> safe n (write l o) (@any _).
Proof.
  intros Hl st L. unfold write.
  destruct (Nat.ltb_spec l (List.length (objs st))); simpl.
  - unfold stable, set_objs. cbn [objs data vocab dropped fst snd].
    repeat split.
    + rewrite firstn_app, firstn_firstn, length_firstn.
      replace (Nat.min n l) with n by lia.
      replace (n - Nat.min l (List.length (objs st)))%nat with 0%nat by lia.
      simpl. now rewrite app_nil_r.
    + rewrite length_update by assumption. lia.
  - split; [apply stable_refl | discriminate].
Qed.

Lemma safe_shuffle `{Numpy} n a : safe n (shuffle_ a) (@any _).
Proof.
  intros st _. unfold shuffle_, stable. simpl. repeat split; auto.
Qed.

Lemma safe_mapM n (A B : Type) (f : A -> M B) (l : list A) :
  (forall x, safe n (f x) (@any _)) -> safe n (mapM f l) (@any _).
Proof.
  intros Hf. induction l as [|x r IH]; simpl.
  - now apply safe_ret.
  - apply safe_bind with (@any _); [apply Hf|]. intros y _.
    apply safe_bind with (@any _); [apply IH|]. intros ys _.
    now apply safe_ret.
Qed.

Lemma safe_foldM n (A B : Type) (f : A -> B -> M A) (l : list B) :
  (forall a x, safe n (f a x) (@any _)) ->
  forall a, safe n (foldM f a l) (@any _).
Proof.
  intros Hf. induction l as [|x r IH]; intros a; simpl.
  - now apply safe_ret.
  - apply safe_bind with (@any _); [apply Hf|]. intros a1 _. apply IH.
Qed.

End FrameFacts.

(** ** The batching methods keep the corpus *)

Section FrameOfMethods.
Import MonoTextData.
Context `{NP : Numpy}.

Ltac bind_any :=
  refine (safe_bind _ _ _ _ _ (@any _) _ _ _); [ | intros ? _ ].
Ltac done_any := first [ apply safe_ret; exact I | apply safe_raise
                       | apply safe_lift; intros; exact I ].

Lemma safe_len_self_data n : safe n len_self_data (@any _).
Proof.
  unfold len_self_data. bind_any; [apply safe_self_data|].
  bind_any; [apply safe_read_sents | done_any].
Qed.

Lemma safe_self_data_getitem n i : safe n (self_data_getitem i) (@any _).
Proof.
  unfold self_data_getitem. bind_any; [apply safe_self_data|].
  bind_any; [apply safe_read_sents | done_any].
Qed.

Lemma safe_append n l x : (n <= l)%nat -> safe n (append l x) (@any _).
Proof.
  intros H. unfold append. bind_any; [apply safe_read_sents|].
  now apply safe_write.
Qed.

Lemma safe_sort_neg_len n l : (n <= l)%nat -> safe n (sort_neg_len l) (@any _).
Proof.
  intros H. unfold sort_neg_len. bind_any; [apply safe_read_sents|].
  bind_any.
  - apply safe_mapM. intros e. bind_any; [apply safe_read_sent | done_any].
  - now apply safe_write.
Qed.

Lemma safe_sentences n l : safe n (sentences l) (@any _).
Proof.
  unfold sentences. bind_any; [apply safe_read_sents|].
  apply safe_mapM. intros e. apply safe_read_sent.
Qed.

Lemma safe__to_tensor n l batch_first : safe n (_to_tensor l batch_first) (@any _).
Proof.
  unfold _to_tensor. bind_any; [apply safe_self_vocab|].
  bind_any; [apply safe_sentences | done_any].
Qed.

Lemma safe_index_arr n (shuffle : bool) a :
  safe n (if shuffle then shuffle_ a else ret a) (@any _).
Proof. destruct shuffle; [apply safe_shuffle | done_any]. Qed.

(** The copy of the batch is a new list: sorting it in place leaves the
    list of the corpus as it is. *)
Lemma safe_sorted_batch n batch_ids batch_first :
  safe n (refs <- mapM self_data_getitem batch_ids ;;
          batch_data <- alloc (Sents refs) ;;
          sort_neg_len batch_data ;;;
          _to_tensor batch_data batch_first) (@any _).
Proof.
  bind_any; [apply safe_mapM; intros; apply safe_self_data_getitem|].
  refine (safe_bind _ _ _ _ _ (fun l => (n <= l)%nat) _ _ _); [apply safe_alloc|].
  intros l Hl. bind_any; [now apply safe_sort_neg_len|].
  apply safe__to_tensor.
Qed.

Lemma safe_data_iter n batch_size batch_first shuffle :
  safe n (data_iter batch_size batch_first shuffle) (@any _).
Proof.
  unfold data_iter. bind_any; [apply safe_len_self_data|].
  bind_any; [apply safe_index_arr|].
  bind_any; [done_any|].
  apply safe_mapM. intros i. apply safe_sorted_batch.
Qed.

Lemma safe_data_sample n nsample batch_first shuffle :
  safe n (data_sample nsample batch_first shuffle) (@any _).
Proof.
  unfold data_sample. bind_any; [apply safe_len_self_data|].
  bind_any; [apply safe_index_arr|].
  apply safe_sorted_batch.
Qed.

Lemma safe_assert n c : safe n (assert c) (@any _).
Proof. unfold assert. destruct c; done_any. Qed.

Lemma safe_while_curr n fuel batch_size batch_first sort_idx idx acc :
  safe n (while_curr fuel batch_size batch_first sort_idx idx acc) (@any _).
Proof.
  revert acc. induction fuel as [|fuel IH]; intros [[bl total] curr]; simpl;
    destruct (curr <? idx); try done_any.
  refine (safe_bind _ _ _ _ _ (fun l => (n <= l)%nat) _ _ _); [apply safe_alloc|].
  intros l Hl. bind_any.
  { apply safe_mapM. intros id_. bind_any; [done_any|].
    bind_any; [apply safe_self_data_getitem|]. now apply safe_append. }
  bind_any; [apply safe__to_tensor|].
  destruct a0 as [batch_ts sents_len].
  bind_any; [done_any|]. bind_any; [apply safe_assert|]. apply IH.
Qed.

Lemma safe_batches n batch_size batch_first :
  safe n (batches batch_size batch_first) (@any _).
Proof.
  unfold batches. bind_any; [apply safe_self_data|].
  bind_any; [apply safe_sentences|]. bind_any; [done_any|].
  bind_any.
  - apply safe_foldM. intros acc idx. apply safe_while_curr.
  - destruct a2 as [[bl total] curr]. done_any.
Qed.

Lemma safe_create_data_batch n batch_size batch_first :
  safe n (create_data_batch batch_size batch_first) (@any _).
Proof.
  unfold create_data_batch. bind_any; [apply safe_batches|].
  destruct a as [bl total].
  bind_any; [apply safe_len_self_data|].
  bind_any; [apply safe_assert | done_any].
Qed.

(** From [stable] on all the objects of a state to [kept]. *)
Lemma stable_kept st st' : stable (List.length (objs st)) st st' -> kept st st'.
Proof.
  intros (D & V & R & F & L). unfold kept. repeat split; try assumption.
  exists (skipn (List.length (objs st)) (objs st')).
  rewrite firstn_all in F.
  rewrite <- (firstn_skipn (List.length (objs st)) (objs st')) at 1.
  f_equal. exact F.
Qed.

Lemma safe_kept (A : Type) (m : M A) :
  (forall n, safe n m (@any _)) -> forall st, kept st (fst (m st)).
Proof.
  intros H st. apply stable_kept. now apply (H (List.length (objs st)) st).
Qed.

Lemma kept_refl st : kept st st.
Proof. unfold kept. repeat split. exists []. now rewrite app_nil_r. Qed.

Lemma kept_trans st1 st2 st3 : kept st1 st2 -> kept st2 st3 -> kept st1 st3.
Proof.
  intros (D1 & V1 & R1 & f1 & F1) (D2 & V2 & R2 & f2 & F2).
  unfold kept. repeat split; try congruence.
  exists (f1 ++ f2). now rewrite F2, F1, app_assoc.
Qed.

Lemma kept_nth_error st st' l o :
  kept st st' -> nth_error (objs st) l = Some o -> nth_error (objs st') l = Some o.
Proof.
  intros (_ & _ & _ & f & F) H. rewrite F, nth_error_app1; [exact H|].
  apply nth_error_Some. congruence.
Qed.

Lemma kept_holds st st' seqs : kept st st' -> holds st seqs -> holds st' seqs.
Proof.
  intros K (ls & Hd & Hs). exists ls. split.
  - pose proof K as (D & _). rewrite D. now apply kept_nth_error with st.
  - eapply Forall2_impl; [|exact Hs]. intros l s. unfold sent_at.
    now apply kept_nth_error.
Qed.

Lemma batching_call_kept st st' : batching_call st st' -> kept st st'.
Proof.
  intros [b bf sh s|b bf s|k bf sh s]; apply safe_kept; intros n.
  - apply safe_data_iter.
  - apply safe_create_data_batch.
  - apply safe_data_sample.
Qed.

End FrameOfMethods.

(** ** Claim on the frame of the batching methods *)

Section FrameClaim.
Import MonoTextData.

(** C9.  After any sequence of calls of [data_iter], [create_data_batch]
    and [data_sample], with any arguments and whether or not a call
    raises, the corpus holds the same sentences in the same order, its
    vocabulary is the same, and every list object that existed before is
    still in place with the same contents: the batching methods only add
    objects (the per-call copies that are sorted in place). *)
Theorem batching_keeps_corpus `{NP : Numpy}
    (st st' : state) (seqs : list (list Z))
    (Hc : batching_calls st st') (Hs : holds st seqs) :
  holds st' seqs
  /\ vocab st' = vocab st
  /\ data st' = data st
  /\ dropped st' = dropped st
  /\ forall l o, nth_error (objs st) l = Some o -> nth_error (objs st') l = Some o.
Proof.
  assert (K : kept st st').
  { clear Hs. induction Hc as [s|s1 s2 s3 C _ IH]; [apply kept_refl|].
    apply kept_trans with s2; [now apply batching_call_kept | exact IH]. }
  split; [now apply kept_holds with st|].
  pose proof K as (D & V & R & _).
  repeat split; try assumption.
  intros l o. now apply kept_nth_error.
Qed.

Lemma batching_keeps_corpus_witness :
  let st := new_corpus [[5; 6]; [7]] VocabEntry.empty_vocab 0 in
  let st1 := fst (@data_iter numpy_stable 1 false true st) in
  let st2 := fst (@create_data_batch numpy_stable 2 false st1) in
  let st3 := fst (@data_sample numpy_stable 5 true false st2) in
  holds st3 [[5; 6]; [7]] /\ vocab st3 = VocabEntry.empty_vocab.
Proof.
  intros st st1 st2 st3.
  assert (Hc : @batching_calls numpy_stable st st3).
  { apply calls_step with st1; [apply call_data_iter|].
    apply calls_step with st2; [apply call_create_data_batch|].
    apply calls_step with st3; [apply call_data_sample|].
    apply calls_none. }
  assert (Hs : holds st [[5; 6]; [7]]).
  { exists [0%nat; 1%nat]. split; [reflexivity|]. repeat constructor. }
  destruct (@batching_keeps_corpus numpy_stable st st3 [[5; 6]; [7]] Hc Hs)
    as (H & V & _).
  split; [exact H | exact V].
Defined.

End FrameClaim.

(** ** Running the length-bucketed batching *)

Section BatchesRun.
Import MonoTextData.

Lemma Forall2_nth_error (A B : Type) (R : A -> B -> Prop) l1 l2 k x :
  Forall2 R l1 l2 -> nth_error l1 k = Some x ->
  exists y, nth_error l2 k = Some y /\ R x y.
Proof.
  intros F. revert k. induction F as [|a b l1 l2 H _ IH]; intros [|k]; simpl;
    try discriminate.
  - intros [= <-]. now exists b.
  - apply IH.
Qed.

Lemma self_data_getitem_run st ls i :
  nth_error (objs st) (data st) = Some (Sents ls) ->
  self_data_getitem i st = (st, py_getitem ls i).
Proof.
  intros H. unfold self_data_getitem, self_data. unfold bind at 1.
  now rewrite (bind_ok _ _ _ _ _ _ _ (read_sents_run st _ ls H)).
Qed.

Lemma len_self_data_run st ls :
  nth_error (objs st) (data st) = Some (Sents ls) ->
  len_self_data st = (st, Ok (len ls)).
Proof.
  intros H. unfold len_self_data, self_data. unfold bind at 1.
  now rewrite (bind_ok _ _ _ _ _ _ _ (read_sents_run st _ ls H)).
Qed.

Lemma nth_error_last (A : Type) (h : list A) (x : A) :
  nth_error (h ++ [x]) (List.length h) = Some x.
Proof. rewrite nth_error_app2, Nat.sub_diag; [reflexivity | lia]. Qed.

Lemma update_last (A : Type) (h : list A) (x y : A) :
  firstn (List.length h) (h ++ [x]) ++ y :: skipn (S (List.length h)) (h ++ [x])
  = h ++ [y].
Proof.
  rewrite skipn_all2 by (rewrite length_app; simpl; lia).
  rewrite firstn_app, firstn_all, Nat.sub_diag. simpl. now rewrite app_nil_r.
Qed.

(** [batch_data.append(x)] on the newest object. *)
Lemma append_run st h acc x :
  objs st = h ++ [Sents acc] ->
  append (List.length h) x st
  = (set_objs (h ++ [Sents (acc ++ [x])]) st, Ok tt).
Proof.
  intros H. unfold append.
  assert (R : read_sents (List.length h) st = (st, Ok acc)).
  { apply read_sents_run. rewrite H. apply nth_error_last. }
  rewrite (bind_ok _ _ _ _ _ _ _ R). unfold write. rewrite H.
  destruct (Nat.ltb_spec (List.length h) (List.length (h ++ [Sents acc])))
    as [_|L]; [|rewrite length_app in L; simpl in L; lia].
  now rewrite update_last.
Qed.

End BatchesRun.

Section GatherRun.
Import MonoTextData.

Variables (v : VocabEntry.t) (d : loc) (ls : list loc) (seqs : list (list Z)).
Variable sort_idx : list Z.

Hypothesis sort_idx_valid : Forall (fun i => 0 <= i < len seqs) sort_idx.

(** The reference appended for the position [id_] of [sort_idx]. *)
Let pick (id_ : Z) : loc :=
  nth (Z.to_nat (nth (Z.to_nat id_) sort_idx 0)) ls 0%nat.

Lemma corpus_in_lengths st : corpus_in v d ls seqs st -> len ls = len seqs.
Proof.
  intros (_ & _ & _ & F). unfold len. now rewrite (Forall2_length F).
Qed.

Lemma sort_idx_nth id_ :
  0 <= id_ < len sort_idx ->
  py_getitem sort_idx id_ = Ok (nth (Z.to_nat id_) sort_idx 0)
  /\ 0 <= nth (Z.to_nat id_) sort_idx 0 < len seqs.
Proof.
  intros H. unfold len in H.
  assert (E : nth_error sort_idx (Z.to_nat id_)
              = Some (nth (Z.to_nat id_) sort_idx 0))
    by (apply nth_error_nth'; lia).
  split.
  - apply py_getitem_ok; [lia | exact E].
  - rewrite Forall_forall in sort_idx_valid. apply sort_idx_valid.
    eapply nth_error_In. exact E.
Qed.

(** The loop [for id_ in range(curr, next): batch_data.append(...)] on the
    newest object. *)
Lemma gather_run ids : forall st h acc,
  objs st = h ++ [Sents acc] ->
  data st = d ->
  nth_error h d = Some (Sents ls) ->
  len ls = len seqs ->
  Forall (fun id_ => 0 <= id_ < len sort_idx) ids ->
  mapM (fun id_ =>
          i <- lift (py_getitem sort_idx id_) ;;
          s <- self_data_getitem i ;;
          append (List.length h) s) ids st
  = (set_objs (h ++ [Sents (acc ++ map pick ids)]) st,
     Ok (map (fun _ => tt) ids)).
Proof.
  induction ids as [|id_ ids IH]; intros st h acc Ho Hd Hh Hl Hi; simpl.
  - rewrite app_nil_r. unfold ret, set_objs. rewrite <- Ho. now destruct st.
  - apply Forall_cons_iff in Hi. destruct Hi as [Hid Hids].
    destruct (sort_idx_nth id_ Hid) as [G B].
    set (i := nth (Z.to_nat id_) sort_idx 0) in *.
    assert (Hdata : nth_error (objs st) (data st) = Some (Sents ls)).
    { rewrite Ho, Hd, nth_error_app1; [exact Hh|].
      apply nth_error_Some. congruence. }
    assert (S1 : self_data_getitem i st = (st, Ok (pick id_))).
    { rewrite (self_data_getitem_run st ls i Hdata). f_equal.
      apply py_getitem_ok; [lia|]. apply nth_error_nth'.
      unfold len in *. lia. }
    unfold bind at 1. unfold bind at 1. unfold lift at 1. rewrite G.
    rewrite (bind_ok _ _ _ _ _ _ _ S1).
    rewrite (append_run st h acc (pick id_) Ho).
    rewrite (bind_ok _ _ _ _ _ _ _
               (IH (set_objs (h ++ [Sents (acc ++ [pick id_])]) st) h
                   (acc ++ [pick id_]) eq_refl Hd Hh Hl Hids)).
    unfold ret, set_objs. simpl. now rewrite <- app_assoc.
Qed.

(** The gathered references hold the sentences of the slice. *)
Lemma gathered_sentences st ids :
  Forall2 (sent_at st) ls seqs ->
  Forall (fun id_ => 0 <= id_ < len sort_idx) ids ->
  Forall2 (sent_at st) (map pick ids)
          (map (fun id_ => sentence_at seqs (nth (Z.to_nat id_) sort_idx 0)) ids).
Proof.
  intros F Hi. induction Hi as [|id_ ids Hid _ IH]; simpl; constructor;
    [|exact IH].
  destruct (sort_idx_nth id_ Hid) as [_ B].
  set (i := nth (Z.to_nat id_) sort_idx 0) in *.
  assert (L : (Z.to_nat i < List.length ls)%nat).
  { rewrite (Forall2_length F). unfold len in B. lia. }
  destruct (Forall2_nth_error _ _ _ _ _ (Z.to_nat i) (pick id_) F) as (s & Es & R).
  { apply nth_error_nth'. exact L. }
  unfold sentence_at. now rewrite (nth_error_nth _ _ _ Es).
Qed.

End GatherRun.

Section UniformBatches.
Import MonoTextData.

(** Sentences taken from sentences of 64-bit ids have 64-bit ids. *)
Lemma long_ids_sub v sents sents' :
  long_ids v sents ->
  (forall s, In s sents' -> In s sents \/ s = []) ->
  long_ids v sents'.
Proof.
  intros (A & B & C & F) H.
  split; [exact A | split; [exact B | split; [exact C|]]].
  apply Forall_forall. intros s Hs. destruct (H s Hs) as [I | ->].
  - rewrite Forall_forall in F. now apply F.
  - constructor.
Qed.

Lemma long_ids_sentences v seqs (ids : list Z) :
  long_ids v seqs -> long_ids v (map (sentence_at seqs) ids).
Proof.
  intros H. apply (long_ids_sub v seqs _ H). intros s Hs.
  apply in_map_iff in Hs. destruct Hs as (i & <- & _). unfold sentence_at.
  destruct (nth_in_or_default (Z.to_nat i) seqs []) as [I | E]; auto.
Qed.

Lemma long_ids_slice_of v sort_idx seqs curr next :
  long_ids v seqs -> long_ids v (slice_of sort_idx seqs curr next).
Proof.
  intros H. unfold slice_of.
  rewrite <- (map_map (fun id_ => nth (Z.to_nat id_) sort_idx 0) (sentence_at seqs)).
  now apply long_ids_sentences.
Qed.

Lemma long_ids_perm v sents sents' :
  Permutation sents' sents -> long_ids v sents -> long_ids v sents'.
Proof.
  intros P H. apply (long_ids_sub v sents _ H). intros s Hs. left.
  now apply (Permutation_in s P).
Qed.

(** On a non-empty batch [padded] returns, with the lengths plus two, or
    [torch.tensor] refuses the rows with [RuntimeError], which it only
    does when some id is not a value of [torch.long]. *)
Lemma padded_cases v g batch_first :
  g <> [] ->
  (padded v g batch_first = Raise RuntimeError /\ ~ long_ids v g)
  \/ exists t, padded v g batch_first = Ok (t, map (fun s => len s + 2) g).
Proof.
  intros Hne. unfold padded.
  destruct (py_max_spec
              (map (@len Z)
                   (map (fun sent => sent ++ [VocabEntry.__getitem__ v "</s>"]) g)))
    as (L & E & _).
  { destruct g; [congruence|discriminate]. }
  rewrite E.
  match goal with |- context [torch_tensor ?rows] =>
    destruct (torch_tensor rows) as [ts|e] eqn:T
  end.
  - right. eexists. f_equal. f_equal.
    rewrite !map_map. apply map_ext. intros s.
    unfold len. rewrite length_app. simpl. lia.
  - left. unfold torch_tensor in T.
    match type of T with context [forallb ?f ?l] =>
      destruct (forallb f l) eqn:B; [discriminate|]
    end.
    injection T as <-. split; [reflexivity|]. intros Hl.
    pose proof (torch_tensor_ok _ (sents_new_long v g (len (map (@len Z)
                  (map (fun sent => sent ++ [VocabEntry.__getitem__ v "</s>"]) g)))
                  (range 0 L) Hl)) as O.
    unfold torch_tensor in O. rewrite B in O. discriminate.
Qed.

(** The lengths [padded] reports, in either layout. *)
Lemma padded_lens v g batch_first :
  g <> [] -> long_ids v g ->
  exists t, padded v g batch_first = Ok (t, map (fun s => len s + 2) g).
Proof.
  intros Hne Hl.
  destruct (padded_cases v g batch_first Hne) as [[_ N] | H];
    [contradiction | exact H].
Qed.

Lemma len_py_repeat (A : Type) (x : A) (n : Z) : 0 <= n -> len (py_repeat x n) = n.
Proof. intros H. unfold len, py_repeat. rewrite repeat_length. lia. Qed.

Lemma uniform_lens g n :
  Forall (fun s : list Z => len s = n) g ->
  map (fun s => len s + 2) g = py_repeat (n + 2) (len g).
Proof.
  unfold py_repeat, len. rewrite Nat2Z.id.
  induction 1 as [|s g Hs _ IH]; simpl; [reflexivity|].
  rewrite IH. f_equal. unfold len in Hs. lia.
Qed.

(** A group of sentences of one length gives a batch of one length, and
    the check of line 196 passes on it, unless [torch.tensor] refuses
    it. *)
Lemma uniform_padded v g n batch_first :
  g <> [] ->
  Forall (fun s : list Z => len s = n) g ->
  (padded v g batch_first = Raise RuntimeError /\ ~ long_ids v g)
  \/ exists t,
       padded v g batch_first = Ok (t, py_repeat (n + 2) (len g))
       /\ py_getitem (py_repeat (n + 2) (len g)) 0 = Ok (n + 2)
       /\ list_eqb (py_repeat (n + 2) (len g))
                   (py_repeat (n + 2) (len (py_repeat (n + 2) (len g)))) = true.
Proof.
  intros Hne U.
  destruct (padded_cases v g batch_first Hne) as [R | [t E]]; [now left|].
  right.
  rewrite (uniform_lens g n U) in E. exists t. split; [exact E|]. split.
  - apply py_getitem_ok; [lia|]. unfold py_repeat, len. rewrite Nat2Z.id.
    destruct g; [congruence|]. reflexivity.
  - rewrite len_py_repeat by apply len_nonneg. apply list_eqb_refl.
Qed.

End UniformBatches.

Section WhileRun.
Import MonoTextData.

Variables (v : VocabEntry.t) (d : loc) (ls : list loc) (seqs : list (list Z)).
Variable sort_idx : list Z.
Variables (batch_size : Z) (batch_first : bool).

Hypothesis sort_idx_valid : Forall (fun i => 0 <= i < len seqs) sort_idx.
Hypothesis batch_size_pos : 1 <= batch_size.

Lemma corpus_in_kept st st' :
  kept st st' -> corpus_in v d ls seqs st -> corpus_in v d ls seqs st'.
Proof.
  intros K (D & V & O & F). pose proof K as (D' & V' & _).
  unfold corpus_in. repeat split; try congruence.
  - now apply kept_nth_error with st.
  - eapply Forall2_impl; [|exact F]. intros l s. unfold sent_at.
    now apply kept_nth_error.
Qed.

Lemma same_length_run_all curr idx :
  same_length_run sort_idx seqs curr idx ->
  forall i, curr <= i < idx ->
    len (sentence_at seqs (nth (Z.to_nat i) sort_idx 0))
    = len (sentence_at seqs (nth (Z.to_nat curr) sort_idx 0)).
Proof.
  intros U i Hi.
  assert (G : forall k : nat, curr + Z.of_nat k < idx ->
            len (sentence_at seqs (nth (Z.to_nat (curr + Z.of_nat k)) sort_idx 0))
            = len (sentence_at seqs (nth (Z.to_nat curr) sort_idx 0))).
  { induction k as [|k IH]; intros Hk.
    - now replace (curr + Z.of_nat 0) with curr by lia.
    - rewrite (U (curr + Z.of_nat (S k))) by lia.
      replace (curr + Z.of_nat (S k) - 1) with (curr + Z.of_nat k) by lia.
      apply IH. lia. }
  replace i with (curr + Z.of_nat (Z.to_nat (i - curr))) by lia.
  apply G. lia.
Qed.

Lemma while_curr_unfold fuel idx bl total curr :
  while_curr (S fuel) batch_size batch_first sort_idx idx (bl, total, curr)
  = if curr <? idx then
      batch_data <- alloc (Sents []) ;;
      mapM (fun id_ =>
              i <- lift (py_getitem sort_idx id_) ;;
              s <- self_data_getitem i ;;
              append batch_data s)
           (range curr (Z.min (curr + batch_size) idx)) ;;;
      ' (batch_ts, sents_len) <- _to_tensor batch_data batch_first ;;
      first <- lift (py_getitem sents_len 0) ;;
      assert (list_eqb sents_len (py_repeat first (len sents_len))) ;;;
      while_curr fuel batch_size batch_first sort_idx idx
                 (bl ++ [batch_ts], total + size0 batch_ts,
                  Z.min (curr + batch_size) idx)
    else ret (bl, total, curr).
Proof. reflexivity. Qed.

(** One turn of the loop: the batch made of the positions [curr] to
    [next - 1], unless [torch.tensor] refuses it. *)
Lemma turn_run (X : Type) (K : tensor -> M X) st curr idx :
  corpus_in v d ls seqs st ->
  0 <= curr < idx -> idx <= len sort_idx ->
  same_length_run sort_idx seqs curr idx ->
  let next := Z.min (curr + batch_size) idx in
  (exists st',
     (batch_data <- alloc (Sents []) ;;
      mapM (fun id_ =>
              i <- lift (py_getitem sort_idx id_) ;;
              s <- self_data_getitem i ;;
              append batch_data s)
           (range curr next) ;;;
      ' (batch_ts, sents_len) <- _to_tensor batch_data batch_first ;;
      first <- lift (py_getitem sents_len 0) ;;
      assert (list_eqb sents_len (py_repeat first (len sents_len))) ;;;
      K batch_ts) st
     = (st', Raise RuntimeError)
     /\ ~ long_ids v seqs)
  \/ exists st' t,
       (batch_data <- alloc (Sents []) ;;
        mapM (fun id_ =>
                i <- lift (py_getitem sort_idx id_) ;;
                s <- self_data_getitem i ;;
                append batch_data s)
             (range curr next) ;;;
        ' (batch_ts, sents_len) <- _to_tensor batch_data batch_first ;;
        first <- lift (py_getitem sents_len 0) ;;
        assert (list_eqb sents_len (py_repeat first (len sents_len))) ;;;
        K batch_ts) st
       = K t st'
       /\ kept st st'
       /\ one_length_batch v batch_first (slice_of sort_idx seqs curr next) t.
Proof.
  intros C Hc Hi U next.
  pose proof C as (D & V & O & F).
  set (ids := range curr next).
  set (pick := fun id_ : Z =>
                 nth (Z.to_nat (nth (Z.to_nat id_) sort_idx 0)) ls 0%nat).
  set (st1 := set_objs (objs st ++ [Sents []]) st).
  set (st2 := set_objs (objs st ++ [Sents (map pick ids)]) st1).
  assert (Hids : Forall (fun id_ => 0 <= id_ < len sort_idx) ids).
  { apply Forall_forall. intros x Hx. apply range_In in Hx. unfold next in Hx. lia. }
  assert (K2 : kept st st2).
  { unfold kept. repeat split. now exists [Sents (map pick ids)]. }
  pose proof (corpus_in_kept st st2 K2 C) as (_ & V2 & _ & F2).
  assert (Hne : slice_of sort_idx seqs curr next <> []).
  { unfold slice_of. rewrite (range_cons curr next) by (unfold next; lia).
    discriminate. }
  assert (HU : Forall (fun s : list Z =>
                         len s = len (sentence_at seqs (nth (Z.to_nat curr) sort_idx 0)))
                      (slice_of sort_idx seqs curr next)).
  { unfold slice_of. apply Forall_map, Forall_forall. intros x Hx.
    apply range_In in Hx. apply (same_length_run_all curr idx U).
    unfold next in Hx. lia. }
  assert (A : alloc (Sents []) st = (st1, Ok (List.length (objs st))))
    by reflexivity.
  assert (TR : _to_tensor (List.length (objs st)) batch_first st2
               = (st2, padded v (slice_of sort_idx seqs curr next) batch_first)).
  { rewrite (_to_tensor_run st2 _ (map pick ids)
               (slice_of sort_idx seqs curr next) batch_first).
    - now rewrite V2.
    - apply nth_error_last.
    - apply (gathered_sentences ls seqs sort_idx sort_idx_valid st2 ids F2 Hids). }
  destruct (uniform_padded v _ _ batch_first Hne HU)
    as [[P N] | (t & P & G0 & EQ)].
  { left. exists st2. split.
    - rewrite (bind_ok _ _ _ _ _ _ _ A).
      rewrite (bind_ok _ _ _ _ _ _ _
                 (gather_run d ls seqs sort_idx sort_idx_valid ids st1 (objs st) []
                    eq_refl D O (corpus_in_lengths v d ls seqs st C) Hids)).
      rewrite P in TR. now rewrite (bind_raise _ _ _ _ _ _ _ TR).
    - intros Hl. apply N. now apply long_ids_slice_of. }
  right. exists st2, t. split; [|split].
  - rewrite (bind_ok _ _ _ _ _ _ _ A).
    rewrite (bind_ok _ _ _ _ _ _ _
               (gather_run d ls seqs sort_idx sort_idx_valid ids st1 (objs st) []
                  eq_refl D O (corpus_in_lengths v d ls seqs st C) Hids)).
    assert (T : _to_tensor (List.length (objs st)) batch_first st2
                = (st2, Ok (t, py_repeat
                                 (len (sentence_at seqs (nth (Z.to_nat curr) sort_idx 0)) + 2)
                                 (len (slice_of sort_idx seqs curr next))))).
    { rewrite (_to_tensor_run st2 _ (map pick ids)
                 (slice_of sort_idx seqs curr next) batch_first).
      - rewrite V2, P. reflexivity.
      - apply nth_error_last.
      - apply (gathered_sentences ls seqs sort_idx sort_idx_valid st2 ids F2 Hids). }
    rewrite (bind_ok _ _ _ _ _ _ _ T).
    unfold lift at 1. unfold bind at 1. rewrite G0.
    unfold bind at 1. rewrite EQ. reflexivity.
  - exact K2.
  - split; [exact Hne|]. eexists. split; [exact HU | exact P].
Qed.

(** The loop from [curr] to [idx] returns, unless [torch.tensor] refuses
    a batch; its batches are the paddings of groups of one length that
    make up positions [curr] to [idx - 1]. *)
Lemma while_curr_run idx fuel : forall curr bl total st,
  corpus_in v d ls seqs st ->
  0 <= curr <= idx -> idx <= len sort_idx ->
  same_length_run sort_idx seqs curr idx ->
  (Z.to_nat (idx - curr) <= fuel)%nat ->
  (exists st',
     while_curr fuel batch_size batch_first sort_idx idx (bl, total, curr) st
     = (st', Raise RuntimeError)
     /\ ~ long_ids v seqs)
  \/ exists st' groups new total',
       while_curr fuel batch_size batch_first sort_idx idx (bl, total, curr) st
       = (st', Ok (bl ++ new, total', idx))
       /\ kept st st'
       /\ Forall2 (one_length_batch v batch_first) groups new
       /\ List.concat groups = slice_of sort_idx seqs curr idx
       /\ total' = total + sum_size0 new
       /\ Forall (fun g => len g <= batch_size) groups.
Proof.
  induction fuel as [|fuel IH]; intros curr bl total st C Hc Hi U Hf.
  - assert (curr = idx) by lia. subst curr. right.
    exists st, [], [], total. simpl. rewrite Z.ltb_irrefl, app_nil_r.
    repeat split; try apply kept_refl; try lia; [constructor| |constructor].
    unfold slice_of. now rewrite range_empty by lia.
  - rewrite while_curr_unfold.
    destruct (Z.ltb_spec curr idx) as [Lt|Ge].
    + set (next := Z.min (curr + batch_size) idx).
      destruct (turn_run _
                  (fun batch_ts =>
                     while_curr fuel batch_size batch_first sort_idx idx
                       (bl ++ [batch_ts], total + size0 batch_ts, next))
                  st curr idx C (conj (proj1 Hc) Lt) Hi U)
        as [(st1 & E & N) | (st1 & t & E & K1 & B)].
      { fold next in E. rewrite E. left. exists st1. now split. }
      fold next in E, B. rewrite E.
      destruct (IH next (bl ++ [t]) (total + size0 t) st1)
        as [(st2 & E2 & N2)
           | (st2 & groups & new & total2 & E2 & K2 & F2 & G2 & T2 & S2)].
      * now apply corpus_in_kept with st.
      * unfold next. lia.
      * exact Hi.
      * intros i Hi'. apply U. unfold next in Hi'. lia.
      * unfold next. lia.
      * left. exists st2. now split.
      * right.
        exists st2, (slice_of sort_idx seqs curr next :: groups), (t :: new), total2.
        split; [|split; [|split; [|split; [|split]]]].
        -- rewrite E2. now rewrite <- app_assoc.
        -- now apply kept_trans with st1.
        -- now constructor.
        -- simpl. rewrite G2. unfold slice_of. rewrite <- map_app.
           rewrite <- (range_split curr next idx); [reflexivity|].
           unfold next. lia.
        -- rewrite T2. cbn [sum_size0 fold_right]. fold (sum_size0 new). lia.
        -- constructor; [|exact S2].
           unfold slice_of, len. rewrite length_map, range_length.
           unfold next. lia.
    + assert (curr = idx) by lia. subst curr. right.
      exists st, [], [], total. simpl. rewrite app_nil_r.
      repeat split; try apply kept_refl; try lia; [constructor| |constructor].
      unfold slice_of. now rewrite range_empty by lia.
Qed.

End WhileRun.

Section FoldRun.
Import MonoTextData.

Variables (v : VocabEntry.t) (d : loc) (ls : list loc) (seqs : list (list Z)).
Variable sort_idx : list Z.
Variables (batch_size : Z) (batch_first : bool).

Hypothesis sort_idx_valid : Forall (fun i => 0 <= i < len seqs) sort_idx.
Hypothesis batch_size_pos : 1 <= batch_size.

Lemma last_indep (A : Type) (l : list A) (x y : A) :
  l <> [] -> last l x = last l y.
Proof.
  induction l as [|a l IH]; [congruence|]. intros _.
  destruct l as [|b l]; [reflexivity|].
  change (last (b :: l) x = last (b :: l) y). apply IH. discriminate.
Qed.

Lemma last_cons (A : Type) (a : A) (l : list A) (x : A) :
  last (a :: l) x = last l a.
Proof.
  destruct l as [|b l]; [reflexivity|].
  change (last (b :: l) x = last (b :: l) a). apply last_indep. discriminate.
Qed.

Lemma sum_size0_app (a b : list tensor) :
  sum_size0 (a ++ b) = sum_size0 a + sum_size0 b.
Proof.
  induction a as [|t a IH]; simpl; [reflexivity|]. rewrite IH. lia.
Qed.

(** The loop over the change locations. *)
Lemma fold_while_run cl : forall curr bl total st,
  corpus_in v d ls seqs st ->
  0 <= curr ->
  change_runs sort_idx seqs (len sort_idx) curr cl ->
  (exists st',
     foldM (fun acc idx =>
              while_curr (Z.to_nat idx) batch_size batch_first sort_idx idx acc)
           (bl, total, curr) cl st
     = (st', Raise RuntimeError)
     /\ ~ long_ids v seqs)
  \/ exists st' groups new total',
       foldM (fun acc idx =>
                while_curr (Z.to_nat idx) batch_size batch_first sort_idx idx acc)
             (bl, total, curr) cl st
       = (st', Ok (bl ++ new, total', last cl curr))
       /\ kept st st'
       /\ Forall2 (one_length_batch v batch_first) groups new
       /\ List.concat groups = slice_of sort_idx seqs curr (last cl curr)
       /\ curr <= last cl curr
       /\ total' = total + sum_size0 new
       /\ Forall (fun g => len g <= batch_size) groups.
Proof.
  induction cl as [|idx cl IH]; intros curr bl total st C Hc R.
  - right. exists st, [], [], total. simpl. rewrite app_nil_r.
    repeat split; try apply kept_refl; try constructor; try lia.
    unfold slice_of. now rewrite range_empty by lia.
  - destruct R as (Hi & U & R).
    assert (Hf : (Z.to_nat (idx - curr) <= Z.to_nat idx)%nat) by lia.
    destruct (while_curr_run v d ls seqs sort_idx batch_size batch_first
                sort_idx_valid batch_size_pos idx (Z.to_nat idx)
                curr bl total st C (conj Hc (proj1 Hi)) (proj2 Hi) U Hf)
      as [(st1 & E1 & N1)
         | (st1 & g1 & n1 & t1 & E1 & K1 & F1 & G1 & T1 & S1)].
    { left. exists st1. cbn [foldM].
      now rewrite (bind_raise _ _ _ _ _ _ _ E1). }
    destruct (IH idx (bl ++ n1) t1 st1)
      as [(st2 & E2 & N2)
         | (st2 & g2 & n2 & t2 & E2 & K2 & F2 & G2 & L2 & T2 & S2)];
      [now apply (corpus_in_kept v d ls seqs st st1) | lia | exact R | |].
    { left. exists st2. cbn [foldM].
      now rewrite (bind_ok _ _ _ _ _ _ _ E1). }
    pose proof (last_cons Z idx cl curr) as La.
    right. exists st2, (g1 ++ g2), (n1 ++ n2), t2.
    split; [|split; [|split; [|split; [|split; [|split]]]]].
    + cbn [foldM]. rewrite (bind_ok _ _ _ _ _ _ _ E1), E2, La.
      now rewrite <- app_assoc.
    + now apply kept_trans with st1.
    + now apply Forall2_app.
    + rewrite concat_app, G1, G2, La. unfold slice_of. rewrite <- map_app.
      rewrite <- (range_split curr idx (last cl idx)); [reflexivity | lia].
    + rewrite La. lia.
    + rewrite T2, T1, sum_size0_app. lia.
    + apply Forall_app. now split.
Qed.

End FoldRun.

Section ChangeLocations.
Import MonoTextData.

Variable seqs : list (list Z).
Variable sort_idx : list Z.
Hypothesis sort_idx_valid : Forall (fun i => 0 <= i < len seqs) sort_idx.

(** [sents_len[sort_idx]] *)
Let sort_len : list Z := map (fun i => len (sentence_at seqs i)) sort_idx.

Lemma nth_sents_len i :
  nth (Z.to_nat i) (map (@len Z) seqs) 0 = len (sentence_at seqs i).
Proof. unfold sentence_at. apply (map_nth (@len Z) seqs []). Qed.

Lemma take_at_lens idx :
  Forall (fun i => 0 <= i < len seqs) idx ->
  take_at (map (@len Z) seqs) idx
  = Ok (map (fun i => len (sentence_at seqs i)) idx).
Proof.
  induction 1 as [|i r Hi _ IH]; [reflexivity|].
  cbn [take_at map]. rewrite IH.
  assert (G : py_getitem (map (@len Z) seqs) i = Ok (len (sentence_at seqs i))).
  { apply py_getitem_ok; [lia|].
    rewrite <- nth_sents_len. apply nth_error_nth'.
    rewrite length_map. unfold len in Hi. lia. }
  now rewrite G.
Qed.

Lemma take_at_sents_len : take_at (map (@len Z) seqs) sort_idx = Ok sort_len.
Proof. apply take_at_lens, sort_idx_valid. Qed.

Lemma nth_sort_len i :
  0 <= i < len sort_idx ->
  nth (Z.to_nat i) sort_len 0
  = len (sentence_at seqs (nth (Z.to_nat i) sort_idx 0)).
Proof.
  intros H. unfold sort_len.
  rewrite (nth_indep _ 0 (len (sentence_at seqs 0))).
  - apply (map_nth (fun i => len (sentence_at seqs i))).
  - rewrite length_map. unfold len in H. lia.
Qed.

Lemma len_sort_len : len sort_len = len sort_idx.
Proof. unfold sort_len, len. now rewrite length_map. Qed.

(** The locations kept by the filter cut [sort_idx] into runs of one
    length. *)
Lemma change_runs_from (k : nat) : forall a curr,
  Z.to_nat (len sort_idx - a) = k ->
  0 <= curr < a -> a <= len sort_idx ->
  (forall i, curr < i < a ->
     len (sentence_at seqs (nth (Z.to_nat i) sort_idx 0))
     = len (sentence_at seqs (nth (Z.to_nat (i - 1)) sort_idx 0))) ->
  change_runs sort_idx seqs (len sort_idx) curr
    (filter (fun i => negb (nth (Z.to_nat i) sort_len 0
                            =? nth (Z.to_nat (i - 1)) sort_len 0))
            (range a (len sort_idx))
     ++ [len sort_idx]).
Proof.
  induction k as [|k IH]; intros a curr Hk Hc Ha U.
  - assert (a = len sort_idx) by lia. subst a.
    rewrite range_empty by lia. simpl. repeat split; try lia. exact U.
  - rewrite range_cons by lia. cbn [filter].
    destruct (Z.eqb_spec (nth (Z.to_nat a) sort_len 0)
                         (nth (Z.to_nat (a - 1)) sort_len 0)) as [E|E];
      cbn [negb].
    + apply IH; try lia. intros i Hi.
      destruct (Z.eq_dec i a) as [->|N]; [|apply U; lia].
      rewrite <- !nth_sort_len by lia. exact E.
    + cbn [app change_runs]. split; [lia|]. split; [exact U|].
      apply IH; lia.
Qed.

Lemma change_loc_runs :
  change_runs sort_idx seqs (len sort_idx) 0 (change_loc_of sort_len)
  /\ last (change_loc_of sort_len) 0 = len sort_idx.
Proof.
  unfold change_loc_of. rewrite len_sort_len. split.
  - destruct (Z.eq_dec (len sort_idx) 0) as [E|N].
    + rewrite E, range_empty by lia. simpl. repeat split; try lia.
      intros i Hi; lia.
    + pose proof (len_nonneg _ sort_idx).
      apply (change_runs_from (Z.to_nat (len sort_idx - 1))); lia.
  - now rewrite last_last.
Qed.

End ChangeLocations.

Section BatchesSpec.
Import MonoTextData.
Context `{NS : NumpySpec}.

Lemma map_nth_range (A : Type) (l : list A) (d : A) :
  map (fun i => nth (Z.to_nat i) l d) (range 0 (len l)) = l.
Proof.
  unfold range, len. rewrite map_map.
  replace (Z.to_nat (Z.of_nat (List.length l) - 0)) with (List.length l) by lia.
  apply (nth_ext _ _ d d).
  - now rewrite length_map, length_seq.
  - intros n Hn. rewrite length_map, length_seq in Hn.
    rewrite (nth_indep _ d (nth (Z.to_nat (0 + Z.of_nat 0)) l d))
      by (rewrite length_map, length_seq; lia).
    rewrite (map_nth (fun k => nth (Z.to_nat (0 + Z.of_nat k)) l d)).
    rewrite seq_nth by lia. f_equal. lia.
Qed.

Lemma argsort_valid (a : list Z) :
  Forall (fun i => 0 <= i < len a) (np_argsort a)
  /\ len (np_argsort a) = len a.
Proof.
  pose proof (argsort_perm a) as P. split.
  - apply Forall_forall. intros i Hi. apply range_In.
    now apply (Permutation_in i P).
  - unfold len. rewrite (Permutation_length P), range_length.
    unfold len. lia.
Qed.

(** Lines 171 to 196 return, unless [torch.tensor] refuses a batch: the
    batches are the paddings of groups of sentences of one length each,
    and the groups together are the corpus, rearranged. *)
Lemma batches_cases st seqs batch_size batch_first :
  holds st seqs -> 1 <= batch_size ->
  (exists st',
     batches batch_size batch_first st = (st', Raise RuntimeError)
     /\ ~ long_ids (vocab st) seqs)
  \/ exists st' groups tensors total,
       batches batch_size batch_first st = (st', Ok (tensors, total))
       /\ kept st st'
       /\ Forall2 (one_length_batch (vocab st) batch_first) groups tensors
       /\ Permutation (List.concat groups) seqs
       /\ total = sum_size0 tensors
       /\ Forall (fun g => len g <= batch_size) groups
       /\ List.concat groups
          = map (sentence_at seqs) (np_argsort (map (@len Z) seqs)).
Proof.
  intros (ls & Hd & F) Hb.
  assert (C : corpus_in (vocab st) (data st) ls seqs st)
    by (unfold corpus_in; auto).
  set (sort_idx := np_argsort (map (@len Z) seqs)).
  destruct (argsort_valid (map (@len Z) seqs)) as [V L]. fold sort_idx in V, L.
  assert (LS : len (map (@len Z) seqs) = len seqs)
    by (unfold len; now rewrite length_map).
  rewrite LS in V, L.
  destruct (change_loc_runs seqs sort_idx) as [R La].
  assert (Pre : batches batch_size batch_first st
                = (' (batch_data_list, total, _) <-
                     foldM (fun acc idx =>
                              while_curr (Z.to_nat idx) batch_size batch_first
                                         sort_idx idx acc)
                           ([], 0, 0)
                           (change_loc_of
                              (map (fun i => len (sentence_at seqs i)) sort_idx)) ;;
                   ret (batch_data_list, total)) st).
  { unfold batches, self_data. unfold bind at 1.
    rewrite (bind_ok _ _ _ _ _ _ _ (sentences_run st (data st) ls seqs Hd F)).
    fold sort_idx. rewrite (take_at_sents_len seqs sort_idx V).
    unfold lift. unfold bind at 1. reflexivity. }
  destruct (fold_while_run (vocab st) (data st) ls seqs sort_idx batch_size
              batch_first V Hb _ 0 [] 0 st C (Z.le_refl 0) R)
    as [(st' & E & N) | (st' & groups & new & total & E & K & FB & G & _ & T & SB)].
  { left. exists st'. split; [|exact N].
    rewrite Pre. now rewrite (bind_raise _ _ _ _ _ _ _ E). }
  right. rewrite La in E, G.
  assert (GS : List.concat groups = map (sentence_at seqs) sort_idx).
  { rewrite G. unfold slice_of.
    rewrite <- (map_map (fun id_ => nth (Z.to_nat id_) sort_idx 0) (sentence_at seqs)).
    now rewrite map_nth_range. }
  exists st', groups, new, total.
  split; [|split; [|split; [|split; [|split; [|split]]]]].
  - rewrite Pre. rewrite (bind_ok _ _ _ _ _ _ _ E). reflexivity.
  - exact K.
  - exact FB.
  - rewrite G. unfold slice_of.
    rewrite <- (map_map (fun id_ => nth (Z.to_nat id_) sort_idx 0) (sentence_at seqs)).
    rewrite map_nth_range.
    rewrite <- (map_nth_range _ seqs []) at 2.
    apply Permutation_map. rewrite <- LS. apply argsort_perm.
  - lia.
  - exact SB.
  - exact GS.
Qed.

(** On a corpus of [torch.long] ids, lines 171 to 196 return. *)
Lemma batches_run st seqs batch_size batch_first :
  holds st seqs -> 1 <= batch_size -> long_ids (vocab st) seqs ->
  exists st' groups tensors total,
    batches batch_size batch_first st = (st', Ok (tensors, total))
    /\ kept st st'
    /\ Forall2 (one_length_batch (vocab st) batch_first) groups tensors
    /\ Permutation (List.concat groups) seqs
    /\ total = sum_size0 tensors
    /\ Forall (fun g => len g <= batch_size) groups
    /\ List.concat groups
       = map (sentence_at seqs) (np_argsort (map (@len Z) seqs)).
Proof.
  intros Hs Hb Hl.
  destruct (batches_cases st seqs batch_size batch_first Hs Hb)
    as [(st' & _ & N) | H]; [contradiction | exact H].
Qed.

End BatchesSpec.

(** ** The total of [create_data_batch] *)

Section TotalOfBatches.
Import MonoTextData.
Context `{NS : NumpySpec}.

(** The first dimension of a batch of one length: the number of sentences
    in the [batch_first] layout, the padded length otherwise. *)
Lemma padded_size0 v g n batch_first t lens :
  g <> [] ->
  Forall (fun s : list Z => len s = n) g ->
  padded v g batch_first = Ok (t, lens) ->
  size0 t = if batch_first then len g else n + 2.
Proof.
  intros Hne U. unfold padded.
  set (stop := VocabEntry.__getitem__ v "</s>").
  destruct (py_max_spec (map (@len Z) (map (fun sent => sent ++ [stop]) g)))
    as (L & E & I & _).
  { destruct g; [congruence|discriminate]. }
  rewrite E. unfold torch_tensor.
  match goal with |- context [forallb ?f ?l] => destruct (forallb f l) end;
    [|discriminate].
  intros [= <- _].
  assert (HL : L = n + 1 /\ 0 <= n).
  { rewrite map_map in I. apply in_map_iff in I. destruct I as (s & <- & Hs).
    rewrite Forall_forall in U. specialize (U s Hs).
    unfold len in *. rewrite length_app. simpl. lia. }
  destruct batch_first.
  - unfold permute_1_0, size0, len. cbn [app].
    rewrite length_map, length_seq. unfold py_repeat.
    rewrite repeat_length. unfold len. rewrite !length_map.
    now rewrite Nat2Z.id.
  - unfold size0, len. cbn [app List.length].
    rewrite length_map, range_length. lia.
Qed.

Lemma len_concat (A : Type) (gs : list (list A)) :
  len (List.concat gs) = fold_right (fun g acc => len g + acc) 0 gs.
Proof.
  induction gs as [|g gs IH]; [reflexivity|].
  cbn [List.concat fold_right]. rewrite <- IH. unfold len.
  rewrite length_app. lia.
Qed.

Lemma sum_size0_batch_first v groups tensors :
  Forall2 (one_length_batch v true) groups tensors ->
  sum_size0 tensors = len (List.concat groups).
Proof.
  intros F. rewrite len_concat.
  induction F as [|g t groups tensors (Hne & n & U & P) _ IH]; [reflexivity|].
  cbn [sum_size0 fold_right]. fold (sum_size0 tensors). rewrite IH.
  now rewrite (padded_size0 v g n true t _ Hne U P).
Qed.

(** What [create_data_batch] does after the loop: it returns the batches
    if the sum of their first dimensions is the size of the corpus, and
    raises [AssertionError] otherwise. *)
Lemma create_data_batch_run st seqs batch_size batch_first :
  holds st seqs -> 1 <= batch_size -> long_ids (vocab st) seqs ->
  exists st' groups tensors,
    batches batch_size batch_first st = (st', Ok (tensors, sum_size0 tensors))
    /\ Forall2 (one_length_batch (vocab st) batch_first) groups tensors
    /\ Permutation (List.concat groups) seqs
    /\ create_data_batch batch_size batch_first st
       = (st', if sum_size0 tensors =? len seqs
               then Ok tensors else Raise AssertionError).
Proof.
  intros Hs Hb Hl.
  destruct (batches_run st seqs batch_size batch_first Hs Hb Hl)
    as (st' & groups & tensors & total & E & K & F & P & T & _).
  subst total. exists st', groups, tensors.
  split; [exact E|]. split; [exact F|]. split; [exact P|].
  destruct (kept_holds st st' seqs K Hs) as (ls & Hd & Fl).
  unfold create_data_batch. rewrite (bind_ok _ _ _ _ _ _ _ E).
  rewrite (bind_ok _ _ _ _ _ _ _ (len_self_data_run st' ls Hd)).
  replace (len ls) with (len seqs)
    by (unfold len; now rewrite (Forall2_length Fl)).
  unfold assert. now destruct (sum_size0 tensors =? len seqs).
Qed.

(** X17.  In the [batch_first] layout the count is right: for every
    corpus whose ids, like the ids of the three symbols, are values of
    [torch.long], and for [batch_size >= 1], the method returns, and the
    first dimensions of the batches add up to the size of the corpus. *)
Lemma create_data_batch_batch_first_returns st seqs batch_size :
  holds st seqs -> 1 <= batch_size -> long_ids (vocab st) seqs ->
  exists st' tensors,
    create_data_batch batch_size true st = (st', Ok tensors)
    /\ sum_size0 tensors = len seqs.
Proof.
  intros Hs Hb Hl.
  destruct (create_data_batch_run st seqs batch_size true Hs Hb Hl)
    as (st' & groups & tensors & _ & F & P & E).
  assert (T : sum_size0 tensors = len seqs).
  { rewrite (sum_size0_batch_first _ _ _ F). unfold len.
    now rewrite (Permutation_length P). }
  exists st', tensors. split; [|exact T].
  rewrite E, T, Z.eqb_refl. reflexivity.
Qed.

End TotalOfBatches.

(** ** An implementation of the numpy routines *)

Section NumpyStable.

Lemma insert_by_perm (A : Type) (key : A -> Z) (x : A) (l : list A) :
  Permutation (insert_by key x l) (x :: l).
Proof.
  induction l as [|y r IH]; simpl; [reflexivity|].
  destruct (key x <=? key y); [reflexivity|].
  rewrite IH. apply perm_swap.
Qed.

Lemma sort_by_perm (A : Type) (key : A -> Z) (l : list A) :
  Permutation (sort_by key l) l.
Proof.
  induction l as [|x r IH]; simpl; [reflexivity|].
  rewrite insert_by_perm. now constructor.
Qed.

Lemma ascending_cons x l :
  ascending (x :: l) <-> (forall y, In y l -> x <= y) /\ ascending l.
Proof.
  revert x. induction l as [|z r IH]; intros x.
  - simpl. split; [intros _; split; [intros ? []|exact I] | auto].
  - change (ascending (x :: z :: r)) with (x <= z /\ ascending (z :: r)).
    split.
    + intros [L A]. split; [|exact A]. intros y [<-|Hy]; [exact L|].
      apply IH in A. destruct A as [B _]. specialize (B y Hy). lia.
    + intros [B A]. split; [|exact A]. apply B. now left.
Qed.

Lemma insert_by_ascending (A : Type) (key : A -> Z) (x : A) (l : list A) :
  ascending (map key l) -> ascending (map key (insert_by key x l)).
Proof.
  induction l as [|y r IH]; intros H; simpl.
  - split; exact I.
  - destruct (Z.leb_spec (key x) (key y)) as [L|L].
    + change (ascending (key x :: map key (y :: r))).
      apply ascending_cons. split; [|exact H].
      change (map key (y :: r)) with (key y :: map key r) in H.
      apply ascending_cons in H. destruct H as [B _].
      intros z [<-|Hz]; [exact L|]. specialize (B z Hz). lia.
    + change (ascending (key y :: map key (insert_by key x r))).
      change (map key (y :: r)) with (key y :: map key r) in H.
      apply ascending_cons in H. destruct H as [B Asc].
      apply ascending_cons. split; [|now apply IH].
      intros z Hz. apply in_map_iff in Hz. destruct Hz as (w & <- & Hw).
      apply (Permutation_in _ (insert_by_perm A key x r)) in Hw.
      destruct Hw as [<-|Hw]; [lia|]. apply B. now apply in_map.
Qed.

Lemma sort_by_ascending (A : Type) (key : A -> Z) (l : list A) :
  ascending (map key (sort_by key l)).
Proof.
  induction l as [|x r IH]; simpl; [exact I|]. now apply insert_by_ascending.
Qed.

#[export] Instance numpy_stable_spec : NumpySpec numpy_stable.
Proof.
  constructor.
  - intros n a. reflexivity.
  - intros a. apply sort_by_perm.
  - intros a. apply (sort_by_ascending Z (fun i => nth (Z.to_nat i) a 0)).
Qed.

End NumpyStable.

(** ** Running the shuffled iteration *)

Section DataIterRun.
Import MonoTextData.

Variables (v : VocabEntry.t) (d : loc) (ls : list loc) (seqs : list (list Z)).

(** Sorting commutes with a map that respects the key. *)
Lemma insert_by_map (A B : Type) (f : A -> B) (key : B -> Z) (x : A) (l : list A) :
  insert_by key (f x) (map f l) = map f (insert_by (fun a => key (f a)) x l).
Proof.
  induction l as [|y r IH]; simpl; [reflexivity|].
  destruct (key (f x) <=? key (f y)); simpl; [reflexivity|]. now rewrite IH.
Qed.

Lemma sort_by_map (A B : Type) (f : A -> B) (key : B -> Z) (l : list A) :
  sort_by key (map f l) = map f (sort_by (fun a => key (f a)) l).
Proof.
  induction l as [|x r IH]; simpl; [reflexivity|].
  now rewrite IH, insert_by_map.
Qed.

Lemma Forall2_fst_snd (A B : Type) (R : A -> B -> Prop) (l : list (A * B)) :
  Forall (fun z => R (fst z) (snd z)) l -> Forall2 R (map fst l) (map snd l).
Proof. induction 1; simpl; constructor; assumption. Qed.

(** [[self.data[index] for index in batch_ids]] *)
Lemma data_getitems_run st ids :
  corpus_in v d ls seqs st ->
  Forall (fun i => 0 <= i < len seqs) ids ->
  mapM self_data_getitem ids st
  = (st, Ok (map (fun i => nth (Z.to_nat i) ls 0%nat) ids)).
Proof.
  intros C. pose proof C as (D & _ & O & F). rewrite <- D in O.
  pose proof (corpus_in_lengths v d ls seqs st C) as L.
  induction 1 as [|i r Hi _ IH]; [reflexivity|]. cbn [mapM map].
  assert (G : self_data_getitem i st = (st, Ok (nth (Z.to_nat i) ls 0%nat))).
  { rewrite (self_data_getitem_run st ls i O). f_equal.
    apply py_getitem_ok; [lia|]. apply nth_error_nth'. unfold len in *. lia. }
  rewrite (bind_ok _ _ _ _ _ _ _ G), (bind_ok _ _ _ _ _ _ _ IH). reflexivity.
Qed.

(** The keys [sort] computes for a list of references. *)
Lemma keys_run st (zs : list (loc * list Z)) :
  Forall (fun z => sent_at st (fst z) (snd z)) zs ->
  mapM (fun e => s <- read_sent e ;; ret (- len s, e)) (map fst zs) st
  = (st, Ok (map (fun z => (- len (snd z), fst z)) zs)).
Proof.
  induction 1 as [|[e s] zs Hz _ IH]; [reflexivity|]. cbn [mapM map fst snd].
  simpl in Hz.
  rewrite (bind_ok _ _ _ _ _ _ _
             (bind_ok _ _ _ (fun s => ret (- len s, e)) _ _ _ (read_sent_run st e s Hz))).
  rewrite (bind_ok _ _ _ _ _ _ _ IH). reflexivity.
Qed.

(** The body of the loop of [data_iter], on the positions [ids]: the
    sentences are sorted by descending length, stably, and padded. *)
Lemma sorted_batch_run st ids batch_first :
  corpus_in v d ls seqs st ->
  Forall (fun i => 0 <= i < len seqs) ids ->
  exists st',
    (refs <- mapM self_data_getitem ids ;;
     batch_data <- alloc (Sents refs) ;;
     sort_neg_len batch_data ;;;
     _to_tensor batch_data batch_first) st
    = (st', padded v (sort_by (fun s => - len s) (map (sentence_at seqs) ids))
                   batch_first)
    /\ kept st st'.
Proof.
  intros C Hi. pose proof C as (D & V & O & F).
  set (zs := map (fun i => (nth (Z.to_nat i) ls 0%nat, sentence_at seqs i)) ids).
  set (st1 := set_objs (objs st ++ [Sents (map fst zs)]) st).
  assert (K1 : kept st st1).
  { unfold kept. repeat split. now exists [Sents (map fst zs)]. }
  set (sorted := sort_by (fun z : loc * list Z => - len (snd z)) zs).
  set (st2 := set_objs (objs st ++ [Sents (map fst sorted)]) st1).
  assert (K2 : kept st st2).
  { unfold kept. repeat split. now exists [Sents (map fst sorted)]. }
  assert (Z1 : forall s', kept st s' ->
                 Forall (fun z => sent_at s' (fst z) (snd z)) zs).
  { intros s' K. apply Forall_map, Forall_forall. intros i Hin. simpl.
    rewrite Forall_forall in Hi. specialize (Hi i Hin).
    assert (L : (Z.to_nat i < List.length ls)%nat).
    { rewrite (Forall2_length F). unfold len in Hi. lia. }
    destruct (Forall2_nth_error _ _ _ _ _ (Z.to_nat i) (nth (Z.to_nat i) ls 0%nat) F)
      as (s & Es & R); [now apply nth_error_nth'|].
    unfold sentence_at. rewrite (nth_error_nth _ _ _ Es).
    unfold sent_at in *. now apply kept_nth_error with st. }
  exists st2. split; [|exact K2].
  assert (R : map (fun i => nth (Z.to_nat i) ls 0%nat) ids = map fst zs).
  { unfold zs. rewrite map_map. reflexivity. }
  rewrite (bind_ok _ _ _ _ _ _ _ (data_getitems_run st ids C Hi)), R.
  assert (A : alloc (Sents (map fst zs)) st = (st1, Ok (List.length (objs st))))
    by reflexivity.
  rewrite (bind_ok _ _ _ _ _ _ _ A).
  assert (S : sort_neg_len (List.length (objs st)) st1 = (st2, Ok tt)).
  { unfold sort_neg_len.
    assert (Rd : read_sents (List.length (objs st)) st1 = (st1, Ok (map fst zs))).
    { apply read_sents_run. apply nth_error_last. }
    rewrite (bind_ok _ _ _ _ _ _ _ Rd).
    rewrite (bind_ok _ _ _ _ _ _ _ (keys_run st1 zs (Z1 st1 K1))).
    unfold write. cbn [objs st1 set_objs].
    destruct (Nat.ltb_spec (List.length (objs st))
                (List.length (objs st ++ [Sents (map fst zs)])))
      as [_|L]; [|rewrite length_app in L; simpl in L; lia].
    rewrite update_last. unfold st2, set_objs. cbn [data vocab dropped rng st1].
    do 3 f_equal.
    rewrite (sort_by_map _ _ (fun z : loc * list Z => (- len (snd z), fst z)) fst).
    rewrite map_map. reflexivity. }
  rewrite (bind_ok _ _ _ _ _ _ _ S).
  rewrite (_to_tensor_run st2 _ (map fst sorted) (map snd sorted) batch_first).
  - cbn [vocab st2 st1 set_objs]. rewrite V. do 2 f_equal.
    unfold sorted. rewrite <- (sort_by_map _ _ snd (fun s => - len s)).
    unfold zs. rewrite map_map. reflexivity.
  - apply nth_error_last.
  - assert (P : Forall (fun z => sent_at st2 (fst z) (snd z)) sorted).
    { apply (Permutation_Forall (Permutation_sym (sort_by_perm _ _ zs))).
      now apply Z1. }
    now apply Forall2_fst_snd.
Qed.

End DataIterRun.

Section DataIterSpec.
Import MonoTextData.
Context `{NS : NumpySpec}.

(** A loop whose turns each return and keep an invariant. *)
Lemma mapM_run (A B : Type) (f : A -> M B) (P : A -> B -> Prop)
    (Inv : state -> Prop) (l : list A) :
  (forall x st, In x l -> Inv st ->
     exists st' y, f x st = (st', Ok y) /\ P x y /\ Inv st' /\ kept st st') ->
  forall st, Inv st ->
    exists st' ys,
      mapM f l st = (st', Ok ys) /\ Forall2 P l ys /\ Inv st' /\ kept st st'.
Proof.
  induction l as [|x r IH]; intros H st I.
  - exists st, []. repeat split; try constructor; try assumption.
    exists []. now rewrite app_nil_r.
  - destruct (H x st (or_introl eq_refl) I) as (st1 & y & E1 & Py & I1 & K1).
    destruct (IH (fun x' s Hx => H x' s (or_intror Hx)) st1 I1)
      as (st2 & ys & E2 & F2 & I2 & K2).
    exists st2, (y :: ys). split; [|split; [|split]].
    + cbn [mapM]. rewrite (bind_ok _ _ _ _ _ _ _ E1), (bind_ok _ _ _ _ _ _ _ E2).
      reflexivity.
    + now constructor.
    + exact I2.
    + now apply kept_trans with st1.
Qed.

Lemma slice_full_chunk (A : Type) (l : list A) (b i : Z) :
  1 <= b -> 0 <= i < len l / b ->
  slice l (i * b) ((i + 1) * b)
  = firstn (Z.to_nat b) (skipn (Z.to_nat (i * b)) l)
  /\ List.length (slice l (i * b) ((i + 1) * b)) = Z.to_nat b.
Proof.
  intros Hb Hi.
  assert (M : (i + 1) * b <= len l).
  { pose proof (Z.mul_div_le (len l) b ltac:(lia)). nia. }
  assert (E : slice l (i * b) ((i + 1) * b)
              = firstn (Z.to_nat b) (skipn (Z.to_nat (i * b)) l)).
  { unfold slice, clip.
    destruct (Z.ltb_spec (i * b) 0); [nia|].
    destruct (Z.ltb_spec ((i + 1) * b) 0); [nia|].
    rewrite !Z.min_l by nia. f_equal. nia. }
  split; [exact E|]. rewrite E, length_firstn, length_skipn.
  unfold len in M. nia.
Qed.

Lemma In_firstn (A : Type) (n : nat) (l : list A) (x : A) :
  In x (firstn n l) -> In x l.
Proof.
  intros H. rewrite <- (firstn_skipn n l). apply in_or_app. now left.
Qed.

Lemma In_skipn (A : Type) (n : nat) (l : list A) (x : A) :
  In x (skipn n l) -> In x l.
Proof.
  intros H. rewrite <- (firstn_skipn n l). apply in_or_app. now right.
Qed.

Lemma In_slice (A : Type) (l : list A) (lo hi : Z) (x : A) :
  In x (slice l lo hi) -> In x l.
Proof.
  unfold slice. intros H. apply In_firstn in H. now apply In_skipn in H.
Qed.

(** [data_iter] returns [len(self.data) // batch_size] batches: batch [i]
    is made of the entries [i * batch_size] to [(i + 1) * batch_size - 1]
    of the index array, and the entries after the last full chunk are in
    no batch. *)
Lemma data_iter_run st seqs batch_size batch_first (shuffle : bool) :
  holds st seqs -> 1 <= batch_size -> float_overflows batch_size = false ->
  long_ids (vocab st) seqs ->
  exists st' index_arr batches,
    data_iter batch_size batch_first shuffle st = (st', Ok batches)
    /\ Permutation index_arr (range 0 (len seqs))
    /\ (shuffle = false -> index_arr = range 0 (len seqs))
    /\ Forall2 (fun i y =>
                  padded (vocab st)
                         (sort_by (fun s => - len s)
                            (map (sentence_at seqs)
                               (slice index_arr (i * batch_size)
                                               ((i + 1) * batch_size))))
                         batch_first
                  = Ok y)
               (range 0 (len seqs / batch_size)) batches
    /\ len batches = len seqs / batch_size.
Proof.
  intros (ls & Hd & F) Hb Hf Hl.
  assert (C : corpus_in (vocab st) (data st) ls seqs st)
    by (unfold corpus_in; auto).
  pose proof (corpus_in_lengths _ _ _ _ _ C) as L.
  set (index_arr := if shuffle then np_random_shuffle (rng st) (range 0 (len seqs))
                    else range 0 (len seqs)).
  set (st0 := if shuffle
              then mkState (objs st) (data st) (vocab st) (dropped st) (S (rng st))
              else st).
  assert (P : Permutation index_arr (range 0 (len seqs))).
  { unfold index_arr. destruct shuffle; [apply shuffle_perm | reflexivity]. }
  assert (LI : len index_arr = len seqs).
  { unfold len at 1. rewrite (Permutation_length P), range_length.
    pose proof (len_nonneg _ seqs). lia. }
  assert (K0 : kept st st0).
  { unfold st0. destruct shuffle; [|apply kept_refl].
    unfold kept. simpl. repeat split. exists []. now rewrite app_nil_r. }
  assert (C0 : corpus_in (vocab st) (data st) ls seqs st0)
    by now apply (corpus_in_kept _ _ _ _ st st0).
  destruct (mapM_run _ _
              (fun i =>
                 refs <- mapM self_data_getitem
                           (slice index_arr (i * batch_size) ((i + 1) * batch_size)) ;;
                 batch_data <- alloc (Sents refs) ;;
                 sort_neg_len batch_data ;;;
                 _to_tensor batch_data batch_first)
              (fun i y =>
                 padded (vocab st)
                        (sort_by (fun s => - len s)
                           (map (sentence_at seqs)
                              (slice index_arr (i * batch_size)
                                              ((i + 1) * batch_size))))
                        batch_first
                 = Ok y)
              (corpus_in (vocab st) (data st) ls seqs)
              (range 0 (len seqs / batch_size)))
    with (st := st0) as (st' & bs & E & FB & _ & _); [|exact C0|].
  { intros i s Hi Cs. apply range_In in Hi. rewrite <- LI in Hi.
    destruct (slice_full_chunk _ index_arr batch_size i Hb Hi) as [_ Ls].
    set (ids := slice index_arr (i * batch_size) ((i + 1) * batch_size)) in *.
    assert (V : Forall (fun k => 0 <= k < len seqs) ids).
    { apply Forall_forall. intros k Hk. apply In_slice in Hk.
      apply range_In. now apply (Permutation_in k P). }
    destruct (sorted_batch_run _ _ _ _ s ids batch_first Cs V) as (s' & Es & Ks).
    assert (Hne : sort_by (fun s0 : list Z => - len s0) (map (sentence_at seqs) ids) <> []).
    { intros N. apply (f_equal (@List.length _)) in N.
      rewrite (Permutation_length (sort_by_perm _ _ _)), length_map, Ls in N.
      simpl in N. lia. }
    destruct (padded_lens (vocab st) _ batch_first Hne
                (long_ids_perm _ _ _ (sort_by_perm _ _ _)
                   (long_ids_sentences _ _ ids Hl)))
      as [t Et].
    exists s'. eexists. split; [rewrite Es; rewrite Et; reflexivity|].
    split; [exact Et|]. split; [|exact Ks].
    now apply (corpus_in_kept _ _ _ _ s s'). }
  exists st', index_arr, bs. split; [|split; [|split; [|split]]].
  - unfold data_iter.
    rewrite (bind_ok _ _ _ _ _ _ _ (len_self_data_run st ls Hd)), L.
    assert (S0 : (if shuffle then shuffle_ (range 0 (len seqs))
                  else ret (range 0 (len seqs))) st = (st0, Ok index_arr)).
    { unfold st0, index_arr. now destruct shuffle. }
    rewrite (bind_ok _ _ _ _ _ _ _ S0), LI.
    unfold batch_num_of, lift. unfold bind at 1. rewrite Hf.
    destruct (Z.eqb_spec batch_size 0); [lia|].
    rewrite Z.quot_div_nonneg by (pose proof (len_nonneg _ seqs); lia).
    exact E.
  - exact P.
  - intros ->. reflexivity.
  - exact FB.
  - unfold len at 1. rewrite <- (Forall2_length FB), range_length.
    pose proof (len_nonneg _ seqs).
    pose proof (Z.div_pos (len seqs) batch_size ltac:(lia) ltac:(lia)). lia.
Qed.

End DataIterSpec.

(** ** Claims on the batching methods *)

Section BatchingClaims.
Import MonoTextData.

(** C6.  For every corpus and every [batch_size >= 1], in either layout:
    whenever the loop of [create_data_batch] has built its batches, the
    check of line 196 has passed on every one of them, and each batch is
    the padding of a non-empty group of sentences that all have the same
    number [n] of tokens, with the lengths reported for the batch all
    [n + 2]; the groups together are the sentences of the corpus.  The
    batches [create_data_batch] returns are those of the loop.  And the
    loop does build its batches on every corpus whose ids, like the ids
    of the three symbols, are values of [torch.long]; on another corpus
    [torch.tensor] can refuse a batch, and then none is produced. *)
Theorem batches_have_one_length `{NS : NumpySpec}
    (st : state) (seqs : list (list Z)) (batch_size : Z) (batch_first : bool)
    (Hs : holds st seqs) (Hb : 1 <= batch_size) :
  (forall st' tensors total,
     batches batch_size batch_first st = (st', Ok (tensors, total)) ->
     exists groups,
       Forall2 (fun g t =>
                  g <> []
                  /\ exists n,
                       Forall (fun s => len s = n) g
                       /\ padded (vocab st) g batch_first
                          = Ok (t, py_repeat (n + 2) (len g)))
               groups tensors
       /\ Permutation (List.concat groups) seqs)
  /\ (forall ts,
        snd (create_data_batch batch_size batch_first st) = Ok ts ->
        exists st' total,
          batches batch_size batch_first st = (st', Ok (ts, total)))
  /\ (long_ids (vocab st) seqs ->
      exists st' tensors total,
        batches batch_size batch_first st = (st', Ok (tensors, total))).
Proof.
  split; [|split].
  - intros st' tensors total H.
    destruct (batches_cases st seqs batch_size batch_first Hs Hb)
      as [(st1 & E & _) | (st1 & groups & ts & tot & E & _ & F & P & _)].
    + rewrite E in H. discriminate.
    + rewrite E in H. injection H as _ <- _. now exists groups.
  - intros ts. unfold create_data_batch. unfold bind at 1.
    destruct (batches batch_size batch_first st) as [st1 [[tensors total]|e]];
      [|discriminate].
    unfold bind. destruct (len_self_data st1) as [st2 [n|e]]; [|discriminate].
    destruct (assert (total =? n) st2) as [st3 [[]|e]]; [|discriminate].
    simpl. intros [= <-]. now exists st1, total.
  - intros Hl.
    destruct (batches_run st seqs batch_size batch_first Hs Hb Hl)
      as (st' & groups & tensors & total & E & _).
    now exists st', tensors, total.
Qed.

Lemma batches_have_one_length_witness :
  exists st' groups tensors total,
    @batches numpy_stable 2 false
      (new_corpus [[5; 6; 7]; [8]; [9; 9]; [4]; [3; 3]] VocabEntry.empty_vocab 0)
    = (st', Ok (tensors, total))
    /\ Permutation (List.concat groups) [[5; 6; 7]; [8]; [9; 9]; [4]; [3; 3]]
    /\ List.length groups = List.length tensors.
Proof.
  destruct (@batches_have_one_length numpy_stable numpy_stable_spec
              (new_corpus [[5; 6; 7]; [8]; [9; 9]; [4]; [3; 3]]
                          VocabEntry.empty_vocab 0)
              [[5; 6; 7]; [8]; [9; 9]; [4]; [3; 3]] 2 false)
    as (Built & _ & Runs).
  - exists [0; 1; 2; 3; 4]%nat. split; [reflexivity|]. repeat constructor.
  - lia.
  - destruct Runs as (st' & tensors & total & E); [long_ids_by_evaluation|].
    destruct (Built st' tensors total E) as (groups & F & P).
    exists st', groups, tensors, total. split; [exact E|]. split; [exact P|].
    exact (Forall2_length F).
Defined.

(** C3, at the corpus of the single sentence [[5]] with [batch_size=1]
    and the default [batch_first=False].  The one batch has shape
    [(3, 1)]; [total] is increased by [size(0)], the number of rows, and
    ends at 3, while the corpus has 1 sentence: the final assertion fails
    and the call raises [AssertionError].  With [batch_first=True] the
    first dimension is the batch size and the call returns. *)
Theorem create_data_batch_counts_rows `{NS : NumpySpec} :
  let st := new_corpus [[5]] VocabEntry.empty_vocab 0 in
  snd (batches 1 false st) = Ok ([[[1]; [5]; [2]]], 3)
  /\ snd (len_self_data st) = Ok 1
  /\ snd (create_data_batch 1 false st) = Raise AssertionError
  /\ snd (create_data_batch 1 true st) = Ok [[[1; 5; 2]]].
Proof.
  intros st.
  assert (A : np_argsort [1] = [0]).
  { pose proof (argsort_perm [1]) as P. apply Permutation_sym in P.
    now apply Permutation_length_1_inv in P. }
  assert (F : Forall2 (sent_at st) [0%nat] [[5]]) by (repeat constructor).
  assert (B : forall bf,
             batches 1 bf st
             = (sort_len <- lift (take_at [1] [0]) ;;
                ' (batch_data_list, total, _) <-
                  foldM (fun acc idx =>
                           while_curr (Z.to_nat idx) 1 bf [0] idx acc)
                        ([], 0, 0) (change_loc_of sort_len) ;;
                ret (batch_data_list, total)) st).
  { intros bf. unfold batches, self_data. unfold bind at 1.
    rewrite (bind_ok _ _ _ _ _ _ _ (sentences_run st 1%nat [0%nat] [[5]] eq_refl F)).
    change (map (@len Z) [[5]]) with [1]. now rewrite A. }
  split; [|split; [|split]].
  - rewrite B. vm_compute. reflexivity.
  - vm_compute. reflexivity.
  - unfold create_data_batch. unfold bind at 1. rewrite B. vm_compute. reflexivity.
  - unfold create_data_batch. unfold bind at 1. rewrite B. vm_compute. reflexivity.
Qed.

Lemma create_data_batch_counts_rows_witness :
  snd (@create_data_batch numpy_stable 1 false
         (new_corpus [[5]] VocabEntry.empty_vocab 0))
  = Raise AssertionError.
Proof.
  exact (proj1 (proj2 (proj2
           (@create_data_batch_counts_rows numpy_stable numpy_stable_spec)))).
Defined.

(** Whenever [batch_size] does not divide the size of the corpus,
    [data_iter] yields fewer batches than the rounded-up quotient: the
    sentences after the last full chunk of the index array are left
    out. *)
Lemma data_iter_misses_tail `{NS : NumpySpec}
    st seqs batch_size batch_first (shuffle : bool) :
  holds st seqs -> 1 <= batch_size -> float_overflows batch_size = false ->
  long_ids (vocab st) seqs -> len seqs mod batch_size <> 0 ->
  exists batches,
    snd (data_iter batch_size batch_first shuffle st) = Ok batches
    /\ len batches = len seqs / batch_size
    /\ len batches < (len seqs + batch_size - 1) / batch_size.
Proof.
  intros Hs Hb Hf Hl Hm.
  destruct (data_iter_run st seqs batch_size batch_first shuffle Hs Hb Hf Hl)
    as (st' & index_arr & bs & E & _ & _ & _ & L).
  exists bs. rewrite E. split; [reflexivity|]. split; [exact L|].
  rewrite L. pose proof (len_nonneg _ seqs).
  pose proof (Z.div_mod (len seqs) batch_size ltac:(lia)) as DM.
  pose proof (Z.mod_pos_bound (len seqs) batch_size ltac:(lia)) as MB.
  assert (len seqs / batch_size + 1 <= (len seqs + batch_size - 1) / batch_size)
    by (apply Z.div_le_lower_bound; [lia | nia]).
  lia.
Qed.

(** C2, at a corpus of five sentences with [batch_size=2] and
    [shuffle=False].  [batch_num] is [int(5.0 / 2.0) = 2], not
    [ceil(5 / 2) = 3]: the generator yields the batches of the positions
    0, 1 and 2, 3 and ends; the sentence at position 4, whose only token is
    14, is in no batch. *)
Theorem data_iter_drops_last_chunk `{NP : Numpy} :
  let st := new_corpus [[10]; [11]; [12]; [13]; [14]] VocabEntry.empty_vocab 0 in
  holds st [[10]; [11]; [12]; [13]; [14]]
  /\ batch_num_of 5 2 = Ok 2
  /\ (5 + 2 - 1) / 2 = 3
  /\ snd (data_iter 2 false false st)
     = Ok [([[1; 1]; [10; 11]; [2; 2]], [3; 3]);
           ([[1; 1]; [12; 13]; [2; 2]], [3; 3])].
Proof.
  split; [|repeat split; vm_compute; reflexivity].
  exists [0; 1; 2; 3; 4]%nat. split; [reflexivity|]. repeat constructor.
Qed.

End BatchingClaims.

(** * Further properties *)

(** ** The vocabulary *)

Section VocabularyMore.
Import VocabEntry VocabEntryFacts.

Lemma invert_keeps (d : word_dict) (i : Z) : forall acc : id_dict,
  ~ In i (map snd d) ->
  iget (fold_left (fun a kv => iset a (snd kv) (fst kv)) d acc) i = iget acc i.
Proof.
  induction d as [|[w j] d IH]; intros acc N; simpl; [reflexivity|].
  simpl in N. rewrite IH by tauto. rewrite iget_iset.
  destruct (Z.eqb_spec j i); [|reflexivity]. subst. tauto.
Qed.

Lemma invert_last (d1 d2 : word_dict) (w : string) (i : Z) :
  ~ In i (map snd d2) -> iget (invert (d1 ++ (w, i) :: d2)) i = Some w.
Proof.
  intros N. unfold invert. rewrite fold_left_app. simpl.
  rewrite invert_keeps by exact N. rewrite iget_iset.
  now rewrite Z.eqb_refl.
Qed.

Lemma init_some (d : word_dict) (v : t) :
  d <> [] -> __init__ (Some d) = Ok v ->
  word2id v = d /\ id2word_ v = invert d /\ wget d "<unk>" = Some (unk_id v).
Proof.
  intros Hne. unfold __init__, Dict.getitem, wget.
  destruct d as [|p d]; [congruence|].
  destruct (Dict.get String.eqb (p :: d) "<unk>") as [u|]; [|discriminate].
  now intros [= <-].
Qed.

(** X1.  A vocabulary constructed from a mapping with pairwise distinct
    ids resolves the id of every token of the mapping back to the token,
    and [id2word] is defined exactly on the ids of the mapping. *)
Theorem constructor_roundtrip (d : word_dict) (v : t)
    (Hne : d <> []) (Hi : __init__ (Some d) = Ok v)
    (Hd : NoDup (map snd d)) :
  (forall w i, In (w, i) d -> id2word v i = Ok w)
  /\ (forall w, __contains__ v w = true ->
                id2word v (__getitem__ v w) = Ok w)
  /\ (forall i, ~ In i (map snd d) -> id2word v i = Raise KeyError).
Proof.
  destruct (init_some d v Hne Hi) as (W & I & U).
  split; [|split].
  - intros w i Hin. unfold id2word, Dict.getitem.
    rewrite I, (invert_swap _ Hd).
    rewrite (In_get _ _ Z.eqb Z.eqb_eq _ i w); [reflexivity| |].
    + now rewrite map_map.
    + apply in_map_iff. now exists (w, i).
  - intros w. apply constructed_roundtrip; rewrite W; assumption.
  - intros i Hn. unfold id2word, Dict.getitem.
    destruct (Dict.get Z.eqb (id2word_ v) i) as [w|] eqn:E; [|reflexivity].
    exfalso. apply Hn. rewrite I in E. apply invert_In in E.
    apply in_map_iff. now exists (w, i).
Qed.

Lemma constructor_roundtrip_witness :
  exists v,
    __init__ (Some [("<unk>", 0); ("a", 7); ("b", 2)]) = Ok v
    /\ id2word v (__getitem__ v "a") = Ok "a"
    /\ id2word v 1 = Raise KeyError.
Proof.
  eexists. split; [reflexivity|].
  destruct (constructor_roundtrip [("<unk>", 0); ("a", 7); ("b", 2)] _
              ltac:(discriminate) eq_refl) as (_ & R & K).
  - repeat constructor; simpl; intuition discriminate.
  - split; [now apply R|]. apply K. simpl. intuition discriminate.
Defined.

(** X2.  When the mapping gives one id to several tokens, the id is
    resolved to the token inserted last: an earlier token with that id is
    known but does not come back from its id. *)
Theorem constructor_duplicate_id_last_wins
    (d1 d2 : word_dict) (w : string) (i : Z) (v : t)
    (Hi : __init__ (Some (d1 ++ (w, i) :: d2)) = Ok v)
    (Hl : ~ In i (map snd d2)) :
  id2word v i = Ok w
  /\ forall w0, w0 <> w -> wget (d1 ++ (w, i) :: d2) w0 = Some i ->
       __contains__ v w0 = true
       /\ id2word v (__getitem__ v w0) <> Ok w0.
Proof.
  assert (Hne : d1 ++ (w, i) :: d2 <> []) by (destruct d1; discriminate).
  destruct (init_some _ v Hne Hi) as (W & I & _).
  assert (R : id2word v i = Ok w).
  { unfold id2word, Dict.getitem. fold (iget (id2word_ v) i).
    now rewrite I, invert_last. }
  split; [exact R|]. intros w0 Hw G.
  unfold __contains__, Dict.contains, __getitem__.
  rewrite W. unfold wget in G |- *. rewrite G. split; [reflexivity|].
  rewrite R. congruence.
Qed.

Lemma constructor_duplicate_id_last_wins_witness :
  exists v,
    __init__ (Some [("<unk>", 3); ("a", 3)]) = Ok v
    /\ id2word v 3 = Ok "a"
    /\ id2word v (__getitem__ v "<unk>") <> Ok "<unk>".
Proof.
  eexists. split; [reflexivity|].
  destruct (constructor_duplicate_id_last_wins [("<unk>", 3)] [] "a" 3 _ eq_refl)
    as (R & D).
  - simpl. tauto.
  - split; [exact R|]. apply (D "<unk>"); [discriminate | reflexivity].
Defined.

End VocabularyMore.

Section VocabularyGrowth.
Import VocabEntry VocabEntryFacts.

Lemma contains_wget (v : t) (w : string) :
  __contains__ v w = true <-> exists i, wget (word2id v) w = Some i.
Proof.
  unfold __contains__, Dict.contains, wget.
  destruct (Dict.get String.eqb (word2id v) w) as [i|]; split;
    try discriminate; eauto. intros [i H]. discriminate.
Qed.

Lemma wget_append (d : word_dict) (w w0 : string) (i : Z) :
  wget d w = None ->
  wget (d ++ [(w, i)]) w0
  = match wget d w0 with
    | Some x => Some x
    | None => if String.eqb w w0 then Some i else None
    end.
Proof. apply get_app_absent. Qed.

(** What [add] leaves as it is, whether it returns or raises. *)
Lemma add_frame (v : t) (w : string) :
  (forall w0, __contains__ v w0 = true ->
     __contains__ (fst (add w v)) w0 = true
     /\ __getitem__ (fst (add w v)) w0 = __getitem__ v w0)
  /\ unk_id (fst (add w v)) = unk_id v
  /\ id2word_ (fst (add w v)) = id2word_ v
  /\ __contains__ (fst (add w v)) w = true
  /\ __len__ (fst (add w v))
     = __len__ v + (if __contains__ v w then 0 else 1).
Proof.
  destruct (__contains__ v w) eqn:E.
  - rewrite (add_known v w E). simpl. repeat split; auto. lia.
  - rewrite (add_unknown v w E). cbn [fst].
    assert (G : wget (word2id v) w = None).
    { unfold __contains__, Dict.contains in E. unfold wget.
      now destruct (Dict.get String.eqb (word2id v) w). }
    split; [|split; [|split; [|split]]]; try reflexivity.
    + intros w0 H0. apply contains_wget in H0. destruct H0 as [i Hi].
      unfold __contains__, Dict.contains, __getitem__. cbn [word2id unk_id].
      fold (wget (word2id v ++ [(w, __len__ v)]) w0).
      rewrite (wget_append _ _ _ _ G), Hi. now split.
    + unfold __contains__, Dict.contains. cbn [word2id].
      fold (wget (word2id v ++ [(w, __len__ v)]) w).
      rewrite (wget_append _ _ _ _ G), G, String.eqb_refl. reflexivity.
    + unfold __len__, Dict.len. cbn [word2id]. rewrite length_app. simpl. lia.
Qed.

(** X3.  [add] never changes what is there: every token known before the
    call keeps its id, the fallback id and the id-to-token dictionary are
    the same after the call, the added token is known afterwards, and the
    size grows by one for a new token and not at all for a known one.
    This holds whether the call returns or raises. *)
Theorem add_keeps_known_ids (v : t) (w : string) :
  (forall w0, __contains__ v w0 = true ->
     __contains__ (fst (add w v)) w0 = true
     /\ __getitem__ (fst (add w v)) w0 = __getitem__ v w0)
  /\ unk_id (fst (add w v)) = unk_id v
  /\ id2word_ (fst (add w v)) = id2word_ v
  /\ __contains__ (fst (add w v)) w = true
  /\ __len__ (fst (add w v))
     = __len__ v + (if __contains__ v w then 0 else 1).
Proof. exact (add_frame v w). Qed.

(** X4.  In every vocabulary the program can hold, ["<unk>"] is known and
    its id is the fallback: the lookup of an unknown token returns the id
    of ["<unk>"]. *)
Theorem unk_is_known (v : t) (R : reachable v) :
  __contains__ v "<unk>" = true
  /\ __getitem__ v "<unk>" = unk_id v
  /\ forall w, __contains__ v w = false ->
       __getitem__ v w = __getitem__ v "<unk>".
Proof.
  assert (H : __contains__ v "<unk>" = true /\ __getitem__ v "<unk>" = unk_id v).
  { induction R as [arg v Hi|w v R IH].
    - unfold __init__ in Hi. destruct arg as [[|p d]|];
        try (injection Hi as <-; split; reflexivity).
      unfold Dict.getitem in Hi.
      destruct (Dict.get String.eqb (p :: d) "<unk>") as [u|] eqn:E;
        [|discriminate].
      injection Hi as <-.
      unfold __contains__, Dict.contains, __getitem__, wget. cbn [word2id unk_id].
      rewrite E. now split.
    - destruct IH as [C G].
      destruct (add_frame v w) as (K & U & _).
      destruct (K "<unk>" C) as [C' G']. split; [exact C'|]. congruence. }
  destruct H as [C G]. split; [exact C|]. split; [exact G|].
  intros w Hw. rewrite G. unfold __contains__, Dict.contains in Hw.
  unfold __getitem__, wget.
  now destruct (Dict.get String.eqb (word2id v) w).
Qed.

Lemma unk_is_known_witness :
  __getitem__ (fst (add "dog" empty_vocab)) "cat"
  = __getitem__ (fst (add "dog" empty_vocab)) "<unk>".
Proof.
  assert (R : reachable (fst (add "dog" empty_vocab))).
  { apply reachable_add. apply (reachable_init None). reflexivity. }
  destruct (unk_is_known _ R) as (_ & _ & F). apply F. reflexivity.
Defined.

(** Adding the tokens of a line to a vocabulary that knows them all
    changes nothing; the first unknown token raises [TypeError]. *)
Lemma add_all_cases (words : list string) (v : t) :
  (forallb (__contains__ v) words = true -> add_all words v = (v, Ok tt))
  /\ (forallb (__contains__ v) words = false ->
      snd (add_all words v) = Raise TypeError
      /\ id2word_ (fst (add_all words v)) = id2word_ v).
Proof.
  induction words as [|w ws IH]; simpl.
  - split; [reflexivity | discriminate].
  - destruct (__contains__ v w) eqn:E; simpl.
    + rewrite (add_known v w E). exact IH.
    + split; [discriminate|]. intros _. now rewrite (add_unknown v w E).
Qed.

(** X5.  [from_corpus] returns only for a file all of whose tokens are
    reserved symbols, and then returns the fresh vocabulary; on any other
    file it raises [TypeError] at the first new token. *)
Theorem from_corpus_cases (fin : list string) :
  from_corpus fin
  = if forallb (fun line => forallb (__contains__ empty_vocab) (split line)) fin
    then Ok empty_vocab
    else Raise TypeError.
Proof.
  unfold from_corpus.
  assert (G : from_corpus_lines fin empty_vocab
              = if forallb (fun line => forallb (__contains__ empty_vocab) (split line)) fin
                then (empty_vocab, Ok tt)
                else (fst (from_corpus_lines fin empty_vocab), Raise TypeError)).
  { induction fin as [|line fin IH]; [reflexivity|]. cbn [from_corpus_lines forallb].
    destruct (add_all_cases (split line) empty_vocab) as [A B].
    destruct (forallb (__contains__ empty_vocab) (split line)).
    - rewrite (A eq_refl). exact IH.
    - destruct (B eq_refl) as [B1 _]. cbn [andb].
      destruct (add_all (split line) empty_vocab) as [v' r]. simpl in B1.
      subst r. reflexivity. }
  rewrite G. now destruct (forallb _ fin).
Qed.

End VocabularyGrowth.

(** ** Reading the corpus *)

Section ReadCorpusMore.
Import MonoTextData.

(** One turn of the scan, by whether the line is accepted. *)
Lemma scan_line_accepted ml st line :
  scan_line ml st line
  = if accepted ml line
    then mkScan (scan_data st ++ [snd (scan_words (the_vocab st) (split line))])
                (scan_dropped st)
                (fst (scan_words (the_vocab st) (split line)))
    else mkScan (scan_data st) (scan_dropped st + 1) (the_vocab st).
Proof.
  unfold scan_line, accepted.
  destruct (len (split line) <? 1); [reflexivity|].
  destruct (truth ml && exceeds (len (split line)) ml); [reflexivity|].
  simpl. now destruct (scan_words (the_vocab st) (split line)).
Qed.

Lemma accepted_bounds ml line :
  accepted ml line = true ->
  1 <= len (split line)
  /\ forall m, ml = Some m -> m <> 0 -> len (split line) <= m.
Proof.
  unfold accepted. intros H. apply andb_prop in H. destruct H as [A B].
  apply negb_true_iff in A, B. apply Z.ltb_ge in A. split; [exact A|].
  intros m -> Hm. simpl in B.
  destruct (Z.eqb_spec m 0); [contradiction|]. simpl in B.
  rewrite Z.gtb_ltb in B. apply Z.ltb_ge in B. exact B.
Qed.

(** The data and the count after a scan of [fin]. *)
Lemma scan_fold ml fin : forall st,
  scan_dropped (fold_left (scan_line ml) fin st)
  = scan_dropped st + len (filter (fun l => negb (accepted ml l)) fin)
  /\ exists new,
       scan_data (fold_left (scan_line ml) fin st) = scan_data st ++ new
       /\ Forall2 (fun line ids => len ids = len (split line))
                  (filter (accepted ml) fin) new.
Proof.
  induction fin as [|line fin IH]; intros st; simpl.
  - split; [unfold len; simpl; lia|]. exists []. rewrite app_nil_r. now split.
  - destruct (IH (scan_line ml st line)) as (D & new & E & F). clear IH.
    rewrite D, E, (scan_line_accepted ml st line).
    destruct (accepted ml line); simpl.
    + split; [reflexivity|].
      exists (snd (scan_words (the_vocab st) (split line)) :: new). split.
      * now rewrite <- app_assoc.
      * constructor; [|exact F]. unfold len. now rewrite scan_words_length.
    + split; [unfold len; simpl; lia|]. exists new. now split.
Qed.

Lemma accepted_sequences ml lines new :
  Forall2 (fun line ids => len ids = len (split line)) lines new ->
  Forall (fun line => accepted ml line = true) lines ->
  Forall (fun s : list Z =>
            1 <= len s /\ forall m, ml = Some m -> m <> 0 -> len s <= m) new.
Proof.
  induction 1 as [|line ids lines new Hl _ IH]; intros A; constructor.
  - rewrite Hl. apply accepted_bounds. now apply Forall_inv in A.
  - apply IH. now apply Forall_inv_tail in A.
Qed.

(** The numbers [_read_corpus] returns. *)
Lemma read_corpus_counts
    (fin : list string) (ml : option Z) (vocab : option VocabEntry.t) :
  exists seqs v n,
    _read_corpus fin ml vocab = Ok (seqs, v, n)
    /\ len seqs + n = len fin
    /\ 0 <= n
    /\ Forall (fun s => 1 <= len s) seqs
    /\ forall m, ml = Some m -> m <> 0 -> Forall (fun s => len s <= m) seqs.
Proof.
  destruct (_read_corpus_returns fin ml vocab) as [v E].
  destruct (scan_fold ml fin (mkScan [] 0 (initial_vocab vocab)))
    as (D & new & S & F).
  rewrite D, S in E. simpl in E.
  exists new, v, (len (filter (fun l => negb (accepted ml l)) fin)).
  split; [exact E|].
  assert (B : Forall (fun s : list Z =>
                        1 <= len s
                        /\ forall m, ml = Some m -> m <> 0 -> len s <= m) new).
  { apply (accepted_sequences ml _ _ F).
    apply Forall_forall. intros l Hl. now apply filter_In in Hl. }
  split; [|split; [|split]].
  - apply Forall2_length in F. unfold len. rewrite <- F.
    pose proof (filter_length (accepted ml) fin). lia.
  - apply len_nonneg.
  - eapply Forall_impl; [|exact B]. now intros s [H _].
  - intros m Hm Hz. eapply Forall_impl; [|exact B]. intros s [_ H]. now apply H.
Qed.

(** X6.  [_read_corpus] always returns.  Every line is either stored or
    counted as dropped, so the two numbers add up to the number of lines;
    no stored sequence is empty, and under a maximum that is not zero no
    stored sequence is longer than the maximum. *)
Theorem read_corpus_accounts_for_every_line
    (fin : list string) (ml : option Z) (vocab : option VocabEntry.t) :
  exists seqs v n,
    _read_corpus fin ml vocab = Ok (seqs, v, n)
    /\ len seqs + n = len fin
    /\ 0 <= n
    /\ Forall (fun s => 1 <= len s) seqs
    /\ forall m, ml = Some m -> m <> 0 -> Forall (fun s => len s <= m) seqs.
Proof. exact (read_corpus_counts fin ml vocab). Qed.

(** The scan with a supplied vocabulary. *)
Lemma scan_fold_entry ml v fin : forall st,
  the_vocab st = Entry v ->
  the_vocab (fold_left (scan_line ml) fin st) = Entry v
  /\ scan_data (fold_left (scan_line ml) fin st)
     = scan_data st
       ++ map (fun line => map (VocabEntry.__getitem__ v) (split line))
              (filter (accepted ml) fin).
Proof.
  induction fin as [|line fin IH]; intros st Hv; simpl.
  - now rewrite app_nil_r.
  - assert (Hv' : the_vocab (scan_line ml st line) = Entry v).
    { rewrite scan_line_accepted. destruct (accepted ml line); [|exact Hv].
      cbn [the_vocab]. now rewrite Hv, scan_words_entry. }
    destruct (IH _ Hv') as [V D]. split; [exact V|]. rewrite D.
    rewrite scan_line_accepted. destruct (accepted ml line); [|reflexivity].
    cbn [scan_data map]. rewrite Hv, scan_words_entry. cbn [snd].
    now rewrite <- app_assoc.
Qed.

(** X7.  With a supplied vocabulary [_read_corpus] returns that
    vocabulary as it was given, and each stored sequence is the lookup of
    the tokens of an accepted line in it: a token the vocabulary does not
    know becomes [unk_id], and no id is created. *)
Theorem read_corpus_with_vocabulary
    (fin : list string) (ml : option Z) (v : VocabEntry.t)
    (Hv : VocabEntry.__len__ v <> 0) :
  _read_corpus fin ml (Some v)
  = Ok (map (fun line => map (VocabEntry.__getitem__ v) (split line))
            (filter (accepted ml) fin),
        v,
        len (filter (fun l => negb (accepted ml l)) fin)).
Proof.
  unfold _read_corpus.
  assert (I : initial_vocab (Some v) = Entry v).
  { unfold initial_vocab. now destruct (Z.eqb_spec (VocabEntry.__len__ v) 0). }
  rewrite I.
  destruct (scan_fold_entry ml v fin (mkScan [] 0 (Entry v)) eq_refl) as [V D].
  destruct (scan_fold ml fin (mkScan [] 0 (Entry v))) as (N & _).
  rewrite V, D, N. reflexivity.
Qed.

Lemma read_corpus_with_vocabulary_witness :
  _read_corpus ["<s> zebra"; ""; "a b c"] (Some 2) (Some VocabEntry.empty_vocab)
  = Ok ([[1; 3]], VocabEntry.empty_vocab, 2).
Proof.
  rewrite (read_corpus_with_vocabulary ["<s> zebra"; ""; "a b c"] (Some 2)
             VocabEntry.empty_vocab ltac:(discriminate)).
  reflexivity.
Defined.

End ReadCorpusMore.

Section ScanWithoutVocabulary.
Import MonoTextData.

Lemma wget_extends (d k : word_dict) (w : string) (i : Z) :
  wget d w = Some i -> wget (d ++ k) w = Some i.
Proof.
  unfold wget. induction d as [|[w' i'] d IH]; simpl; [discriminate|].
  destruct (String.eqb w' w); [tauto | exact IH].
Qed.

Lemma contains_app (d k : word_dict) (w : string) :
  Dict.contains String.eqb (d ++ k) w = true
  <-> Dict.contains String.eqb d w = true \/ Dict.contains String.eqb k w = true.
Proof.
  unfold Dict.contains. induction d as [|[w' i'] d IH]; simpl.
  - split; [now right | intros [H|H]; [discriminate | exact H]].
  - destruct (String.eqb w' w); [tauto | exact IH].
Qed.

(** One lookup in the [defaultdict]: the dictionary is extended at its
    end, if at all, and maps the word to the id returned. *)
Lemma scan_getitem_default (d : word_dict) (w : string) :
  exists k i,
    scan_getitem (DefaultDict d) w = (DefaultDict (d ++ k), i)
    /\ wget (d ++ k) w = Some i
    /\ forall w0, Dict.contains String.eqb (d ++ k) w0 = true
                  <-> Dict.contains String.eqb d w0 = true \/ w0 = w.
Proof.
  simpl. destruct (wget d w) as [i|] eqn:E.
  - exists [], i. rewrite app_nil_r. split; [reflexivity|]. split; [exact E|].
    intros w0. split; [tauto|]. intros [H | ->]; [exact H|].
    unfold Dict.contains. unfold wget in E. now rewrite E.
  - exists [(w, Dict.len d)], (Dict.len d). unfold wset.
    rewrite (set_absent _ _ String.eqb _ _ _ E). split; [reflexivity|]. split.
    + now rewrite (wget_append d w w (Dict.len d) E), E, String.eqb_refl.
    + intros w0. rewrite contains_app. unfold Dict.contains at 2. simpl.
      destruct (String.eqb_spec w w0); split; intros [H|H]; auto;
        try discriminate; congruence.
Qed.

Lemma scan_words_default (words : list string) : forall d,
  exists k ids,
    scan_words (DefaultDict d) words = (DefaultDict (d ++ k), ids)
    /\ Forall2 (fun w i => wget (d ++ k) w = Some i) words ids
    /\ forall w0, Dict.contains String.eqb (d ++ k) w0 = true
                  <-> Dict.contains String.eqb d w0 = true \/ In w0 words.
Proof.
  induction words as [|w ws IH]; intros d.
  - exists [], []. rewrite app_nil_r. simpl. split; [reflexivity|].
    split; [constructor | tauto].
  - destruct (scan_getitem_default d w) as (k1 & i & E1 & G1 & C1).
    destruct (IH (d ++ k1)) as (k2 & ids & E2 & F2 & C2).
    exists (k1 ++ k2), (i :: ids). rewrite app_assoc.
    split; [|split].
    + cbn [scan_words]. now rewrite E1, E2.
    + constructor; [now apply wget_extends | exact F2].
    + intros w0. rewrite C2, C1. simpl. intuition.
Qed.

(** The scan from a [defaultdict]: the dictionary is only extended, and
    in the final one, and in any extension of it, each stored id is the id
    of its token. *)
Lemma scan_fold_default ml (fin : list string) : forall st d,
  the_vocab st = DefaultDict d ->
  exists k new,
    the_vocab (fold_left (scan_line ml) fin st) = DefaultDict (d ++ k)
    /\ scan_data (fold_left (scan_line ml) fin st) = scan_data st ++ new
    /\ (forall k',
          Forall2 (fun line ids =>
                     Forall2 (fun w i => wget ((d ++ k) ++ k') w = Some i)
                             (split line) ids)
                  (filter (accepted ml) fin) new)
    /\ forall w0, Dict.contains String.eqb (d ++ k) w0 = true
                  <-> Dict.contains String.eqb d w0 = true
                      \/ exists line, In line (filter (accepted ml) fin)
                                      /\ In w0 (split line).
Proof.
  induction fin as [|line fin IH]; intros st d Hv.
  - exists [], []. rewrite !app_nil_r. simpl. split; [exact Hv|].
    split; [reflexivity|]. split; [constructor|].
    intros w0. split; [tauto|]. intros [H|(l & Hl & _)]; [exact H | destruct Hl].
  - cbn [fold_left filter]. rewrite scan_line_accepted.
    destruct (accepted ml line) eqn:A.
    + destruct (scan_words_default (split line) d) as (k1 & ids & E1 & F1 & C1).
      rewrite Hv, E1. cbn [fst snd].
      destruct (IH (mkScan (scan_data st ++ [ids]) (scan_dropped st)
                           (DefaultDict (d ++ k1))) (d ++ k1) eq_refl)
        as (k2 & new & V & D & F & C).
      exists (k1 ++ k2), (ids :: new). rewrite app_assoc.
      split; [exact V|]. split; [|split].
      * rewrite D. cbn [scan_data]. now rewrite <- app_assoc.
      * intros k'. constructor; [|apply F].
        eapply Forall2_impl; [|exact F1]. intros w i H. cbn beta in H.
        rewrite <- app_assoc. now apply wget_extends.
      * intros w0. rewrite C, C1. split.
        -- intros [[H|H]|(l & Hl & Hw)]; [now left | |].
           ++ right. exists line. split; [now left | exact H].
           ++ right. exists l. split; [now right | exact Hw].
        -- intros [H|(l & [<-|Hl] & Hw)]; [now left; left | now left; right |].
           right. now exists l.
    + destruct (IH (mkScan (scan_data st) (scan_dropped st + 1) (the_vocab st))
                   d Hv) as (k & new & V & D & F & C).
      exists k, new. repeat split; try assumption; now apply C.
Qed.

Lemma init_with_unk (d : word_dict) (u : Z) :
  wget d "<unk>" = Some u ->
  VocabEntry.__init__ (Some d) = Ok (VocabEntry.mkVocabEntry d u (invert d)).
Proof.
  unfold VocabEntry.__init__, Dict.getitem, wget.
  destruct d as [|p d]; [discriminate|]. now intros ->.
Qed.

(** What [_read_corpus] returns when it builds the vocabulary. *)
Lemma read_corpus_default fin ml seqs v n :
  _read_corpus fin ml None = Ok (seqs, v, n) ->
  exists k,
    VocabEntry.word2id v = VocabEntry.reserved_word2id ++ k
    /\ VocabEntry.id2word_ v = invert (VocabEntry.word2id v)
    /\ dense (VocabEntry.word2id v)
    /\ Forall2 (fun line ids =>
                  Forall2 (fun w i => wget (VocabEntry.word2id v) w = Some i)
                          (split line) ids)
               (filter (accepted ml) fin) seqs
    /\ forall w0, Dict.contains String.eqb (VocabEntry.word2id v) w0 = true
                  <-> Dict.contains String.eqb VocabEntry.reserved_word2id w0 = true
                      \/ exists line, In line (filter (accepted ml) fin)
                                      /\ In w0 (split line).
Proof.
  unfold _read_corpus.
  assert (S0 : scanning (the_vocab (mkScan [] 0 (initial_vocab None)))).
  { exists VocabEntry.reserved_word2id. repeat split. }
  pose proof (scanning_fold ml fin _ S0) as (d & E & D & U).
  destruct (scan_fold_default ml fin (mkScan [] 0 (initial_vocab None))
              VocabEntry.reserved_word2id eq_refl)
    as (k & new & V & Dt & F & C).
  rewrite V in E. injection E as <-. rewrite V.
  rewrite (init_with_unk (VocabEntry.reserved_word2id ++ k) 3 U).
  intros [= Hs Hv _]. subst v. cbn [VocabEntry.word2id VocabEntry.id2word_].
  exists k. split; [reflexivity|]. split; [reflexivity|]. split; [exact D|].
  split; [|exact C].
  cbn [initial_vocab] in Dt. rewrite <- Hs, Dt. cbn [scan_data app]. specialize (F []).
  now rewrite app_nil_r in F.
Qed.

End ScanWithoutVocabulary.

Section ScannedVocabularyClaims.
Import MonoTextData.

(** X8.  When [_read_corpus] builds the vocabulary itself, every stored
    sequence decodes to its line: each id is the id the returned
    vocabulary gives to the token at that place, and [id2word] of the id
    is that token.  No token is stored as unknown unless it is
    ["<unk>"] itself. *)
Theorem scanned_sequences_decode
    (fin : list string) (ml : option Z)
    (seqs : list (list Z)) (v : VocabEntry.t) (n : Z)
    (H : _read_corpus fin ml None = Ok (seqs, v, n)) :
  Forall2 (fun line ids =>
             Forall2 (fun w i =>
                        VocabEntry.__getitem__ v w = i
                        /\ VocabEntry.id2word v i = Ok w)
                     (split line) ids)
          (filter (accepted ml) fin) seqs.
Proof.
  destruct (read_corpus_default fin ml seqs v n H) as (k & W & I & D & F & _).
  assert (N : NoDup (map snd (VocabEntry.word2id v)))
    by (rewrite D; apply range_NoDup).
  eapply Forall2_impl; [|exact F]. intros line ids Fl. cbn beta in Fl.
  eapply Forall2_impl; [|exact Fl]. intros w i G. cbn beta in G. split.
  - unfold VocabEntry.__getitem__. now rewrite G.
  - apply (get_In _ _ String.eqb String.eqb_eq) in G.
    unfold VocabEntry.id2word, Dict.getitem. rewrite I, (invert_swap _ N).
    rewrite (In_get _ _ Z.eqb Z.eqb_eq _ i w); [reflexivity| |].
    + now rewrite map_map.
    + apply in_map_iff. now exists (w, i).
Qed.

Lemma scanned_sequences_decode_witness :
  exists v,
    _read_corpus ["b a"; ""; "a c d"; "a"] (Some 2) None = Ok ([[4; 5]; [5]], v, 2)
    /\ VocabEntry.id2word v 4 = Ok "b"
    /\ VocabEntry.id2word v 5 = Ok "a".
Proof.
  eexists. split; [reflexivity|].
  pose proof (scanned_sequences_decode ["b a"; ""; "a c d"; "a"] (Some 2)
                _ _ _ eq_refl) as F.
  apply Forall2_cons_iff in F. destruct F as [F _].
  apply Forall2_cons_iff in F. destruct F as [[_ B] F].
  apply Forall2_cons_iff in F. destruct F as [[_ A] _].
  split; [exact B | exact A].
Defined.

(** X9.  The vocabulary [_read_corpus] builds knows exactly the four
    reserved symbols and the tokens of the accepted lines: the tokens of a
    dropped line get no id. *)
Theorem scanned_vocabulary_tokens
    (fin : list string) (ml : option Z)
    (seqs : list (list Z)) (v : VocabEntry.t) (n : Z)
    (H : _read_corpus fin ml None = Ok (seqs, v, n)) (w : string) :
  VocabEntry.__contains__ v w = true
  <-> VocabEntry.__contains__ VocabEntry.empty_vocab w = true
      \/ exists line,
           In line fin /\ accepted ml line = true /\ In w (split line).
Proof.
  destruct (read_corpus_default fin ml seqs v n H) as (k & _ & _ & _ & _ & C).
  unfold VocabEntry.__contains__. rewrite (C w). cbn [VocabEntry.word2id].
  split; (intros [R|(line & L & T)]; [now left|right; exists line]).
  - apply filter_In in L. tauto.
  - split; [|tauto]. apply filter_In. tauto.
Qed.

Lemma scanned_vocabulary_tokens_witness :
  exists v,
    _read_corpus ["b a"; ""; "a c d"; "a"] (Some 2) None = Ok ([[4; 5]; [5]], v, 2)
    /\ VocabEntry.__contains__ v "a" = true
    /\ VocabEntry.__contains__ v "c" = false.
Proof.
  eexists. split; [reflexivity|].
  pose proof (scanned_vocabulary_tokens ["b a"; ""; "a c d"; "a"] (Some 2)
                _ _ _ eq_refl) as T.
  split.
  - apply (T "a"). right. exists "a". repeat split; simpl; auto.
  - reflexivity.
Defined.

Lemma scanned_vocab_roundtrip_witness :
  exists v,
    _read_corpus ["b a"; "a c"] None None = Ok ([[4; 5]; [5; 6]], v, 0)
    /\ VocabEntry.unk_id v = 3
    /\ exists w, VocabEntry.id2word v 6 = Ok w.
Proof.
  eexists. split; [reflexivity|].
  destruct (scanned_vocab_roundtrip ["b a"; "a c"] None _ _ _ eq_refl)
    as (U & _ & T).
  split; [exact U|]. apply T. vm_compute. split; [discriminate | reflexivity].
Defined.

End ScannedVocabularyClaims.

(** ** The corpus object *)

Section CorpusObject.
Import MonoTextData.

Lemma new_corpus_sent_at seqs v n k s :
  nth_error seqs k = Some s -> sent_at (new_corpus seqs v n) k s.
Proof.
  intros H. unfold sent_at, new_corpus. cbn [objs].
  rewrite nth_error_app1.
  - rewrite nth_error_map, H. reflexivity.
  - rewrite length_map. apply nth_error_Some. congruence.
Qed.

Lemma Forall2_seq_nth (A : Type) (R : nat -> A -> Prop) (l : list A) :
  (forall k x, nth_error l k = Some x -> R k x) ->
  Forall2 R (seq 0 (List.length l)) l.
Proof.
  intros H.
  assert (G : forall (l0 : list A) (a : nat),
            (forall k x, nth_error l0 k = Some x -> R (a + k)%nat x) ->
            Forall2 R (seq a (List.length l0)) l0).
  { induction l0 as [|x l0 IH]; intros a Ha; simpl; constructor.
    - rewrite <- (Nat.add_0_r a). now apply Ha.
    - apply IH. intros k y Hk.
      replace (S a + k)%nat with (a + S k)%nat by lia. now apply Ha. }
  apply G. exact H.
Qed.

(** The state [__init__] builds holds the sequences it was given. *)
Lemma new_corpus_holds seqs v n : holds (new_corpus seqs v n) seqs.
Proof.
  exists (seq 0 (List.length seqs)). split.
  - unfold new_corpus. cbn [objs data].
    rewrite nth_error_app2 by (rewrite length_map; lia).
    rewrite length_map, Nat.sub_diag. reflexivity.
  - apply Forall2_seq_nth. intros k s. apply new_corpus_sent_at.
Qed.

(** X11.  Constructing a corpus always succeeds on the lines of a file.
    The object holds the sequences [_read_corpus] returned, with its
    vocabulary and its count of dropped lines; [len] of the object is the
    number of stored sequences, which with the dropped count gives the
    number of lines. *)
Theorem corpus_object_built
    (fin : list string) (ml : option Z) (vocab : option VocabEntry.t) :
  exists st seqs v n,
    _read_corpus fin ml vocab = Ok (seqs, v, n)
    /\ __init__ fin ml vocab = Ok st
    /\ holds st seqs
    /\ MonoTextData.vocab st = v
    /\ dropped st = n
    /\ __len__ st = (st, Ok (len seqs))
    /\ len seqs + dropped st = len fin.
Proof.
  destruct (read_corpus_counts fin ml vocab)
    as (seqs & v & n & E & L & _).
  exists (new_corpus seqs v n), seqs, v, n.
  split; [exact E|]. split; [unfold __init__; now rewrite E|].
  pose proof (new_corpus_holds seqs v n) as Hh.
  split; [exact Hh|]. split; [reflexivity|]. split; [reflexivity|].
  split; [|exact L].
  destruct Hh as (ls & Hd & F). unfold __len__.
  rewrite (len_self_data_run _ ls Hd). do 2 f_equal.
  unfold len. now rewrite (Forall2_length F).
Qed.

End CorpusObject.

(** ** Sampling and shuffled iteration *)

Section SamplingMore.
Import MonoTextData.
Context `{NS : NumpySpec}.

Lemma ascending_neg_descending (A : Type) (f : A -> Z) (c : Z) (l : list A) :
  ascending (map (fun x => - f x) l) -> descending (map (fun x => f x + c) l).
Proof.
  induction l as [|x r IH]; [exact (fun H => H)|].
  destruct r as [|y r].
  - intros _. simpl. tauto.
  - intros H. cbn [map ascending] in H. destruct H as [L A0].
    cbn [map descending]. split; [lia|]. apply IH. exact A0.
Qed.

(** The lengths reported for a batch sorted by [-len] descend. *)
Lemma sorted_lens_descending (g : list (list Z)) :
  descending (map (fun s => len s + 2) (sort_by (fun s => - len s) g)).
Proof.
  apply (ascending_neg_descending _ (@len Z) 2).
  apply (sort_by_ascending _ (fun s => - len s)).
Qed.

Lemma sorted_padded v (g : list (list Z)) batch_first :
  g <> [] -> long_ids v g ->
  exists t,
    padded v (sort_by (fun s => - len s) g) batch_first
    = Ok (t, map (fun s => len s + 2) (sort_by (fun s => - len s) g))
    /\ len (map (fun s => len s + 2) (sort_by (fun s => - len s) g)) = len g
    /\ descending (map (fun s => len s + 2) (sort_by (fun s => - len s) g)).
Proof.
  intros Hne Hl.
  assert (Hs : sort_by (fun s : list Z => - len s) g <> []).
  { intros N. apply Hne. apply (f_equal (@List.length _)) in N.
    rewrite (Permutation_length (sort_by_perm _ _ g)) in N.
    destruct g; [reflexivity | discriminate]. }
  destruct (padded_lens v _ batch_first Hs
              (long_ids_perm _ _ _ (sort_by_perm _ _ g) Hl)) as [t E].
  exists t. split; [exact E|]. split; [|apply sorted_lens_descending].
  unfold len. now rewrite length_map, (Permutation_length (sort_by_perm _ _ g)).
Qed.

(** [data_sample] pads the first [nsample] entries of the index array,
    sorted by descending length. *)
Lemma data_sample_run st seqs nsample batch_first (shuffle : bool) :
  holds st seqs ->
  exists st' index_arr,
    Permutation index_arr (range 0 (len seqs))
    /\ (shuffle = false -> index_arr = range 0 (len seqs))
    /\ data_sample nsample batch_first shuffle st
       = (st', padded (vocab st)
                      (sort_by (fun s => - len s)
                         (map (sentence_at seqs) (slice index_arr 0 nsample)))
                      batch_first)
    /\ kept st st'.
Proof.
  intros (ls & Hd & F).
  assert (C : corpus_in (vocab st) (data st) ls seqs st)
    by (unfold corpus_in; auto).
  pose proof (corpus_in_lengths _ _ _ _ _ C) as L.
  set (index_arr := if shuffle then np_random_shuffle (rng st) (range 0 (len seqs))
                    else range 0 (len seqs)).
  set (st0 := if shuffle
              then mkState (objs st) (data st) (vocab st) (dropped st) (S (rng st))
              else st).
  assert (P : Permutation index_arr (range 0 (len seqs))).
  { unfold index_arr. destruct shuffle; [apply shuffle_perm | reflexivity]. }
  assert (K0 : kept st st0).
  { unfold st0. destruct shuffle; [|apply kept_refl].
    unfold kept. simpl. repeat split. exists []. now rewrite app_nil_r. }
  assert (C0 : corpus_in (vocab st) (data st) ls seqs st0)
    by now apply (corpus_in_kept _ _ _ _ st st0).
  assert (V : Forall (fun k => 0 <= k < len seqs) (slice index_arr 0 nsample)).
  { apply Forall_forall. intros k Hk. apply In_slice in Hk.
    apply range_In. now apply (Permutation_in k P). }
  destruct (sorted_batch_run _ _ _ _ st0 _ batch_first C0 V) as (st' & E & K).
  exists st', index_arr. split; [exact P|]. split; [now intros ->|].
  split; [|now apply kept_trans with st0].
  unfold data_sample.
  rewrite (bind_ok _ _ _ _ _ _ _ (len_self_data_run st ls Hd)), L.
  assert (S0 : (if shuffle then shuffle_ (range 0 (len seqs))
                else ret (range 0 (len seqs))) st = (st0, Ok index_arr)).
  { unfold st0, index_arr. now destruct shuffle. }
  rewrite (bind_ok _ _ _ _ _ _ _ S0). exact E.
Qed.

(** X12.  [data_sample] on an empty selection raises [ValueError]: with
    [nsample = 0], or on a corpus without sequences, the batch is empty
    and [max] of its lengths fails in [_to_tensor]. *)
Theorem data_sample_empty_selection
    (st : state) (seqs : list (list Z)) (nsample : Z)
    (batch_first shuffle : bool)
    (Hs : holds st seqs) (He : nsample = 0 \/ seqs = []) :
  snd (data_sample nsample batch_first shuffle st) = Raise ValueError.
Proof.
  destruct (data_sample_run st seqs nsample batch_first shuffle Hs)
    as (st' & index_arr & P & _ & E & _).
  rewrite E. cbn [snd].
  assert (S : slice index_arr 0 nsample = []).
  { destruct He as [-> | ->].
    - unfold slice, clip. simpl.
      replace (Z.to_nat (Z.min 0 (len index_arr) - Z.min 0 (len index_arr)))
        with 0%nat by lia.
      reflexivity.
    - apply Permutation_sym, Permutation_nil in P. rewrite P. unfold slice.
      now rewrite skipn_nil, firstn_nil. }
  rewrite S. reflexivity.
Qed.

(** X13.  On a corpus with sequences whose ids, like the ids of the
    three symbols, are values of [torch.long], and for [nsample >= 1],
    [data_sample] returns one batch: the padding of the first [nsample]
    entries of the index array (all of it when [nsample] exceeds the size
    of the corpus), sorted by descending length.  The reported lengths
    descend, and there are [min(nsample, len)] of them.  The corpus is
    kept. *)
Theorem data_sample_batch
    (st : state) (seqs : list (list Z)) (nsample : Z)
    (batch_first shuffle : bool)
    (Hs : holds st seqs) (Hn : 1 <= nsample) (Hne : seqs <> [])
    (Hl : long_ids (vocab st) seqs) :
  exists st' index_arr t lens,
    Permutation index_arr (range 0 (len seqs))
    /\ (shuffle = false -> index_arr = range 0 (len seqs))
    /\ data_sample nsample batch_first shuffle st = (st', Ok (t, lens))
    /\ padded (vocab st)
              (sort_by (fun s => - len s)
                 (map (sentence_at seqs) (firstn (Z.to_nat nsample) index_arr)))
              batch_first
       = Ok (t, lens)
    /\ len lens = Z.min nsample (len seqs)
    /\ descending lens
    /\ kept st st'.
Proof.
  destruct (data_sample_run st seqs nsample batch_first shuffle Hs)
    as (st' & index_arr & P & Sh & E & K).
  assert (LI : len index_arr = len seqs).
  { unfold len at 1. rewrite (Permutation_length P), range_length.
    pose proof (len_nonneg _ seqs). lia. }
  assert (N1 : 1 <= len seqs).
  { unfold len. destruct seqs; [congruence|]. simpl. lia. }
  assert (S : slice index_arr 0 nsample = firstn (Z.to_nat nsample) index_arr
              /\ List.length (slice index_arr 0 nsample)
                 = Z.to_nat (Z.min nsample (len seqs))).
  { unfold slice, clip. rewrite LI.
    destruct (Z.ltb_spec 0 0); [lia|]. destruct (Z.ltb_spec nsample 0); [lia|].
    rewrite (Z.min_l 0) by lia. cbn [Z.to_nat skipn]. rewrite Z.sub_0_r. split.
    - destruct (Z.min_spec nsample (len seqs)) as [[_ ->]|[Hle ->]];
        [reflexivity|].
      rewrite !firstn_all2; [reflexivity| |]; unfold len in *; lia.
    - rewrite length_firstn. unfold len in *. lia. }
  destruct S as [S SL].
  set (g := map (sentence_at seqs) (slice index_arr 0 nsample)) in *.
  assert (Hg : g <> []).
  { intros G. apply (f_equal (@List.length _)) in G. unfold g in G.
    rewrite length_map, SL in G. simpl in G. lia. }
  destruct (sorted_padded (vocab st) g batch_first Hg
              (long_ids_sentences _ _ _ Hl)) as (t & Pd & Ln & Ds).
  exists st', index_arr, t,
    (map (fun s => len s + 2) (sort_by (fun s => - len s) g)).
  split; [exact P|]. split; [exact Sh|].
  split; [now rewrite E, Pd|]. split; [|split; [|split; [exact Ds | exact K]]].
  - rewrite <- S. exact Pd.
  - rewrite Ln. unfold g. unfold len at 1. rewrite length_map, SL. lia.
Qed.

End SamplingMore.

Section SamplingWitnesses.
Import MonoTextData.

Lemma data_sample_empty_selection_witness :
  snd (@data_sample numpy_stable 0 false true
         (new_corpus [[5; 6]; [7]] VocabEntry.empty_vocab 0))
  = Raise ValueError.
Proof.
  apply (@data_sample_empty_selection numpy_stable numpy_stable_spec
           _ [[5; 6]; [7]]).
  - apply new_corpus_holds.
  - now left.
Defined.

Lemma data_sample_batch_witness :
  exists st' t,
    @data_sample numpy_stable 2 false false
      (new_corpus [[8]; [5; 6; 7]; [9; 9]] VocabEntry.empty_vocab 0)
    = (st', Ok (t, [5; 3])).
Proof.
  destruct (@data_sample_batch numpy_stable numpy_stable_spec
              (new_corpus [[8]; [5; 6; 7]; [9; 9]] VocabEntry.empty_vocab 0)
              [[8]; [5; 6; 7]; [9; 9]] 2 false false)
    as (st' & index_arr & t & lens & _ & Sh & E & Pd & _).
  - apply new_corpus_holds.
  - lia.
  - discriminate.
  - long_ids_by_evaluation.
  - exists st', t. rewrite E. rewrite (Sh eq_refl) in Pd.
    vm_compute in Pd. now injection Pd as _ <-.
Defined.

End SamplingWitnesses.

Section IterationMore.
Import MonoTextData.
Context `{NS : NumpySpec}.

Lemma Forall2_strengthen (A B : Type) (P P' : A -> B -> Prop) (Q : A -> Prop)
    (l : list A) (ys : list B) :
  Forall2 P l ys -> Forall Q l ->
  (forall x y, Q x -> P x y -> P' x y) ->
  Forall2 P' l ys.
Proof.
  intros F. induction F as [|x y l ys Hxy _ IH]; intros HQ H; constructor.
  - apply H; [now apply Forall_inv in HQ | exact Hxy].
  - apply IH; [now apply Forall_inv_tail in HQ | exact H].
Qed.

(** X14.  For a corpus of fewer than [2^53] sentences whose ids, like the
    ids of the three symbols, are values of [torch.long], and for
    [batch_size >= 1] that [float] takes, [data_iter] yields
    [len // batch_size] batches.  Batch [i] is the padding of the
    sentences at entries [i * batch_size] to [(i + 1) * batch_size - 1] of
    the index array, sorted by descending length: it reports exactly
    [batch_size] lengths, and they descend.  Without shuffling the index
    array is [0 .. len - 1].  (Below [2^53] the quotient of the floats in
    line 151 truncates to the quotient of the integers.) *)
Theorem data_iter_batches
    (st : state) (seqs : list (list Z)) (batch_size : Z)
    (batch_first shuffle : bool)
    (Hs : holds st seqs) (Hb : 1 <= batch_size)
    (Hf : float_overflows batch_size = false)
    (Hn : len seqs < 2 ^ 53)
    (Hl : long_ids (vocab st) seqs) :
  exists st' index_arr batches,
    data_iter batch_size batch_first shuffle st = (st', Ok batches)
    /\ Permutation index_arr (range 0 (len seqs))
    /\ (shuffle = false -> index_arr = range 0 (len seqs))
    /\ len batches = len seqs / batch_size
    /\ Forall2 (fun i y =>
                  padded (vocab st)
                         (sort_by (fun s => - len s)
                            (map (sentence_at seqs)
                               (slice index_arr (i * batch_size)
                                               ((i + 1) * batch_size))))
                         batch_first
                  = Ok y
                  /\ len (snd y) = batch_size
                  /\ descending (snd y))
               (range 0 (len seqs / batch_size)) batches.
Proof.
  destruct (data_iter_run st seqs batch_size batch_first shuffle Hs Hb Hf Hl)
    as (st' & index_arr & bs & E & P & Sh & F & L).
  exists st', index_arr, bs. repeat (split; [assumption|]).
  assert (LI : len index_arr = len seqs).
  { unfold len at 1. rewrite (Permutation_length P), range_length.
    pose proof (len_nonneg _ seqs). lia. }
  assert (R : Forall (fun i => 0 <= i < len index_arr / batch_size)
                     (range 0 (len seqs / batch_size))).
  { apply Forall_forall. intros i Hi. apply range_In in Hi. now rewrite LI. }
  apply (Forall2_strengthen _ _ _ _ _ _ _ F R).
  intros i y Ri Hy.
  destruct (slice_full_chunk _ index_arr batch_size i Hb Ri) as [_ Ls].
  set (g := map (sentence_at seqs)
                (slice index_arr (i * batch_size) ((i + 1) * batch_size))) in *.
  assert (Hg : g <> []).
  { intros G. apply (f_equal (@List.length _)) in G. unfold g in G.
    rewrite length_map, Ls in G. simpl in G. lia. }
  destruct (sorted_padded (vocab st) g batch_first Hg
              (long_ids_sentences _ _ _ Hl)) as (t & Pd & Ln & Ds).
  rewrite Pd in Hy. injection Hy as <-. cbn [snd].
  split; [exact Pd|]. split; [|exact Ds].
  rewrite Ln. unfold g, len. rewrite length_map, Ls. lia.
Qed.

Lemma firstn_add (A : Type) (a b : nat) (l : list A) :
  firstn (a + b) l = firstn a l ++ firstn b (skipn a l).
Proof.
  revert l. induction a as [|a IH]; intros l; [reflexivity|].
  destruct l as [|x l]; simpl.
  - now rewrite firstn_nil.
  - now rewrite IH.
Qed.

(** The first [m] full chunks of a list, put together. *)
Lemma concat_chunks (A : Type) (l : list A) (b : Z) (m : nat) :
  1 <= b -> Z.of_nat m <= len l / b ->
  List.concat (map (fun i => slice l (i * b) ((i + 1) * b)) (range 0 (Z.of_nat m)))
  = firstn (Z.to_nat (Z.of_nat m * b)) l.
Proof.
  intros Hb. induction m as [|m IH]; intros Hm.
  - reflexivity.
  - rewrite (range_split 0 (Z.of_nat m) (Z.of_nat (S m))) by lia.
    rewrite (range_cons (Z.of_nat m)) by lia.
    rewrite (range_empty (Z.of_nat m + 1)) by lia.
    rewrite map_app, concat_app, IH by lia. cbn [map List.concat].
    rewrite app_nil_r.
    destruct (slice_full_chunk _ l b (Z.of_nat m) Hb ltac:(lia)) as [-> _].
    rewrite <- firstn_add. f_equal. nia.
Qed.

(** X15.  Under the conditions of X14 (fewer than [2^53] sentences, ids
    in [torch.long], [batch_size >= 1] that [float] takes), the batches of
    [data_iter] are made of the first [(len // batch_size) * batch_size]
    entries of the index array, each entry once and in order; when
    [batch_size] divides the size of the corpus, they cover every position
    of the corpus exactly once. *)
Theorem data_iter_covers_full_chunks
    (st : state) (seqs : list (list Z)) (batch_size : Z)
    (batch_first shuffle : bool)
    (Hs : holds st seqs) (Hb : 1 <= batch_size)
    (Hf : float_overflows batch_size = false)
    (Hn : len seqs < 2 ^ 53)
    (Hl : long_ids (vocab st) seqs) :
  exists st' index_arr batches,
    data_iter batch_size batch_first shuffle st = (st', Ok batches)
    /\ Permutation index_arr (range 0 (len seqs))
    /\ Forall2 (fun i y =>
                  padded (vocab st)
                         (sort_by (fun s => - len s)
                            (map (sentence_at seqs)
                               (slice index_arr (i * batch_size)
                                               ((i + 1) * batch_size))))
                         batch_first
                  = Ok y)
               (range 0 (len seqs / batch_size)) batches
    /\ List.concat
         (map (fun i => slice index_arr (i * batch_size) ((i + 1) * batch_size))
              (range 0 (len seqs / batch_size)))
       = firstn (Z.to_nat (len seqs / batch_size * batch_size)) index_arr
    /\ (len seqs mod batch_size = 0 ->
        Permutation
          (List.concat
             (map (fun i => slice index_arr (i * batch_size) ((i + 1) * batch_size))
                  (range 0 (len seqs / batch_size))))
          (range 0 (len seqs))).
Proof.
  destruct (data_iter_run st seqs batch_size batch_first shuffle Hs Hb Hf Hl)
    as (st' & index_arr & bs & E & P & _ & F & _).
  exists st', index_arr, bs. repeat (split; [assumption|]).
  assert (LI : len index_arr = len seqs).
  { unfold len at 1. rewrite (Permutation_length P), range_length.
    pose proof (len_nonneg _ seqs). lia. }
  pose proof (len_nonneg _ seqs) as N0.
  pose proof (Z.div_pos (len seqs) batch_size N0 ltac:(lia)) as Q0.
  assert (C : List.concat
                (map (fun i => slice index_arr (i * batch_size) ((i + 1) * batch_size))
                     (range 0 (len seqs / batch_size)))
              = firstn (Z.to_nat (len seqs / batch_size * batch_size)) index_arr).
  { pose proof (concat_chunks _ index_arr batch_size
                  (Z.to_nat (len seqs / batch_size)) Hb) as G.
    rewrite Z2Nat.id in G by exact Q0. apply G. rewrite LI. lia. }
  split; [exact C|]. intros M. rewrite C.
  rewrite firstn_all2; [exact P|].
  pose proof (Z.div_mod (len seqs) batch_size ltac:(lia)).
  unfold len in LI. unfold len in *. nia.
Qed.

End IterationMore.

Section IterationWitnesses.
Import MonoTextData.

Lemma data_iter_batches_witness :
  exists st' batches,
    @data_iter numpy_stable 2 false false
      (new_corpus [[8]; [5; 6; 7]; [9; 9]] VocabEntry.empty_vocab 0)
    = (st', Ok batches)
    /\ len batches = 1.
Proof.
  destruct (@data_iter_batches numpy_stable numpy_stable_spec
              (new_corpus [[8]; [5; 6; 7]; [9; 9]] VocabEntry.empty_vocab 0)
              [[8]; [5; 6; 7]; [9; 9]] 2 false false)
    as (st' & index_arr & bs & E & _ & _ & L & _).
  - apply new_corpus_holds.
  - lia.
  - reflexivity.
  - reflexivity.
  - long_ids_by_evaluation.
  - exists st', bs. split; [exact E | exact L].
Defined.

Lemma data_iter_covers_full_chunks_witness :
  exists st' batches,
    @data_iter numpy_stable 2 false true
      (new_corpus [[8]; [5; 6; 7]; [9; 9]; [4]] VocabEntry.empty_vocab 0)
    = (st', Ok batches).
Proof.
  destruct (@data_iter_covers_full_chunks numpy_stable numpy_stable_spec
              (new_corpus [[8]; [5; 6; 7]; [9; 9]; [4]] VocabEntry.empty_vocab 0)
              [[8]; [5; 6; 7]; [9; 9]; [4]] 2 false true)
    as (st' & index_arr & bs & E & _).
  - apply new_corpus_holds.
  - lia.
  - reflexivity.
  - reflexivity.
  - long_ids_by_evaluation.
  - exists st', bs. exact E.
Defined.

End IterationWitnesses.

(** ** The batch-first layout *)

Section BatchFirst.
Import MonoTextData.

Lemma padded_batch_first v sents rows lens :
  padded v sents false = Ok (rows, lens) ->
  padded v sents true = Ok (permute_1_0 rows, lens).
Proof.
  unfold padded.
  destruct (py_max (map (@len Z)
              (map (fun sent => sent ++ [VocabEntry.__getitem__ v "</s>"]) sents)));
    [|discriminate].
  destruct (torch_tensor _); [|discriminate].
  now intros [= <- <-].
Qed.

(** The transpose of rows of one width. *)
Lemma permute_nth (row0 : list Z) (rest : list (list Z)) (i t : nat) row x :
  nth_error (row0 :: rest) t = Some row ->
  nth_error row i = Some x ->
  (i < List.length row0)%nat ->
  exists col,
    nth_error (permute_1_0 (row0 :: rest)) i = Some col
    /\ nth_error col t = Some x.
Proof.
  intros Ht Hi Hw. unfold permute_1_0.
  exists (map (fun r => nth i r 0) (row0 :: rest)). split.
  - rewrite nth_error_map, nth_error_seq.
    destruct (Nat.ltb_spec i (List.length row0)); [reflexivity | lia].
  - rewrite nth_error_map, Ht. cbn [option_map]. f_equal.
    now apply nth_error_nth.
Qed.

(** X16.  On a non-empty batch whose ids, like the ids of the three
    symbols, are values of [torch.long]: with [batch_first=True],
    [_to_tensor] returns the transpose of what it returns with
    [batch_first=False]: one row per sentence, each of length [L + 1],
    with the entry at (sentence [i], time [t]) equal to the time-major
    entry at (time [t], sentence [i]); the reported lengths are the
    same. *)
Theorem to_tensor_batch_first_transposes
    (st : state) (batch_data : loc) (ls : list loc) (sents : list (list Z))
    (Hb : nth_error (objs st) batch_data = Some (Sents ls))
    (Hs : Forall2 (sent_at st) ls sents)
    (Hne : sents <> [])
    (Hl : long_ids (vocab st) sents) :
  exists rows cols lens,
    _to_tensor batch_data false st = (st, Ok (rows, lens))
    /\ _to_tensor batch_data true st = (st, Ok (cols, lens))
    /\ len cols = len sents
    /\ Forall (fun col => len col = len rows) cols
    /\ forall (t i : nat) row x,
         nth_error rows t = Some row ->
         nth_error row i = Some x ->
         exists col, nth_error cols i = Some col /\ nth_error col t = Some x.
Proof.
  destruct (padded_time_major (vocab st) sents Hne Hl) as (L & _ & _ & E).
  set (row0 := py_repeat (VocabEntry.__getitem__ (vocab st) "<s>") (len sents)) in *.
  set (rest := map (fun t => map (fun s => cell (VocabEntry.__getitem__ (vocab st) "</s>")
                                              (VocabEntry.__getitem__ (vocab st) "<pad>") s t)
                                 sents)
                   (range 1 (L + 1))) in *.
  assert (W0 : List.length row0 = List.length sents).
  { unfold row0, py_repeat, len. now rewrite repeat_length, Nat2Z.id. }
  assert (W : Forall (fun row => List.length row = List.length sents) (row0 :: rest)).
  { constructor; [exact W0|]. unfold rest. apply Forall_map, Forall_forall.
    intros t _. now rewrite length_map. }
  exists (row0 :: rest), (permute_1_0 (row0 :: rest)),
         (map (fun s => len s + 2) sents).
  split; [|split; [|split; [|split]]].
  - now rewrite (_to_tensor_run st batch_data ls sents false Hb Hs), E.
  - now rewrite (_to_tensor_run st batch_data ls sents true Hb Hs),
      (padded_batch_first _ _ _ _ E).
  - unfold permute_1_0, len. now rewrite length_map, length_seq, W0.
  - unfold permute_1_0. apply Forall_map, Forall_forall. intros j _.
    unfold len. now rewrite length_map.
  - intros t i row x Ht Hi. apply (permute_nth row0 rest i t row x Ht Hi).
    rewrite W0. rewrite Forall_forall in W.
    rewrite <- (W row (nth_error_In _ _ Ht)). apply nth_error_Some. congruence.
Qed.

Lemma to_tensor_batch_first_transposes_witness :
  exists cols lens,
    _to_tensor 2%nat true (new_corpus [[7; 8]; [9]] VocabEntry.empty_vocab 0)
    = (new_corpus [[7; 8]; [9]] VocabEntry.empty_vocab 0, Ok (cols, lens))
    /\ len cols = 2.
Proof.
  destruct (to_tensor_batch_first_transposes
              (new_corpus [[7; 8]; [9]] VocabEntry.empty_vocab 0) 2%nat
              [0%nat; 1%nat] [[7; 8]; [9]] eq_refl)
    as (rows & cols & lens & _ & E & L & _).
  - repeat constructor.
  - discriminate.
  - long_ids_by_evaluation.
  - exists cols, lens. split; [exact E | exact L].
Defined.

End BatchFirst.

(** ** Length-bucketed batching *)

Section BucketsMore.
Import MonoTextData.
Context `{NS : NumpySpec}.

(** In the time-major layout each batch adds its padded length to
    [total], which is more than its number of sentences when the batch
    size is below the padded length. *)
Lemma sum_size0_time_major v (b : Z) groups tensors :
  Forall2 (one_length_batch v false) groups tensors ->
  Forall (fun g => len g <= b) groups ->
  Forall (fun g => Forall (fun s : list Z => b < len s + 2) g) groups ->
  len (List.concat groups) + len groups <= sum_size0 tensors.
Proof.
  induction 1 as [|g t groups tensors (Hne & n & U & P) _ IH];
    intros B S.
  - unfold len. simpl. lia.
  - apply Forall_cons_iff in B, S. destruct B as [Bg B], S as [Sg S].
    specialize (IH B S).
    rewrite (len_concat _ (g :: groups)). cbn [fold_right].
    rewrite <- len_concat.
    cbn [sum_size0 fold_right]. fold (sum_size0 tensors).
    rewrite (padded_size0 v g n false t _ Hne U P).
    assert (b < n + 2).
    { destruct g as [|s g]; [congruence|].
      apply Forall_inv in U, Sg. lia. }
    unfold len at 3. cbn [List.length]. unfold len in *. lia.
Qed.

(** X18.  With the default [batch_first=False], [create_data_batch]
    raises [AssertionError] on every corpus with sequences, whose ids,
    like the ids of the three symbols, are values of [torch.long],
    whenever [batch_size] is smaller than the length of each sequence plus
    two: every batch is built, and adds more to [total] than it has
    sequences. *)
Theorem create_data_batch_time_major_fails
    (st : state) (seqs : list (list Z)) (batch_size : Z)
    (Hs : holds st seqs) (Hne : seqs <> []) (Hb : 1 <= batch_size)
    (Hl : Forall (fun s => batch_size < len s + 2) seqs)
    (Hids : long_ids (vocab st) seqs) :
  snd (create_data_batch batch_size false st) = Raise AssertionError.
Proof.
  destruct (batches_run st seqs batch_size false Hs Hb Hids)
    as (st' & groups & tensors & total & E & K & F & P & T & B & _).
  destruct (kept_holds st st' seqs K Hs) as (ls & Hd & Fl).
  unfold create_data_batch. rewrite (bind_ok _ _ _ _ _ _ _ E).
  rewrite (bind_ok _ _ _ _ _ _ _ (len_self_data_run st' ls Hd)).
  replace (len ls) with (len seqs)
    by (unfold len; now rewrite (Forall2_length Fl)).
  assert (S : Forall (fun g => Forall (fun s : list Z => batch_size < len s + 2) g)
                     groups).
  { apply Forall_forall. intros g Hg. apply Forall_forall. intros s Hsg.
    rewrite Forall_forall in Hl. apply Hl.
    apply (Permutation_in s P). apply in_concat. now exists g. }
  pose proof (sum_size0_time_major _ _ _ _ F B S) as G.
  assert (LC : len (List.concat groups) = len seqs)
    by (unfold len; now rewrite (Permutation_length P)).
  assert (LG : 1 <= len groups).
  { destruct groups as [|g groups]; [|unfold len; simpl; lia].
    simpl in P. apply Permutation_nil in P. congruence. }
  unfold assert. destruct (Z.eqb_spec total (len seqs)) as [Q|Q]; [lia|].
  reflexivity.
Qed.

(** X19.  On a corpus whose ids, like the ids of the three symbols, are
    values of [torch.long], the batches of [create_data_batch] follow the
    order of [argsort]: read batch after batch, the sentence lengths
    ascend, and no batch has more than [batch_size] sentences. *)
Theorem batches_in_ascending_order
    (st : state) (seqs : list (list Z)) (batch_size : Z) (batch_first : bool)
    (Hs : holds st seqs) (Hb : 1 <= batch_size)
    (Hl : long_ids (vocab st) seqs) :
  exists st' groups tensors total,
    batches batch_size batch_first st = (st', Ok (tensors, total))
    /\ Forall2 (one_length_batch (vocab st) batch_first) groups tensors
    /\ Permutation (List.concat groups) seqs
    /\ Forall (fun g => len g <= batch_size) groups
    /\ ascending (map (@len Z) (List.concat groups)).
Proof.
  destruct (batches_run st seqs batch_size batch_first Hs Hb Hl)
    as (st' & groups & tensors & total & E & K & F & P & T & B & G).
  exists st', groups, tensors, total. repeat (split; [assumption|]).
  rewrite G, map_map.
  rewrite (map_ext _ (fun i => nth (Z.to_nat i) (map (@len Z) seqs) 0)).
  - apply argsort_sorted.
  - intros i. symmetry. apply nth_sents_len.
Qed.

Lemma change_loc_head (sort_len : list Z) :
  sort_len <> [] ->
  exists c0 r, change_loc_of sort_len = c0 :: r /\ 1 <= c0.
Proof.
  intros Hne. unfold change_loc_of.
  assert (N : 1 <= len sort_len).
  { destruct sort_len; [congruence|]. unfold len. simpl. lia. }
  destruct (filter _ (range 1 (len sort_len))) as [|x r] eqn:E.
  - exists (len sort_len), []. now split.
  - exists x, (r ++ [len sort_len]). split; [reflexivity|].
    assert (I : In x (x :: r)) by now left.
    rewrite <- E in I. apply filter_In in I. destruct I as [I _].
    apply range_In in I. lia.
Qed.

(** X20.  With [batch_size <= 0] on a corpus with sequences,
    [create_data_batch] raises [ValueError]: the first batch is empty and
    [max] of its lengths fails in [_to_tensor]. *)
Theorem create_data_batch_nonpositive_batch_size
    (st : state) (seqs : list (list Z)) (batch_size : Z) (batch_first : bool)
    (Hs : holds st seqs) (Hne : seqs <> []) (Hb : batch_size <= 0) :
  snd (create_data_batch batch_size batch_first st) = Raise ValueError.
Proof.
  destruct Hs as (ls & Hd & F).
  set (sort_idx := np_argsort (map (@len Z) seqs)).
  destruct (argsort_valid (map (@len Z) seqs)) as [V L]. fold sort_idx in V, L.
  assert (LS : len (map (@len Z) seqs) = len seqs)
    by (unfold len; now rewrite length_map).
  rewrite LS in V, L.
  set (sort_len := map (fun i => len (sentence_at seqs i)) sort_idx).
  assert (SN : sort_len <> []).
  { intros N. apply (f_equal (@len Z)) in N. unfold sort_len in N.
    unfold len at 1 in N. rewrite length_map in N. fold (len sort_idx) in N.
    rewrite L in N. destruct seqs; [congruence | discriminate]. }
  destruct (change_loc_head sort_len SN) as (c0 & r & C & C1).
  set (st1 := set_objs (objs st ++ [Sents []]) st).
  assert (W : forall fuel,
             while_curr (S fuel) batch_size batch_first sort_idx c0 ([], 0, 0) st
             = (st1, Raise ValueError)).
  { intros fuel. rewrite while_curr_unfold.
    destruct (Z.ltb_spec 0 c0); [|lia].
    assert (A : alloc (Sents []) st = (st1, Ok (List.length (objs st))))
      by reflexivity.
    rewrite (bind_ok _ _ _ _ _ _ _ A).
    rewrite (range_empty 0 (Z.min (0 + batch_size) c0)) by lia.
    cbn [mapM]. unfold bind at 1. unfold ret at 1. cbv beta iota.
    assert (T : _to_tensor (List.length (objs st)) batch_first st1
                = (st1, Raise ValueError)).
    { rewrite (_to_tensor_run st1 _ [] [] batch_first
                 (nth_error_last _ (objs st) (Sents [])) (Forall2_nil _)).
      reflexivity. }
    now rewrite (bind_raise _ _ _ _ _ _ _ T). }
  assert (B : batches batch_size batch_first st = (st1, Raise ValueError)).
  { unfold batches, self_data. unfold bind at 1.
    rewrite (bind_ok _ _ _ _ _ _ _ (sentences_run st (data st) ls seqs Hd F)).
    fold sort_idx. rewrite (take_at_sents_len seqs sort_idx V).
    fold sort_len. unfold lift. unfold bind at 1. rewrite C.
    cbn [foldM]. replace (Z.to_nat c0) with (S (Z.to_nat (c0 - 1))) by lia.
    rewrite (bind_raise _ _ _ _ _ _ _
               (bind_raise _ _ _ _ _ _ _ (W (Z.to_nat (c0 - 1))))).
    reflexivity. }
  unfold create_data_batch. now rewrite (bind_raise _ _ _ _ _ _ _ B).
Qed.

(** X21.  On a corpus without sequences [create_data_batch] returns the
    empty list for every [batch_size] and either layout, and leaves the
    state as it is. *)
Theorem create_data_batch_empty_corpus
    (st : state) (batch_size : Z) (batch_first : bool)
    (Hs : holds st []) :
  create_data_batch batch_size batch_first st = (st, Ok []).
Proof.
  destruct Hs as (ls & Hd & F).
  assert (A : np_argsort [] = []).
  { pose proof (argsort_perm []) as P. apply Permutation_sym in P.
    now apply Permutation_nil in P. }
  assert (Ls : ls = []) by now inversion F.
  subst ls.
  unfold create_data_batch, batches, self_data. unfold bind at 1 2.
  rewrite (bind_ok _ _ _ _ _ _ _ (sentences_run st (data st) [] [] Hd F)).
  cbn [map]. rewrite A.
  unfold bind at 1. cbn -[len_self_data assert].
  rewrite (bind_ok _ _ _ _ _ _ _ (len_self_data_run st [] Hd)).
  reflexivity.
Qed.

End BucketsMore.

Section BucketsWitnesses.
Import MonoTextData.

Lemma create_data_batch_time_major_fails_witness :
  snd (@create_data_batch numpy_stable 2 false
         (new_corpus [[5; 6; 7]; [8]; [9; 9]] VocabEntry.empty_vocab 0))
  = Raise AssertionError.
Proof.
  apply (@create_data_batch_time_major_fails numpy_stable numpy_stable_spec
           _ [[5; 6; 7]; [8]; [9; 9]]).
  - apply new_corpus_holds.
  - discriminate.
  - lia.
  - repeat constructor.
  - long_ids_by_evaluation.
Defined.

Lemma batches_in_ascending_order_witness :
  exists st' groups tensors total,
    @batches numpy_stable 2 true
      (new_corpus [[5; 6; 7]; [8]; [9; 9]] VocabEntry.empty_vocab 0)
    = (st', Ok (tensors, total))
    /\ ascending (map (@len Z) (List.concat groups)).
Proof.
  destruct (@batches_in_ascending_order numpy_stable numpy_stable_spec
              (new_corpus [[5; 6; 7]; [8]; [9; 9]] VocabEntry.empty_vocab 0)
              [[5; 6; 7]; [8]; [9; 9]] 2 true)
    as (st' & groups & tensors & total & E & _ & _ & _ & A).
  - apply new_corpus_holds.
  - lia.
  - long_ids_by_evaluation.
  - exists st', groups, tensors, total. split; [exact E | exact A].
Defined.

Lemma create_data_batch_nonpositive_batch_size_witness :
  snd (@create_data_batch numpy_stable 0 true
         (new_corpus [[5; 6; 7]; [8]] VocabEntry.empty_vocab 0))
  = Raise ValueError.
Proof.
  apply (@create_data_batch_nonpositive_batch_size numpy_stable numpy_stable_spec
           _ [[5; 6; 7]; [8]]).
  - apply new_corpus_holds.
  - discriminate.
  - lia.
Defined.

Lemma create_data_batch_empty_corpus_witness :
  @create_data_batch numpy_stable 4 false
    (new_corpus [] VocabEntry.empty_vocab 3)
  = (new_corpus [] VocabEntry.empty_vocab 3, Ok []).
Proof.
  apply (@create_data_batch_empty_corpus numpy_stable numpy_stable_spec).
  apply new_corpus_holds.
Defined.

Lemma create_data_batch_batch_first_returns_witness :
  exists st' tensors,
    @create_data_batch numpy_stable 2 true
      (new_corpus [[5; 6; 7]; [8]; [9; 9]] VocabEntry.empty_vocab 0)
    = (st', Ok tensors)
    /\ sum_size0 tensors = 3.
Proof.
  apply (@create_data_batch_batch_first_returns numpy_stable numpy_stable_spec
           _ [[5; 6; 7]; [8]; [9; 9]]).
  - apply new_corpus_holds.
  - lia.
  - long_ids_by_evaluation.
Defined.

End BucketsWitnesses.

(** ** What [torch.tensor] and [float] refuse *)

Section Refusals.
Import MonoTextData.

Lemma forallb_false (A : Type) (f : A -> bool) (l : list A) (x : A) :
  In x l -> f x = false -> forallb f l = false.
Proof.
  intros I E. destruct (forallb f l) eqn:F; [|reflexivity].
  rewrite forallb_forall in F. rewrite (F x I) in E. discriminate.
Qed.

Lemma torch_long_false x : ~ int64 x -> torch_long x = false.
Proof.
  intros N. destruct (torch_long x) eqn:T; [|reflexivity].
  destruct N. now apply torch_long_inv.
Qed.

(** X22.  [_to_tensor] raises [RuntimeError], in either layout and
    without changing the state, on every batch in which some sentence
    holds an id that is not a value of [torch.long]: the id is in the
    rows handed to [torch.tensor]. *)
Theorem to_tensor_refuses_wide_id
    (st : state) (batch_data : loc) (ls : list loc) (sents : list (list Z))
    (batch_first : bool)
    (Hb : nth_error (objs st) batch_data = Some (Sents ls))
    (Hs : Forall2 (sent_at st) ls sents)
    (Hw : Exists (Exists (fun x => ~ int64 x)) sents) :
  _to_tensor batch_data batch_first st = (st, Raise RuntimeError).
Proof.
  rewrite (_to_tensor_run st batch_data ls sents batch_first Hb Hs). f_equal.
  apply Exists_exists in Hw. destruct Hw as (s & Is & Hx).
  apply Exists_exists in Hx. destruct Hx as (x & Ix & Nx).
  destruct (In_nth_error s x Ix) as [k Ek].
  set (stop := VocabEntry.__getitem__ (vocab st) "</s>").
  unfold padded. fold stop.
  destruct (py_max_spec (map (@len Z) (map (fun sent => sent ++ [stop]) sents)))
    as (L & E & _ & B).
  { destruct sents; [destruct Is | discriminate]. }
  rewrite E.
  assert (Lk : (k < List.length s)%nat) by (apply nth_error_Some; congruence).
  assert (Ls : len (s ++ [stop]) <= L).
  { apply B. rewrite map_map.
    apply (in_map (fun x0 : list Z => len (x0 ++ [stop])) _ _ Is). }
  assert (LS : len (s ++ [stop]) = len s + 1).
  { unfold len. rewrite length_app. simpl. lia. }
  unfold torch_tensor.
  match goal with |- context [forallb ?f ?l] =>
    replace (forallb f l) with false; [reflexivity|]
  end.
  symmetry.
  apply forallb_false
    with (x := map (fun sent =>
                      if len sent >? Z.of_nat k
                      then nth (Z.to_nat (Z.of_nat k)) sent 0
                      else VocabEntry.__getitem__ (vocab st) "<pad>")
                   (map (fun sent => sent ++ [stop]) sents)).
  - apply in_or_app. right.
    apply (in_map (fun i =>
                     map (fun sent =>
                            if len sent >? i then nth (Z.to_nat i) sent 0
                            else VocabEntry.__getitem__ (vocab st) "<pad>")
                         (map (fun sent => sent ++ [stop]) sents))).
    apply range_In. unfold len in *. lia.
  - apply forallb_false with (x := x); [|now apply torch_long_false].
    rewrite map_map. apply in_map_iff. exists s. split; [|exact Is].
    destruct (Z.gtb_spec (len (s ++ [stop])) (Z.of_nat k)) as [_|G];
      [|unfold len in *; lia].
    rewrite Nat2Z.id, app_nth1 by exact Lk.
    now apply nth_error_nth.
Qed.


End Refusals.

Section RefusalWitnesses.
Import MonoTextData.

Lemma to_tensor_refuses_wide_id_witness :
  _to_tensor 1%nat false (new_corpus [[2 ^ 63]] VocabEntry.empty_vocab 0)
  = (new_corpus [[2 ^ 63]] VocabEntry.empty_vocab 0, Raise RuntimeError).
Proof.
  apply (to_tensor_refuses_wide_id
           (new_corpus [[2 ^ 63]] VocabEntry.empty_vocab 0)
           1%nat [0%nat] [[2 ^ 63]] false eq_refl).
  - repeat constructor.
  - constructor. constructor. unfold int64. intros [_ H]. revert H.
    now apply Z.lt_irrefl.
Defined.


End RefusalWitnesses.
